(** * Log classification and evidence assembly of the dispute resolver

    A shallow embedding of [BlockchainService] (utils/blockchain.js), of
    the request validation (utils/validation.js), of the evidence-assembly
    steps of [resolveDispute] and the log route
    (controllers/disputeController.js) and of the dispute contract
    (DummyDisputeContract.sol), together with the part of the ethers v6
    library the service calls.

    Conventions.
    - JavaScript strings are modelled as [string]; the strings the service
      handles (hex words, addresses, decimal numbers) are ASCII, where a
      byte and a UTF-16 code unit coincide.
    - A JavaScript exception is modelled by [None] (or by an explicit
      constructor) at the place where it can be raised, and every
      [try]/[catch] of the source appears as a match on that outcome.
    - A JavaScript object used as a dictionary is a [gmap] from its keys. *)

From Stdlib Require Import ZArith List String Ascii Bool Lia DecimalString.
From stdpp Require Import gmap strings.
Import ListNotations.

Local Open Scope string_scope.
Local Open Scope Z_scope.

(** ** JavaScript string primitives used by the service *)

Module JS.

(** [s.slice(i)] for [0 <= i]. *)
Fixpoint slice_from (i : nat) (s : string) : string :=
  match i, s with
  | O, _ => s
  | S i', String _ s' => slice_from i' s'
  | S _, EmptyString => EmptyString
  end.

(** The first [n] characters of [s]. *)
Fixpoint prefix_n (n : nat) (s : string) : string :=
  match n, s with
  | O, _ => EmptyString
  | S n', String c s' => String c (prefix_n n' s')
  | S _, EmptyString => EmptyString
  end.

(** [s.slice(i, j)] for [0 <= i <= j]. *)
Definition slice (i j : nat) (s : string) : string :=
  prefix_n (j - i) (slice_from i s).

Definition is_upper (c : ascii) : bool :=
  let n := N_of_ascii c in (65 <=? n)%N && (n <=? 90)%N.

Definition is_lower (c : ascii) : bool :=
  let n := N_of_ascii c in (97 <=? n)%N && (n <=? 122)%N.

Definition lower_char (c : ascii) : ascii :=
  if is_upper c then ascii_of_N (N_of_ascii c + 32) else c.

Definition upper_char (c : ascii) : ascii :=
  if is_lower c then ascii_of_N (N_of_ascii c - 32) else c.

Fixpoint map_chars (f : ascii -> ascii) (s : string) : string :=
  match s with
  | EmptyString => EmptyString
  | String c s' => String (f c) (map_chars f s')
  end.

Definition toLowerCase : string -> string := map_chars lower_char.

Fixpoint all_chars (p : ascii -> bool) (s : string) : bool :=
  match s with
  | EmptyString => true
  | String c s' => p c && all_chars p s'
  end.

Fixpoint any_char (p : ascii -> bool) (s : string) : bool :=
  match s with
  | EmptyString => false
  | String c s' => p c || any_char p s'
  end.

Definition startsWith (p s : string) : bool :=
  String.eqb (prefix_n (String.length p) s) p.

(** The white space a numeric string may end with (ASCII part). *)
Definition is_space (c : ascii) : bool :=
  let n := N_of_ascii c in
  (n =? 32)%N || ((9 <=? n)%N && (n <=? 13)%N).

Fixpoint trimEnd (s : string) : string :=
  match s with
  | EmptyString => EmptyString
  | String c s' =>
      match trimEnd s' with
      | EmptyString => if is_space c then EmptyString else String c EmptyString
      | t => String c t
      end
  end.

End JS.

(** ** Hexadecimal words *)

Module Hex.

Definition digit (c : ascii) : option Z :=
  let n := Z.of_N (N_of_ascii c) in
  if (48 <=? n) && (n <=? 57) then Some (n - 48)
  else if (97 <=? n) && (n <=? 102) then Some (n - 87)
  else if (65 <=? n) && (n <=? 70) then Some (n - 55)
  else None.

Definition is_digit (c : ascii) : bool :=
  match digit c with Some _ => true | None => false end.

(** Value of a string of hexadecimal digits, most significant first. *)
Fixpoint value_acc (acc : Z) (s : string) : option Z :=
  match s with
  | EmptyString => Some acc
  | String c s' =>
      match digit c with
      | Some d => value_acc (16 * acc + d) s'
      | None => None
      end
  end.

Definition value (s : string) : option Z := value_acc 0 s.

Definition digit_char (d : Z) : ascii :=
  ascii_of_N (Z.to_N (if d <? 10 then 48 + d else 87 + d)).

Definition of_byte (b : Z) : string :=
  String (digit_char (b / 16)) (String (digit_char (b mod 16)) EmptyString).

Fixpoint of_bytes (bs : list Z) : string :=
  match bs with
  | [] => EmptyString
  | b :: bs' => of_byte b ++ of_bytes bs'
  end.

(** Bytes of a string of hexadecimal digits; [None] when a character is
    not a digit or the number of digits is odd. *)
Fixpoint to_bytes (s : string) : option (list Z) :=
  match s with
  | EmptyString => Some []
  | String _ EmptyString => None
  | String c1 (String c2 s') =>
      match digit c1, digit c2, to_bytes s' with
      | Some h, Some l, Some bs => Some (16 * h + l :: bs)
      | _, _, _ => None
      end
  end.

(** ethers [isHexString(value)]: [0x] followed by hexadecimal digits. *)
Definition isHexString (s : string) : bool :=
  JS.startsWith "0x" s && JS.all_chars is_digit (JS.slice_from 2 s).

End Hex.

(** ** Keccak-256, the hash behind event selectors and address checksums *)

Module Keccak.

Definition mask64 : Z := Z.ones 64.

Definition rol64 (x n : Z) : Z :=
  Z.lor (Z.land (Z.shiftl x n) mask64) (Z.shiftr x (64 - n)).

Definition RC : list Z :=
  [ 0x0000000000000001; 0x0000000000008082; 0x800000000000808A;
    0x8000000080008000; 0x000000000000808B; 0x0000000080000001;
    0x8000000080008081; 0x8000000000008009; 0x000000000000008A;
    0x0000000000000088; 0x0000000080008009; 0x000000008000000A;
    0x000000008000808B; 0x800000000000008B; 0x8000000000008089;
    0x8000000000008003; 0x8000000000008002; 0x8000000000000080;
    0x000000000000800A; 0x800000008000000A; 0x8000000080008081;
    0x8000000000008080; 0x0000000080000001; 0x8000000080008008 ].

(** Rotation offsets, lane [(x, y)] at index [x + 5 * y]. *)
Definition ROT : list Z :=
  [ 0; 1; 62; 28; 27;   36; 44; 6; 55; 20;   3; 10; 43; 25; 39;
    41; 45; 15; 21; 8;  18; 2; 61; 56; 14 ].

Definition lane (st : list Z) (i : nat) : Z := nth i st 0.

Definition theta (st : list Z) : list Z :=
  let C := map (fun x =>
             Z.lxor (lane st x)
               (Z.lxor (lane st (x + 5))
                  (Z.lxor (lane st (x + 10))
                     (Z.lxor (lane st (x + 15)) (lane st (x + 20))))))
             (seq 0 5) in
  let D := map (fun x =>
             Z.lxor (lane C ((x + 4) mod 5)%nat)
                    (rol64 (lane C ((x + 1) mod 5)%nat) 1))
             (seq 0 5) in
  map (fun i => Z.lxor (lane st i) (lane D (i mod 5)%nat)) (seq 0 25).

Definition rho_pi (st : list Z) : list Z :=
  map (fun i =>
         let X := (i mod 5)%nat in
         let Y := (i / 5)%nat in
         let x := ((X + 3 * Y) mod 5)%nat in
         rol64 (lane st (x + 5 * X)) (lane ROT (x + 5 * X)))
      (seq 0 25).

Definition chi (st : list Z) : list Z :=
  map (fun i =>
         let x := (i mod 5)%nat in
         let y := (i / 5)%nat in
         Z.lxor (lane st i)
           (Z.land (Z.lxor (lane st ((x + 1) mod 5 + 5 * y)) mask64)
                   (lane st ((x + 2) mod 5 + 5 * y))))
      (seq 0 25).

Definition iota (rc : Z) (st : list Z) : list Z :=
  match st with
  | [] => []
  | a :: st' => Z.lxor a rc :: st'
  end.

Definition round (st : list Z) (rc : Z) : list Z :=
  iota rc (chi (rho_pi (theta st))).

Definition keccak_f (st : list Z) : list Z := fold_left round RC st.

Definition rate : nat := 136.

Definition pad (msg : list Z) : list Z :=
  let q := (rate - length msg mod rate)%nat in
  match q with
  | 1%nat => msg ++ [0x81]
  | _ => msg ++ [0x01] ++ repeat 0 (q - 2) ++ [0x80]
  end.

Definition le_word (bs : list Z) : Z :=
  fold_right (fun b acc => b + 256 * acc) 0 bs.

Definition block_lanes (block : list Z) : list Z :=
  map (fun i =>
         if (i <? 17)%nat then le_word (firstn 8 (skipn (8 * i) block)) else 0)
      (seq 0 25).

Definition xor_state (st lanes : list Z) : list Z :=
  map (fun i => Z.lxor (lane st i) (lane lanes i)) (seq 0 25).

Fixpoint absorb (fuel : nat) (st msg : list Z) : list Z :=
  match fuel, msg with
  | _, [] => st
  | O, _ => st
  | S fuel', _ =>
      absorb fuel' (keccak_f (xor_state st (block_lanes (firstn rate msg))))
             (skipn rate msg)
  end.

Definition le_bytes (w : Z) : list Z :=
  map (fun i => Z.land (Z.shiftr w (8 * Z.of_nat i)) 255) (seq 0 8).

Definition digest (msg : list Z) : list Z :=
  let padded := pad msg in
  let st := absorb (length padded) (repeat 0 25) padded in
  flat_map le_bytes (firstn 4 st).

Definition bytes_of_string (s : string) : list Z :=
  map (fun c => Z.of_N (N_of_ascii c)) (list_ascii_of_string s).

(** ethers [id(text)]: the hash of the text, as a [0x] hex string. *)
Definition id (text : string) : string :=
  "0x" ++ Hex.of_bytes (digest (bytes_of_string text)).

End Keccak.

(** ** The part of ethers v6 used by the service

    The service is written against the ethers v6 interface
    ([ethers.JsonRpcProvider], [ethers.Interface], [ethers.getAddress]).
    The definitions of this module follow that library: address
    normalisation, the ABI decoding of event logs and [Interface.parseLog]. *)

Module Ethers.

(** [getChecksumAddress]: lower-case the forty digits, hash them and
    upper-case every letter whose hash nibble is at least eight. *)
Definition nibbles (bs : list Z) : list Z :=
  flat_map (fun b => [b / 16; b mod 16]) bs.

Fixpoint checksum_chars (chars : string) (ns : list Z) : string :=
  match chars, ns with
  | String c chars', n :: ns' =>
      String (if 8 <=? n then JS.upper_char c else c) (checksum_chars chars' ns')
  | _, _ => chars
  end.

Definition getChecksumAddress (address : string) : string :=
  let chars := JS.slice_from 2 (JS.toLowerCase address) in
  "0x" ++ checksum_chars chars (nibbles (Keccak.digest (Keccak.bytes_of_string chars))).

Definition is_upper_hex (c : ascii) : bool :=
  let n := N_of_ascii c in (65 <=? n)%N && (n <=? 70)%N.

Definition is_lower_hex (c : ascii) : bool :=
  let n := N_of_ascii c in (97 <=? n)%N && (n <=? 102)%N.

Definition mixed_case (address : string) : bool :=
  JS.any_char is_upper_hex address && JS.any_char is_lower_hex address.

(** [ethers.getAddress(address)]: forty hexadecimal digits with an
    optional [0x]; a mixed-case address must carry the right checksum.
    [None] is the "invalid address" / "bad address checksum" exception.
    The ICAP form ([XE] followed by digits) is not modelled: the service
    only passes strings that start with [0x]. *)
Definition getAddress (address : string) : option string :=
  let body := if JS.startsWith "0x" address then JS.slice_from 2 address else address in
  if (String.length body =? 40)%nat && JS.all_chars Hex.is_digit body then
    let address := "0x" ++ body in
    let result := getChecksumAddress address in
    if mixed_case address && negb (String.eqb result address)
    then None
    else Some result
  else None.

(** [BigInt('0x' + digits)]: trailing white space is ignored, at least
    one digit is required; [None] is the [SyntaxError]. *)
Definition BigInt_hex (digits : string) : option Z :=
  match JS.trimEnd digits with
  | EmptyString => None
  | t => Hex.value t
  end.

(** [n.toString()] of a non-negative [BigInt]. *)
Definition toString (n : Z) : string :=
  NilZero.string_of_uint (N.to_uint (Z.to_N n)).

(** *** Event fragments and interfaces *)

Inductive ParamType := TAddress | TUint256 | TString.

Record EventParam := {
  p_type : ParamType;
  p_indexed : bool;
  p_name : string
}.

Record EventFragment := {
  ev_name : string;
  ev_inputs : list EventParam
}.

Definition type_name (t : ParamType) : string :=
  match t with
  | TAddress => "address"
  | TUint256 => "uint256"
  | TString => "string"
  end.

Fixpoint join (sep : string) (l : list string) : string :=
  match l with
  | [] => ""
  | [x] => x
  | x :: l' => x ++ sep ++ join sep l'
  end.

(** The canonical signature, [Name(type,...)], and its hash. *)
Definition format (f : EventFragment) : string :=
  ev_name f ++ "(" ++ join "," (map (fun p => type_name (p_type p)) (ev_inputs f)) ++ ")".

Definition topicHash (f : EventFragment) : string := Keccak.id (format f).

(** A decoded argument. *)
Inductive Value :=
| VAddress (a : string)
| VUint (n : Z)
| VString (s : string)
| VIndexed (hash : string).

(** *** ABI decoding *)

Definition be_word (bs : list Z) : Z :=
  fold_left (fun acc b => 256 * acc + b) bs 0.

Fixpoint be_bytes (n : nat) (w : Z) : list Z :=
  match n with
  | O => []
  | S n' => (be_bytes n' (w / 256) ++ [w mod 256])%list
  end.

(** [reader.readBytes(32)] at [offset]; [None] is [BUFFER_OVERRUN]. *)
Definition read_word (bytes : list Z) (offset : nat) : option Z :=
  if (offset + 32 <=? length bytes)%nat
  then Some (be_word (firstn 32 (skipn offset bytes)))
  else None.

(** [getBytes(hex)]: [0x] and an even number of digits. *)
Definition getBytes (hex : string) : option (list Z) :=
  if JS.startsWith "0x" hex then Hex.to_bytes (JS.slice_from 2 hex) else None.

Fixpoint concat_topics (topics : list string) : option (list Z) :=
  match topics with
  | [] => Some []
  | t :: topics' =>
      match getBytes t, concat_topics topics' with
      | Some b, Some bs => Some (b ++ bs)%list
      | _, _ => None
      end
  end.

(** Characters of a decoded [string]; bytes above 127 are outside the
    ASCII model of strings and are reported as a decoding error. *)
Fixpoint ascii_string (bs : list Z) : option string :=
  match bs with
  | [] => Some EmptyString
  | b :: bs' =>
      if b <? 128 then
        match ascii_string bs' with
        | Some s => Some (String (ascii_of_N (Z.to_N b)) s)
        | None => None
        end
      else None
  end.

(** The outcome of decoding one parameter.  [Overrun] is an exception
    that leaves the decoder at once: a [BUFFER_OVERRUN], or the offset of
    a dynamic value that is not a safe integer.  Any other failure is kept
    in the result and raised when the argument is read ([Item None]). *)
Inductive Decoded := Overrun | Item (v : option Value).

Definition decode_address (w : Z) : option Value :=
  if w <? 2 ^ 160
  then option_map VAddress (getAddress ("0x" ++ Hex.of_bytes (be_bytes 20 w)))
  else None.

(** A dynamic [string] at [offset] of [bytes]: a length word and the
    characters. *)
Definition decode_string (bytes : list Z) (offset : nat) : Decoded :=
  match read_word bytes offset with
  | None => Overrun
  | Some len =>
      if 2 ^ 53 <=? len then Item None
      else
        let n := Z.to_nat len in
        if (offset + 32 + n <=? length bytes)%nat
        then Item (option_map VString (ascii_string (firstn n (skipn (offset + 32) bytes))))
        else Overrun
  end.

(** One parameter whose head word is at [offset]. *)
Definition decode_param (t : ParamType) (bytes : list Z) (offset : nat) : Decoded :=
  match read_word bytes offset with
  | None => Overrun
  | Some w =>
      match t with
      | TAddress => Item (decode_address w)
      | TUint256 => Item (Some (VUint w))
      | TString =>
          if 2 ^ 53 <=? w then Overrun
          else decode_string bytes (Z.to_nat w)
      end
  end.

(** [abiCoder.decode(types, bytes)]: [None] when a coder raised. *)
Fixpoint decode_tuple (types : list ParamType) (bytes : list Z) (offset : nat)
  : option (list (option Value)) :=
  match types with
  | [] => Some []
  | t :: types' =>
      match decode_param t bytes offset with
      | Overrun => None
      | Item v =>
          match decode_tuple types' bytes (offset + 32) with
          | Some vs => Some (v :: vs)
          | None => None
          end
      end
  end.

(** An indexed [string] is stored hashed and decoded as a 32-byte word. *)
Definition decode_indexed (t : ParamType) (bytes : list Z) (offset : nat) : Decoded :=
  match t with
  | TString =>
      match read_word bytes offset with
      | None => Overrun
      | Some w => Item (Some (VIndexed ("0x" ++ Hex.of_bytes (be_bytes 32 w))))
      end
  | _ => decode_param t bytes offset
  end.

Fixpoint decode_topics (types : list ParamType) (bytes : list Z) (offset : nat)
  : option (list (option Value)) :=
  match types with
  | [] => Some []
  | t :: types' =>
      match decode_indexed t bytes offset with
      | Overrun => None
      | Item v =>
          match decode_topics types' bytes (offset + 32) with
          | Some vs => Some (v :: vs)
          | None => None
          end
      end
  end.

(** Put the indexed and the non-indexed results back in declaration
    order. *)
Fixpoint interleave (inputs : list EventParam) (ix nix : list (option Value))
  : list (option Value) :=
  match inputs with
  | [] => []
  | p :: inputs' =>
      if p_indexed p then
        match ix with
        | v :: ix' => v :: interleave inputs' ix' nix
        | [] => None :: interleave inputs' [] nix
        end
      else
        match nix with
        | v :: nix' => v :: interleave inputs' ix nix'
        | [] => None :: interleave inputs' ix []
        end
  end.

(** [iface.decodeEventLog(fragment, data, topics)], called once
    [topics[0]] is known to be the fragment's hash. *)
Definition decodeEventLog (f : EventFragment) (data : string) (topics : list string)
  : option (list (option Value)) :=
  let indexed := List.filter (fun p => p_indexed p) (ev_inputs f) in
  let nonIndexed := List.filter (fun p => negb (p_indexed p)) (ev_inputs f) in
  match concat_topics (tl topics), getBytes data with
  | Some tbytes, Some dbytes =>
      match decode_topics (map p_type indexed) tbytes 0,
            decode_tuple (map p_type nonIndexed) dbytes 0 with
      | Some ix, Some nix => Some (interleave (ev_inputs f) ix nix)
      | _, _ => None
      end
  | _, _ => None
  end.

(** *** Interface.parseLog *)

Definition Interface := list EventFragment.

(** [iface.getEvent(key)] for a hexadecimal key: the fragment whose
    topic hash is the lower-cased key.  A key that is not a hex string is
    looked up by name or signature in ethers; a log topic is a 32-byte
    hex word, and for another key [parseLog] ends in [null] or in an
    exception, which the classifier treats alike. *)
Definition getEvent (iface : Interface) (key : string) : option EventFragment :=
  if Hex.isHexString key
  then find (fun f => String.eqb (JS.toLowerCase key) (topicHash f)) iface
  else None.

Inductive ParseResult :=
| Throws
| Null
| LogDescription (name : string) (args : list (option Value)).

(** [iface.parseLog(log)] in ethers v6: [null] when no event of the
    interface has the selector [topics[0]] (version 5 raised there, and the
    guard [if (parsedLog && ...)] of the service expects [null]); an
    exception when there is no topic at all or when the arguments do not
    decode. *)
Definition parseLog (iface : Interface) (topics : list string) (data : string)
  : ParseResult :=
  match topics with
  | [] => Throws
  | t0 :: _ =>
      match getEvent iface t0 with
      | None => Null
      | Some f =>
          match decodeEventLog f data topics with
          | Some args => LogDescription (ev_name f) args
          | None => Throws
          end
      end
  end.

(** [args[i]]: raises when the index is out of range or when the item
    holds a decoding error. *)
Definition arg (args : list (option Value)) (i : nat) : option Value :=
  match nth_error args i with
  | Some (Some v) => Some v
  | _ => None
  end.

(** [v.toString()] of a decoded argument. *)
Definition value_toString (v : Value) : string :=
  match v with
  | VUint n => toString n
  | VAddress a => a
  | VString s => s
  | VIndexed h => h
  end.

End Ethers.

(** ** BlockchainService: the schema registry and the log classifier *)

Module BlockchainService.

Import Ethers.
Local Open Scope list_scope.

Definition param (t : ParamType) (indexed : bool) (name : string) : EventParam :=
  {| p_type := t; p_indexed := indexed; p_name := name |}.

(** The event fragments of the three ABIs.  Their function fragments
    play no part in [parseLog]; the contract reads they stand for are
    calls to the provider (see [read] below). *)
Definition ERC20_Transfer : EventFragment :=
  {| ev_name := "Transfer";
     ev_inputs := [ param TAddress true "from"; param TAddress true "to";
                    param TUint256 false "value" ] |}.

Definition ERC20_ABI : Interface := [ ERC20_Transfer ].

Definition ERC721_Transfer : EventFragment :=
  {| ev_name := "Transfer";
     ev_inputs := [ param TAddress true "from"; param TAddress true "to";
                    param TUint256 true "tokenId" ] |}.

Definition ERC721_ABI : Interface := [ ERC721_Transfer ].

Definition Dummy_Transfer : EventFragment :=
  {| ev_name := "Transfer";
     ev_inputs := [ param TAddress true "from"; param TAddress true "to";
                    param TUint256 false "amount" ] |}.

Definition Dummy_TransferFailed : EventFragment :=
  {| ev_name := "TransferFailed";
     ev_inputs := [ param TAddress true "from"; param TAddress true "to";
                    param TUint256 false "amount"; param TString false "reason" ] |}.

Definition Dummy_PartialTransfer : EventFragment :=
  {| ev_name := "PartialTransfer";
     ev_inputs := [ param TAddress true "from"; param TAddress true "to";
                    param TUint256 false "requested"; param TUint256 false "sent" ] |}.

Definition Dummy_TokenMinted : EventFragment :=
  {| ev_name := "TokenMinted";
     ev_inputs := [ param TAddress true "to"; param TUint256 false "tokenId" ] |}.

Definition Dummy_TokenTransferFailed : EventFragment :=
  {| ev_name := "TokenTransferFailed";
     ev_inputs := [ param TAddress true "from"; param TAddress true "to";
                    param TUint256 false "tokenId"; param TString false "reason" ] |}.

Definition DUMMY_DISPUTE_CONTRACT_ABI : Interface :=
  [ Dummy_Transfer; Dummy_TransferFailed; Dummy_PartialTransfer;
    Dummy_TokenMinted; Dummy_TokenTransferFailed ].

(** *** Data model *)

Record RawLog := {
  address : string;
  topics : list string;
  data : string;
  logIndex : Z
}.

(** An entry of [parsedLogs.transfers]; a field the object literal does
    not have is [None]. *)
Record Transfer := {
  tr_type : string;
  tr_from : option Value;
  tr_to : Value;
  tr_value : option string;
  tr_tokenId : option string;
  tr_amount : option string;
  tr_logIndex : Z
}.

(** An entry of [parsedLogs.failures]. *)
Record Failure := {
  fl_type : string;
  fl_from : Value;
  fl_to : Value;
  fl_amount : option string;
  fl_tokenId : option string;
  fl_reason : Value;
  fl_logIndex : Z
}.

(** An entry of [parsedLogs.partialTransfers]. *)
Record PartialTransfer := {
  pt_type : string;
  pt_from : Value;
  pt_to : Value;
  pt_requested : string;
  pt_sent : string;
  pt_logIndex : Z
}.

(** An entry of [indexedParams] or [nonIndexedParams]. *)
Record Param := {
  pm_type : string;
  pm_value : string
}.

(** An entry of [parsedLogs.unknownEvents]. *)
Record UnknownEvent := {
  ue_type : string;
  ue_eventSignature : string;
  ue_from : option string;
  ue_to : option string;
  ue_amount : option string;
  ue_indexedParams : list Param;
  ue_nonIndexedParams : list Param;
  ue_logIndex : Z;
  ue_rawData : string
}.

Record ParsedLogs := {
  transfers : list Transfer;
  failures : list Failure;
  partialTransfers : list PartialTransfer;
  contractType : option string;
  contractInfo : gmap string Value;
  unknownEvents : list UnknownEvent
}.

Definition emptyParsedLogs : ParsedLogs :=
  {| transfers := []; failures := []; partialTransfers := [];
     contractType := None; contractInfo := ∅; unknownEvents := [] |}.

(** *** Known ABIs *)

(** What the body of one [try] block does with a log: it raises, or it
    runs to its end having pushed an event (and set [parsed]) or not. *)
Inductive Outcome (A : Type) :=
| Raised
| Completed (pushed : option A).
Arguments Raised {A}.
Arguments Completed {A} pushed.

(** The event a schema pushes, in the sequence it is pushed to. *)
Inductive Classified :=
| ToTransfers (t : Transfer)
| ToFailures (f : Failure)
| ToPartialTransfers (p : PartialTransfer).

(** "Try to parse as ERC-20 Transfer". *)
Definition tryERC20 (log : RawLog) : Outcome (string * Classified) :=
  match parseLog ERC20_ABI (topics log) (data log) with
  | Throws => Raised
  | Null => Completed None
  | LogDescription name args =>
      if String.eqb name "Transfer" then
        match arg args 0, arg args 1, arg args 2 with
        | Some a0, Some a1, Some a2 =>
            Completed (Some ("ERC20", ToTransfers
              {| tr_type := "ERC20"; tr_from := Some a0; tr_to := a1;
                 tr_value := Some (value_toString a2); tr_tokenId := None;
                 tr_amount := None; tr_logIndex := logIndex log |}))
        | _, _, _ => Raised
        end
      else Completed None
  end.

(** "Try to parse as ERC-721 Transfer". *)
Definition tryERC721 (log : RawLog) : Outcome (string * Classified) :=
  match parseLog ERC721_ABI (topics log) (data log) with
  | Throws => Raised
  | Null => Completed None
  | LogDescription name args =>
      if String.eqb name "Transfer" then
        match arg args 0, arg args 1, arg args 2 with
        | Some a0, Some a1, Some a2 =>
            Completed (Some ("ERC721", ToTransfers
              {| tr_type := "ERC721"; tr_from := Some a0; tr_to := a1;
                 tr_value := None; tr_tokenId := Some (value_toString a2);
                 tr_amount := None; tr_logIndex := logIndex log |}))
        | _, _, _ => Raised
        end
      else Completed None
  end.

(** "Try to parse as Monad DummyDisputeContract events". *)
Definition tryDummy (log : RawLog) : Outcome (string * Classified) :=
  match parseLog DUMMY_DISPUTE_CONTRACT_ABI (topics log) (data log) with
  | Throws => Raised
  | Null => Completed None
  | LogDescription name args =>
      if String.eqb name "Transfer" then
        match arg args 0, arg args 1, arg args 2 with
        | Some a0, Some a1, Some a2 =>
            Completed (Some ("MonadDummyContract", ToTransfers
              {| tr_type := "MonadToken"; tr_from := Some a0; tr_to := a1;
                 tr_value := None; tr_tokenId := None;
                 tr_amount := Some (value_toString a2);
                 tr_logIndex := logIndex log |}))
        | _, _, _ => Raised
        end
      else if String.eqb name "TransferFailed" then
        match arg args 0, arg args 1, arg args 2, arg args 3 with
        | Some a0, Some a1, Some a2, Some a3 =>
            Completed (Some ("MonadDummyContract", ToFailures
              {| fl_type := "TransferFailed"; fl_from := a0; fl_to := a1;
                 fl_amount := Some (value_toString a2); fl_tokenId := None;
                 fl_reason := a3; fl_logIndex := logIndex log |}))
        | _, _, _, _ => Raised
        end
      else if String.eqb name "PartialTransfer" then
        match arg args 0, arg args 1, arg args 2, arg args 3 with
        | Some a0, Some a1, Some a2, Some a3 =>
            Completed (Some ("MonadDummyContract", ToPartialTransfers
              {| pt_type := "PartialTransfer"; pt_from := a0; pt_to := a1;
                 pt_requested := value_toString a2; pt_sent := value_toString a3;
                 pt_logIndex := logIndex log |}))
        | _, _, _, _ => Raised
        end
      else if String.eqb name "TokenMinted" then
        match arg args 0, arg args 1 with
        | Some a0, Some a1 =>
            Completed (Some ("MonadDummyContract", ToTransfers
              {| tr_type := "TokenMinted"; tr_from := None; tr_to := a0;
                 tr_value := None; tr_tokenId := Some (value_toString a1);
                 tr_amount := None; tr_logIndex := logIndex log |}))
        | _, _ => Raised
        end
      else if String.eqb name "TokenTransferFailed" then
        match arg args 0, arg args 1, arg args 2, arg args 3 with
        | Some a0, Some a1, Some a2, Some a3 =>
            Completed (Some ("MonadDummyContract", ToFailures
              {| fl_type := "TokenTransferFailed"; fl_from := a0; fl_to := a1;
                 fl_amount := None; fl_tokenId := Some (value_toString a2);
                 fl_reason := a3; fl_logIndex := logIndex log |}))
        | _, _, _, _ => Raised
        end
      else Completed None
  end.

(** The nested [try]/[catch] of the loop body: the ERC-721 attempt is
    the handler of the ERC-20 attempt, the dispute-contract attempt is
    the handler of the ERC-721 attempt, and its own handler is empty.
    The result is the contract type and the event pushed, if any. *)
Definition classify (log : RawLog) : option (string * Classified) :=
  match tryERC20 log with
  | Completed pushed => pushed
  | Raised =>
      match tryERC721 log with
      | Completed pushed => pushed
      | Raised =>
          match tryDummy log with
          | Completed pushed => pushed
          | Raised => None
          end
      end
  end.

(** *** Unknown events *)

(** "Try to decode as address (remove padding)". *)
Definition indexedParam (topic : string) : Param :=
  if (String.length topic =? 66)%nat then
    match getAddress ("0x" ++ JS.slice_from 26 topic)%string with
    | Some address => {| pm_type := "address"; pm_value := address |}
    | None => {| pm_type := "bytes32"; pm_value := topic |}
    end
  else {| pm_type := "bytes32"; pm_value := topic |}.

(** The chunks [dataBytes.slice(i, i + 64)] for [i = 0, 64, ...] below
    the length of [dataBytes]. *)
Fixpoint chunks (fuel : nat) (dataBytes : string) : list string :=
  match fuel, dataBytes with
  | _, EmptyString => []
  | O, _ => []
  | S fuel', _ => JS.prefix_n 64 dataBytes :: chunks fuel' (JS.slice_from 64 dataBytes)
  end.

Definition nonIndexedParam (chunk : string) : list Param :=
  if (String.length chunk =? 64)%nat then
    match BigInt_hex chunk with
    | Some value => [ {| pm_type := "uint256"; pm_value := toString value |} ]
    | None => [ {| pm_type := "bytes"; pm_value := ("0x" ++ chunk)%string |} ]
    end
  else [].

(** "Decode non-indexed parameters (data)".  The handler of the outer
    [try], which would keep the whole payload as one [bytes] field, cannot
    be reached: slicing a string does not raise, and [BigInt] has a [try]
    of its own. *)
Definition decodeData (data : string) : list Param :=
  if negb (String.eqb data "") && negb (String.eqb data "0x") then
    let dataBytes := JS.slice_from 2 data in
    flat_map nonIndexedParam (chunks (String.length dataBytes) dataBytes)
  else [].

Definition is_address (p : option Param) : bool :=
  match p with
  | Some p => String.eqb (pm_type p) "address"
  | None => false
  end.

(** The unknown event built from a log with the selector
    [eventSignature] and the further topics [rest]. *)
Definition unknownEvent (log : RawLog) (eventSignature : string) (rest : list string)
  : UnknownEvent :=
  let indexedParams := map indexedParam rest in
  let nonIndexedParams := decodeData (data log) in
  let p0 := nth_error indexedParams 0 in
  let p1 := nth_error indexedParams 1 in
  let n0 := nth_error nonIndexedParams 0 in
  let '(eventType, from, to, amount) :=
    if is_address p0 && is_address p1 then
      ("Transfer", option_map pm_value p0, option_map pm_value p1,
       match n0 with
       | Some n => if String.eqb (pm_type n) "uint256" then Some (pm_value n) else None
       | None => None
       end)
    else if is_address p0 then
      ("SingleAddress", option_map pm_value p0, None, None)
    else ("Unknown", None, None, None) in
  {| ue_type := eventType;
     ue_eventSignature := eventSignature;
     ue_from := from;
     ue_to := to;
     ue_amount := amount;
     ue_indexedParams := indexedParams;
     ue_nonIndexedParams := nonIndexedParams;
     ue_logIndex := logIndex log;
     ue_rawData := data log |}.

(** *** The loop body and parseLogs *)

Definition push_classified (parsedLogs : ParsedLogs) (contractType' : string)
    (c : Classified) : ParsedLogs :=
  match c with
  | ToTransfers t =>
      {| transfers := transfers parsedLogs ++ [t];
         failures := failures parsedLogs;
         partialTransfers := partialTransfers parsedLogs;
         contractType := Some contractType';
         contractInfo := contractInfo parsedLogs;
         unknownEvents := unknownEvents parsedLogs |}
  | ToFailures f =>
      {| transfers := transfers parsedLogs;
         failures := failures parsedLogs ++ [f];
         partialTransfers := partialTransfers parsedLogs;
         contractType := Some contractType';
         contractInfo := contractInfo parsedLogs;
         unknownEvents := unknownEvents parsedLogs |}
  | ToPartialTransfers p =>
      {| transfers := transfers parsedLogs;
         failures := failures parsedLogs;
         partialTransfers := partialTransfers parsedLogs ++ [p];
         contractType := Some contractType';
         contractInfo := contractInfo parsedLogs;
         unknownEvents := unknownEvents parsedLogs |}
  end.

(** "Set contract type to unknown if we haven't determined it yet". *)
Definition push_unknown (parsedLogs : ParsedLogs) (e : UnknownEvent) : ParsedLogs :=
  {| transfers := transfers parsedLogs;
     failures := failures parsedLogs;
     partialTransfers := partialTransfers parsedLogs;
     contractType :=
       match contractType parsedLogs with
       | Some t => Some t
       | None => Some "Unknown"
       end;
     contractInfo := contractInfo parsedLogs;
     unknownEvents := unknownEvents parsedLogs ++ [e] |}.

(** One iteration of [for (const log of logs)]. *)
Definition parseLog_step (parsedLogs : ParsedLogs) (log : RawLog) : ParsedLogs :=
  match classify log with
  | Some (contractType', c) => push_classified parsedLogs contractType' c
  | None =>
      match topics log with
      | [] => parsedLogs
      | eventSignature :: rest =>
          push_unknown parsedLogs (unknownEvent log eventSignature rest)
      end
  end.

(** [new ethers.Contract(target, abi, runner)] raises when the target
    is not a hex string and the runner cannot resolve names; a provider
    can, the [null] runner cannot. *)
Definition Contract_constructs (hasProvider : bool) (target : string) : bool :=
  Hex.isHexString target || hasProvider.

(** [parseLogs(logs, contractAddress)].  The three contract objects are
    built first, inside the outer [try]: when that raises, the empty
    bundle is returned.  Inside the loop every operation that can raise
    sits in a [try] of its own. *)
Definition parseLogs (hasProvider : bool) (logs : list RawLog) (contractAddress : string)
  : ParsedLogs :=
  if Contract_constructs hasProvider contractAddress
  then fold_left parseLog_step logs emptyParsedLogs
  else emptyParsedLogs.

(** *** The provider and the calls made to it *)

(** A call that reaches the chain connection. *)
Inductive RpcCall :=
| GetBlockNumber
| GetLogs (address : string) (fromBlock toBlock : Z)
| ContractCall (address method : string) (args : list string).

(** The answers of the chain connection; [None] is a rejected call. *)
Record Provider := {
  getBlockNumber : option Z;
  getLogs : string -> Z -> Z -> option (list RawLog);
  call : string -> string -> list string -> option Value
}.

(** The service object: [this.provider] is [null] until a provider has
    been built. *)
Record Service := {
  provider : option Provider
}.

Definition hasProvider (this : Service) : bool :=
  match provider this with Some _ => true | None => false end.

(** An awaited computation: the calls it issued, and its value or the
    exception it ended with. *)
Definition M (A : Type) : Type := list RpcCall * option A.

Definition ret {A} (a : A) : M A := ([], Some a).

Definition bind {A B} (m : M A) (k : A -> M B) : M B :=
  match m with
  | (calls, Some a) => let '(calls', r) := k a in (calls ++ calls', r)
  | (calls, None) => (calls, None)
  end.

Notation "'await' x := m 'in' k" := (bind m (fun x => k))
  (at level 10, x name, m at level 100, k at level 200).

(** [await contract.method(args)]. *)
Definition read (this : Service) (contractAddress method : string) (args : list string)
  : M Value :=
  match provider this with
  | Some p => ([ContractCall contractAddress method args], call p contractAddress method args)
  | None => ([], None)
  end.

(** *** getContractState *)

Record ContractState := {
  balances : gmap string string;
  ownership : gmap string Value;
  cs_contractInfo : gmap string Value
}.

Definition emptyState : ContractState :=
  {| balances := ∅; ownership := ∅; cs_contractInfo := ∅ |}.

Definition set_contractInfo (key : string) (v : Value) (state : ContractState)
  : ContractState :=
  {| balances := balances state;
     ownership := ownership state;
     cs_contractInfo := <[key := v]> (cs_contractInfo state) |}.

Definition set_balance (key value : string) (state : ContractState) : ContractState :=
  {| balances := <[key := value]> (balances state);
     ownership := ownership state;
     cs_contractInfo := cs_contractInfo state |}.

Definition set_ownership (key : string) (v : Value) (state : ContractState)
  : ContractState :=
  {| balances := balances state;
     ownership := <[key := v]> (ownership state);
     cs_contractInfo := cs_contractInfo state |}.

(** One [try] block of consecutive assignments
    [state.contractInfo.key = await contract.method()]: the first read
    that fails leaves the block, and the handler only logs. *)
Fixpoint fetchInfo (this : Service) (contractAddress : string)
    (fields : list (string * string)) (state : ContractState)
  : list RpcCall * ContractState :=
  match fields with
  | [] => ([], state)
  | (key, method) :: fields' =>
      match read this contractAddress method [] with
      | (calls, Some v) =>
          let '(calls', state') :=
            fetchInfo this contractAddress fields' (set_contractInfo key v state) in
          (calls ++ calls', state')
      | (calls, None) => (calls, state)
      end
  end.

(** "Get balance for toAddress (if provided)". *)
Definition fetchBalance (this : Service) (contractAddress : string)
    (toAddress : option string) (state : ContractState)
  : list RpcCall * ContractState :=
  match toAddress with
  | Some to =>
      if String.eqb to "" then ([], state)
      else
        match read this contractAddress "balanceOf" [to] with
        | (calls, Some balance) => (calls, set_balance to (value_toString balance) state)
        | (calls, None) => (calls, state)
        end
  | None => ([], state)
  end.

(** [transfer.to === toAddress]. *)
Definition is_toAddress (v : Value) (toAddress : option string) : bool :=
  match toAddress, v with
  | Some to, VAddress a => String.eqb a to
  | Some to, VString a => String.eqb a to
  | Some to, VIndexed a => String.eqb a to
  | _, _ => false
  end.

(** "Get ownership for each token ID in transfers" of the given type. *)
Fixpoint fetchOwnership (this : Service) (contractAddress type : string)
    (toAddress : option string) (transfers : list Transfer) (state : ContractState)
  : list RpcCall * ContractState :=
  match transfers with
  | [] => ([], state)
  | transfer :: transfers' =>
      let '(calls, state1) :=
        if String.eqb (tr_type transfer) type && is_toAddress (tr_to transfer) toAddress then
          match tr_tokenId transfer with
          | Some tokenId =>
              match read this contractAddress "ownerOf" [tokenId] with
              | (calls, Some owner) => (calls, set_ownership tokenId owner state)
              | (calls, None) => (calls, state)
              end
          | None => ([], state)
          end
        else ([], state) in
      let '(calls', state2) :=
        fetchOwnership this contractAddress type toAddress transfers' state1 in
      (calls ++ calls', state2)
  end.

(** [getContractState(contractAddress, toAddress, parsedLogs)]. *)
Definition getContractState (this : Service) (contractAddress : string)
    (toAddress : option string) (parsedLogs : ParsedLogs)
  : list RpcCall * ContractState :=
  if negb (Contract_constructs (hasProvider this) contractAddress) then ([], emptyState)
  else
    match contractType parsedLogs with
    | None => ([], emptyState)
    | Some contractType =>
        if String.eqb contractType "ERC20" then
          let '(c1, s1) :=
            fetchInfo this contractAddress
              [("symbol", "symbol"); ("name", "name"); ("decimals", "decimals")]
              emptyState in
          let '(c2, s2) := fetchBalance this contractAddress toAddress s1 in
          (c1 ++ c2, s2)
        else if String.eqb contractType "ERC721" then
          let '(c1, s1) :=
            fetchInfo this contractAddress [("symbol", "symbol"); ("name", "name")]
              emptyState in
          let '(c2, s2) :=
            fetchOwnership this contractAddress "ERC721" toAddress
              (transfers parsedLogs) s1 in
          let '(c3, s3) := fetchBalance this contractAddress toAddress s2 in
          (c1 ++ c2 ++ c3, s3)
        else if String.eqb contractType "MonadDummyContract" then
          let '(c1, s1) :=
            fetchInfo this contractAddress
              [("totalSupply", "getTotalSupply"); ("nextTokenId", "getNextTokenId")]
              emptyState in
          let '(c2, s2) := fetchBalance this contractAddress toAddress s1 in
          let '(c3, s3) :=
            fetchOwnership this contractAddress "TokenMinted" toAddress
              (transfers parsedLogs) s2 in
          (c1 ++ c2 ++ c3, s3)
        else ([], emptyState)
    end.

(** *** getHistoricalLogs *)

Definition await_getBlockNumber (this : Service) : M Z :=
  match provider this with
  | Some p => ([GetBlockNumber], getBlockNumber p)
  | None => ([], None)
  end.

Definition await_getLogs (this : Service) (address : string) (fromBlock toBlock : Z)
  : M (list RawLog) :=
  match provider this with
  | Some p => ([GetLogs address fromBlock toBlock], getLogs p address fromBlock toBlock)
  | None => ([], None)
  end.

(** [getHistoricalLogs(contractAddress, fromBlock = null)]: any
    exception is logged and answered with the empty list. *)
Definition getHistoricalLogs (this : Service) (contractAddress : string)
    (fromBlock : option Z) : list RpcCall * list RawLog :=
  let body :=
    await currentBlock := await_getBlockNumber this in
    let toBlock := currentBlock in
    let fromBlockNumber :=
      match fromBlock with
      | Some b => if b =? 0 then Z.max 0 (currentBlock - 1000) else b
      | None => Z.max 0 (currentBlock - 1000)
      end in
    await_getLogs this contractAddress fromBlockNumber toBlock in
  match body with
  | (calls, Some logs) => (calls, logs)
  | (calls, None) => (calls, [])
  end.

(** *** analyzeTransactionPattern *)

Record Transaction := {
  tx_to : option string;
  tx_data : option string;
  tx_value : option Z
}.

Record Receipt := {
  rc_status : option Z;
  rc_gasUsed : option Z;
  rc_logs : list RawLog
}.

Record Analysis := {
  transactionType : string;
  valueTransferred : string;
  eventsEmitted : nat;
  contractInteraction : bool;
  success : bool;
  gasUsed : string;
  patterns : list string
}.

(** Truth value of a string that may be absent. *)
Definition truthy (s : option string) : bool :=
  match s with
  | Some s => negb (String.eqb s "")
  | None => false
  end.

(** "Check if this is a contract interaction". *)
Definition isContractInteraction (transaction : Transaction) : bool :=
  truthy (tx_to transaction) && truthy (tx_data transaction)
  && negb (bool_decide (tx_data transaction = Some "0x")).

(** [transaction.value && transaction.value > 0]. *)
Definition hasValue (transaction : Transaction) : bool :=
  match tx_value transaction with
  | Some v => 0 <? v
  | None => false
  end.

(** One iteration of [for (const event of parsedLogs.unknownEvents)],
    on the pair of [patterns] and [valueTransferred]. *)
Definition analyzeEvent (acc : list string * string) (event : UnknownEvent)
  : list string * string :=
  let '(patterns, valueTransferred) := acc in
  if String.eqb (ue_type event) "Transfer" && truthy (ue_amount event) then
    (patterns ++ ["TOKEN_TRANSFER"], default "" (ue_amount event))
  else if String.eqb (ue_type event) "SingleAddress" then
    (patterns ++ ["SINGLE_ADDRESS_EVENT"], valueTransferred)
  else (patterns, valueTransferred).

Definition includes (patterns : list string) (tag : string) : bool :=
  existsb (String.eqb tag) patterns.

(** [analyzeTransactionPattern(transaction, receipt, parsedLogs)]. *)
Definition analyzeTransactionPattern (transaction : Transaction) (receipt : Receipt)
    (parsedLogs : ParsedLogs) : Analysis :=
  let contractInteraction := isContractInteraction transaction in
  let '(patterns0, value0) :=
    if hasValue transaction
    then (["ETH_TRANSFER"], toString (default 0 (tx_value transaction)))
    else ([], "0") in
  let '(patterns, valueTransferred) :=
    fold_left analyzeEvent (unknownEvents parsedLogs) (patterns0, value0) in
  {| transactionType :=
       if includes patterns "ETH_TRANSFER" && contractInteraction then "contract_eth_transfer"
       else if includes patterns "TOKEN_TRANSFER" then "token_transfer"
       else if contractInteraction then "contract_call"
       else if includes patterns "ETH_TRANSFER" then "eth_transfer"
       else "unknown";
     valueTransferred := valueTransferred;
     eventsEmitted := length (unknownEvents parsedLogs);
     contractInteraction := contractInteraction;
     success := bool_decide (rc_status receipt = Some 1);
     gasUsed :=
       match rc_gasUsed receipt with
       | Some g => toString g
       | None => "0"
       end;
     patterns := patterns |}.

(** *** initProvider *)

Definition maxRetries : nat := 3.

(** What can be observed of [initProvider]: the attempts to build the
    provider and probe the network, and the pauses. *)
Inductive InitEvent :=
| Attempt
| Sleep (ms : Z).

Inductive InitResult :=
| Initialized
| InitError (message : string)
| LoopExit
| OutOfFuel.

(** The [while (retries < maxRetries)] loop.  [connects k] tells whether
    the body of the [try] (building the provider, [getNetwork] and the
    log line) completes when [k] attempts have failed before. *)
Fixpoint initProvider_loop (connects : nat -> bool) (fuel retries : nat)
  : list InitEvent * InitResult :=
  match fuel with
  | O => ([], OutOfFuel)
  | S fuel' =>
      if (retries <? maxRetries)%nat then
        if connects retries then ([Attempt], Initialized)
        else
          let retries := S retries in
          if (maxRetries <=? retries)%nat
          then ([Attempt], InitError "Failed to initialize provider after 3 attempts")
          else
            let '(events, result) := initProvider_loop connects fuel' retries in
            (Attempt :: Sleep (1000 * Z.of_nat retries) :: events, result)
      else ([], LoopExit)
  end.

Definition initProvider (connects : nat -> bool) : list InitEvent * InitResult :=
  initProvider_loop connects (S maxRetries) 0.

(** *** getTransactionReceipt *)

(** How [getTransactionReceipt] ends: with the answer of the provider,
    with the exception of the last attempt, or at the end of its body,
    which gives [undefined]. *)
Inductive Fetched (R E : Type) :=
| Returned (receipt : R)
| Rethrown (error : E)
| ReturnedUndefined
| FetchOutOfFuel.
Arguments Returned {R E} receipt.
Arguments Rethrown {R E} error.
Arguments ReturnedUndefined {R E}.
Arguments FetchOutOfFuel {R E}.

(** The [while (retries < maxRetries)] loop, for a whole number
    [maxRetries].  [answers k] is the outcome of
    [await this.provider.getTransactionReceipt(txHash)] when [k] attempts
    have failed before: the receipt ([null] included, for a transaction
    that is not mined), or the exception. *)
Fixpoint getTransactionReceipt_loop {R E : Type} (answers : nat -> E + R)
    (maxRetries fuel retries : nat) : list InitEvent * Fetched R E :=
  match fuel with
  | O => ([], FetchOutOfFuel)
  | S fuel' =>
      if (retries <? maxRetries)%nat then
        match answers retries with
        | inr receipt => ([Attempt], Returned receipt)
        | inl error =>
            let retries := S retries in
            if (maxRetries <=? retries)%nat
            then ([Attempt], Rethrown error)
            else
              let '(events, result) :=
                getTransactionReceipt_loop answers maxRetries fuel' retries in
              (Attempt :: Sleep 1000 :: events, result)
        end
      else ([], ReturnedUndefined)
  end.

(** [getTransactionReceipt(txHash, maxRetries = 3)]. *)
Definition getTransactionReceipt {R E : Type} (answers : nat -> E + R)
    (maxRetries : nat) : list InitEvent * Fetched R E :=
  getTransactionReceipt_loop answers maxRetries (S maxRetries) 0.

End BlockchainService.

(** ** Validation of the request fields

    The functions of [utils/validation.js].  As in the model of
    [getAddress], an address is a hexadecimal one: the ICAP form is left
    out. *)

Module Validation.

Import Ethers.

(** [/^0x[a-fA-F0-9]{64}$/.test(txHash)]. *)
Definition isValidTransactionHash (txHash : string) : bool :=
  JS.startsWith "0x" txHash
  && (String.length (JS.slice_from 2 txHash) =? 64)%nat
  && JS.all_chars Hex.is_digit (JS.slice_from 2 txHash).

(** [ethers.isAddress(address)] inside the [try]: whether [getAddress]
    accepts the value. *)
Definition isValidAddress (address : string) : bool :=
  match getAddress address with
  | Some _ => true
  | None => false
  end.

(** [normalizeAddress(address)]; [None] is [null]. *)
Definition normalizeAddress (address : string) : option string :=
  if negb (isValidAddress address) then None
  else getAddress address.

(** [text.replace(/[<>]/g, '')]. *)
Definition is_angle (c : ascii) : bool :=
  Ascii.eqb c "<" || Ascii.eqb c ">".

Fixpoint removeAngles (text : string) : string :=
  match text with
  | EmptyString => EmptyString
  | String c rest =>
      if is_angle c then removeAngles rest else String c (removeAngles rest)
  end.

(** A pattern of lower-case letters and signs matches at the start of
    [text], letters in either case (the flag [i]). *)
Definition matches_ci (pattern text : string) : bool :=
  String.eqb (JS.toLowerCase (JS.prefix_n (String.length pattern) text)) pattern.

(** [text.replace(/javascript:/gi, '')]: the matches are found from left
    to right and do not overlap.  [skip] counts the characters of the
    current match that are still to be dropped. *)
Fixpoint removeProtocol (skip : nat) (text : string) : string :=
  match text with
  | EmptyString => EmptyString
  | String c rest =>
      match skip with
      | S skip' => removeProtocol skip' rest
      | O =>
          if matches_ci "javascript:" text then removeProtocol 10 rest
          else String c (removeProtocol 0 rest)
      end
  end.

(** The class [\w]. *)
Definition is_word (c : ascii) : bool :=
  let n := N_of_ascii c in
  ((48 <=? n)%N && (n <=? 57)%N) || JS.is_upper c || JS.is_lower c || (n =? 95)%N.

(** The length of the longest run of word characters at the start. *)
Fixpoint word_run (text : string) : nat :=
  match text with
  | EmptyString => O
  | String c rest => if is_word c then S (word_run rest) else O
  end.

(** The length of the match of [/on\w+=/i] at the start of [text], if
    there is one: [on], the longest run of word characters, which must
    not be empty, and the sign [=] right after it. *)
Definition handler_match (text : string) : option nat :=
  if matches_ci "on" text then
    let rest := JS.slice_from 2 text in
    let run := word_run rest in
    if (0 <? run)%nat && JS.startsWith "=" (JS.slice_from run rest)
    then Some (2 + run + 1)%nat
    else None
  else None.

(** [text.replace(/on\w+=/gi, '')]. *)
Fixpoint removeHandlers (skip : nat) (text : string) : string :=
  match text with
  | EmptyString => EmptyString
  | String c rest =>
      match skip with
      | S skip' => removeHandlers skip' rest
      | O =>
          match handler_match text with
          | Some n => removeHandlers (n - 1) rest
          | None => String c (removeHandlers 0 rest)
          end
      end
  end.

(** [sanitizeText(text)] on a string; the empty string is returned as it
    is. *)
Definition sanitizeText (text : string) : string :=
  JS.prefix_n 1000 (removeHandlers 0 (removeProtocol 0 (removeAngles text))).

End Validation.

(** ** The evidence-assembly steps of resolveDispute *)

Module DisputeController.

Import Ethers BlockchainService.
Local Open Scope list_scope.

Record Evidence := {
  parsedLogs : ParsedLogs;
  contractState : ContractState;
  historicalLogs : list RawLog
}.

(** [parsedLogs.transfers.push(...more)]. *)
Definition push_transfers (parsedLogs : ParsedLogs) (more : list Transfer) : ParsedLogs :=
  {| transfers := transfers parsedLogs ++ more;
     failures := failures parsedLogs;
     partialTransfers := partialTransfers parsedLogs;
     contractType := contractType parsedLogs;
     contractInfo := contractInfo parsedLogs;
     unknownEvents := unknownEvents parsedLogs |}.

(** Steps 2 to 4 of [resolveDispute]: parse the logs of the receipt,
    read the contract state, and "get historical logs if needed". *)
Definition assembleEvidence (this : Service) (receiptLogs : list RawLog)
    (contractAddress : string) (toAddress : option string)
  : list RpcCall * Evidence :=
  let parsedLogs := parseLogs (hasProvider this) receiptLogs contractAddress in
  let '(calls1, contractState) :=
    getContractState this contractAddress
      (if truthy toAddress then toAddress else None) parsedLogs in
  if (length (transfers parsedLogs) =? 0)%nat then
    let '(calls2, historicalLogs) := getHistoricalLogs this contractAddress None in
    let historicalParsedLogs := parseLogs (hasProvider this) historicalLogs contractAddress in
    (calls1 ++ calls2,
     {| parsedLogs := push_transfers parsedLogs (transfers historicalParsedLogs);
        contractState := contractState;
        historicalLogs := historicalLogs |})
  else
    (calls1,
     {| parsedLogs := parsedLogs;
        contractState := contractState;
        historicalLogs := [] |}).

(** *** The replies of the routes *)

Import Validation.

(** [message.includes(fragment)]. *)
Fixpoint message_includes (fragment message : string) : bool :=
  String.prefix fragment message
  || match message with
     | EmptyString => false
     | String _ rest => message_includes fragment rest
     end.

(** The message of the error [aiService.resolveDispute] raises for a
    failure with the given message. *)
Definition aiServiceError (message : string) : string :=
  ("AI service failed: " ++ message)%string.

(** The handler of [resolveDispute]: the status and the error text of the
    reply to an exception with the given message. *)
Definition errorReply (message : string) : Z * string :=
  if message_includes "Transaction not found" message then
    (404, "Transaction not found")
  else if message_includes "AI service failed" message then
    (503, "AI service temporarily unavailable")
  else if message_includes "Provider" message then
    (503, "Blockchain service temporarily unavailable")
  else (500, "Internal server error").

(** What [getTransactionLogs] does besides replying. *)
Inductive Effect :=
| ReceiptAttempt
| Pause (ms : Z)
| TransactionFetch
| Rpc (c : RpcCall).

Definition effect_of (e : InitEvent) : Effect :=
  match e with
  | Attempt => ReceiptAttempt
  | Sleep ms => Pause ms
  end.

(** The fields of the reply of [getTransactionLogs] that come from the
    logs and the contract. *)
Record LogsData := {
  ld_transactionStatus : string;
  ld_contractType : string;
  ld_transfers : list Transfer;
  ld_failures : list Failure;
  ld_partialTransfers : list PartialTransfer;
  ld_unknownEvents : list UnknownEvent;
  ld_totalLogs : nat;
  ld_contractLogs : nat;
  ld_contractState : ContractState
}.

Inductive LogsReply :=
| Status (code : Z) (error : string)
| Json (data : LogsData).

(** [res.json(response)] serialises the reply with [JSON.stringify],
    which raises a [TypeError] on a [BigInt]; addresses, strings and
    hashed values serialise. *)
Definition serializable (v : Value) : bool :=
  match v with
  | VUint _ => false
  | VAddress _ | VString _ | VIndexed _ => true
  end.

Definition transfer_serializable (t : Transfer) : bool :=
  match tr_from t with
  | Some from => serializable from
  | None => true
  end && serializable (tr_to t).

Definition failure_serializable (f : Failure) : bool :=
  serializable (fl_from f) && serializable (fl_to f) && serializable (fl_reason f).

Definition partialTransfer_serializable (p : PartialTransfer) : bool :=
  serializable (pt_from p) && serializable (pt_to p).

Definition state_serializable (state : ContractState) : bool :=
  forallb (fun kv => serializable (snd kv)) (map_to_list (ownership state))
  && forallb (fun kv => serializable (snd kv)) (map_to_list (cs_contractInfo state)).

Definition data_serializable (data : LogsData) : bool :=
  forallb transfer_serializable (ld_transfers data)
  && forallb failure_serializable (ld_failures data)
  && forallb partialTransfer_serializable (ld_partialTransfers data)
  && state_serializable (ld_contractState data).

(** [value || 'unknown'] on a string that may be absent. *)
Definition or_unknown (value : option string) : string :=
  if truthy value then default "" value else "unknown".

(** [getTransactionLogs(req, res)] for a request body with the given
    [txHash] and [contractAddress] ([None] when the field is missing).
    [receiptAnswers] and [transactionAnswer] are the outcomes of the two
    fetches of the provider, an exception being given by its message;
    without a provider either fetch raises a [TypeError].  Every
    exception is answered by the handler of the route; the cache has a
    handler of its own. *)
Definition getTransactionLogs (this : Service) (txHash contractAddress : option string)
    (receiptAnswers : nat -> string + option Receipt)
    (transactionAnswer : string + option Transaction)
  : list Effect * LogsReply :=
  if negb (truthy txHash) || negb (truthy contractAddress) then
    ([], Status 400 "Both txHash and contractAddress are required")
  else if negb (isValidTransactionHash (default "" txHash)) then
    ([], Status 400 "Invalid transaction hash format")
  else if negb (isValidAddress (default "" contractAddress)) then
    ([], Status 400 "Invalid contract address format")
  else
    let contractAddress := default "" contractAddress in
    let provided {A} (answer : string + A) : string + A :=
      if hasProvider this then answer
      else inl "Cannot read properties of null" in
    let '(events, fetched) :=
      getTransactionReceipt (fun k => provided (receiptAnswers k)) 3 in
    let effects := map effect_of events in
    match fetched with
    | Rethrown _ | FetchOutOfFuel => (effects, Status 500 "Failed to fetch transaction logs")
    | ReturnedUndefined | Returned None => (effects, Status 404 "Transaction not found")
    | Returned (Some receipt) =>
        match provided transactionAnswer with
        | inl _ =>
            (effects ++ [TransactionFetch], Status 500 "Failed to fetch transaction logs")
        | inr _ =>
            let parsedLogs := parseLogs (hasProvider this) (rc_logs receipt) contractAddress in
            let '(calls, contractState) :=
              getContractState this contractAddress None parsedLogs in
            let data :=
               {| ld_transactionStatus :=
                    if bool_decide (rc_status receipt = Some 1) then "success" else "failed";
                  ld_contractType := or_unknown (contractType parsedLogs);
                  ld_transfers := transfers parsedLogs;
                  ld_failures := failures parsedLogs;
                  ld_partialTransfers := partialTransfers parsedLogs;
                  ld_unknownEvents := unknownEvents parsedLogs;
                  ld_totalLogs := length (rc_logs receipt);
                  ld_contractLogs :=
                    (length (transfers parsedLogs) + length (failures parsedLogs)
                     + length (partialTransfers parsedLogs)
                     + length (unknownEvents parsedLogs))%nat;
                  ld_contractState := contractState |} in
            (effects ++ [TransactionFetch] ++ map Rpc calls,
             if data_serializable data then Json data
             else Status 500 "Failed to fetch transaction logs")
        end
    end.

End DisputeController.


(** ** The dispute contract

    [DummyDisputeContract] of the Solidity source, compiled with checked
    arithmetic (0.8): an addition or subtraction out of range reverts.
    Addresses and [uint256] values are integers; a mapping is a finite
    map read with the default zero. *)

Module DummyDisputeContract.

Definition MAX_UINT256 : Z := 2 ^ 256 - 1.

Inductive Error :=
| InsufficientBalance
| InvalidRecipient
| AmountTooHigh
| ZeroAmount
| TokenNotOwned
| Panic.

Inductive Event :=
| Transfer (from to amount : Z)
| TransferFailed (from to amount : Z) (reason : string)
| PartialTransfer (from to requested sent : Z)
| TokenMinted (to tokenId : Z)
| TokenTransferFailed (from to tokenId : Z) (reason : string).

Record Storage := {
  balances : gmap Z Z;
  tokenIds : gmap Z Z;
  totalSupply : Z;
  nextTokenId : Z
}.

(** The storage the constructor leaves. *)
Definition constructor : Storage :=
  {| balances := ∅; tokenIds := ∅; totalSupply := 10000; nextTokenId := 1 |}.

(** How an external call ends.  A revert undoes the call: the events
    emitted before it are discarded with the changes of the storage. *)
Inductive Outcome (A : Type) :=
| Revert (error : Error) (discarded : list Event)
| Success (value : A) (storage : Storage) (logs : list Event).
Arguments Revert {A} error discarded.
Arguments Success {A} value storage logs.

(** The storage after the call. *)
Definition storage_after {A} (s : Storage) (o : Outcome A) : Storage :=
  match o with
  | Revert _ _ => s
  | Success _ s' _ => s'
  end.

(** The logs of the receipt of the call. *)
Definition receipt_logs {A} (o : Outcome A) : list Event :=
  match o with
  | Revert _ _ => []
  | Success _ _ logs => logs
  end.

Definition balance (s : Storage) (account : Z) : Z := default 0 (balances s !! account).

Definition tokenOf (s : Storage) (account : Z) : Z := default 0 (tokenIds s !! account).

Definition set_balance (s : Storage) (account value : Z) : Storage :=
  {| balances := <[account := value]> (balances s);
     tokenIds := tokenIds s;
     totalSupply := totalSupply s;
     nextTokenId := nextTokenId s |}.

Definition set_tokenId (s : Storage) (account value : Z) : Storage :=
  {| balances := balances s;
     tokenIds := <[account := value]> (tokenIds s);
     totalSupply := totalSupply s;
     nextTokenId := nextTokenId s |}.

Definition set_totalSupply (s : Storage) (value : Z) : Storage :=
  {| balances := balances s;
     tokenIds := tokenIds s;
     totalSupply := value;
     nextTokenId := nextTokenId s |}.

Definition set_nextTokenId (s : Storage) (value : Z) : Storage :=
  {| balances := balances s;
     tokenIds := tokenIds s;
     totalSupply := totalSupply s;
     nextTokenId := value |}.

(** [a + b] and [a - b] on [uint256]; [None] is the panic. *)
Definition checked_add (a b : Z) : option Z :=
  if a + b <=? MAX_UINT256 then Some (a + b) else None.

Definition checked_sub (a b : Z) : option Z :=
  if b <=? a then Some (a - b) else None.

(** [balances[from] -= amount; balances[to] += amount;], the second
    statement on the storage the first one leaves. *)
Definition move (s : Storage) (from to amount : Z) : option Storage :=
  match checked_sub (balance s from) amount with
  | None => None
  | Some b1 =>
      let s1 := set_balance s from b1 in
      match checked_add (balance s1 to) amount with
      | None => None
      | Some b2 => Some (set_balance s1 to b2)
      end
  end.

(** [sendTokens(to, amount)] called by [sender]. *)
Definition sendTokens (sender to amount : Z) (s : Storage) : Outcome bool :=
  if to =? 0 then
    Revert InvalidRecipient
      [TransferFailed sender to amount "Invalid recipient: zero address"]
  else if amount =? 0 then
    Revert ZeroAmount [TransferFailed sender to amount "Invalid amount: zero"]
  else if 1000 <? amount then
    Revert AmountTooHigh
      [TransferFailed sender to amount "Amount too high: exceeds 1000"]
  else if balance s sender <? amount then
    Revert InsufficientBalance
      [TransferFailed sender to amount "Insufficient balance"]
  else
    match move s sender to amount with
    | None => Revert Panic []
    | Some s' => Success true s' [Transfer sender to amount]
    end.

(** [partialTransfer(to, amount)] called by [sender]. *)
Definition partialTransfer (sender to amount : Z) (s : Storage) : Outcome bool :=
  if to =? 0 then
    Revert InvalidRecipient
      [TransferFailed sender to amount "Invalid recipient: zero address"]
  else if amount =? 0 then
    Revert ZeroAmount [TransferFailed sender to amount "Invalid amount: zero"]
  else if balance s sender <? amount then
    Revert InsufficientBalance
      [TransferFailed sender to amount "Insufficient balance"]
  else
    let partialAmount := amount / 2 in
    match move s sender to partialAmount with
    | None => Revert Panic []
    | Some s' => Success true s' [PartialTransfer sender to amount partialAmount]
    end.

(** [mintTokens(to, amount)]. *)
Definition mintTokens (to amount : Z) (s : Storage) : Outcome unit :=
  if to =? 0 then Revert InvalidRecipient []
  else
    match checked_add (balance s to) amount with
    | None => Revert Panic []
    | Some b =>
        let s1 := set_balance s to b in
        match checked_add (totalSupply s1) amount with
        | None => Revert Panic []
        | Some t => Success tt (set_totalSupply s1 t) [Transfer 0 to amount]
        end
    end.

(** [mintNFT(to)]. *)
Definition mintNFT (to : Z) (s : Storage) : Outcome Z :=
  if to =? 0 then Revert InvalidRecipient []
  else
    let tokenId := nextTokenId s in
    match checked_add (nextTokenId s) 1 with
    | None => Revert Panic []
    | Some n =>
        let s1 := set_nextTokenId s n in
        Success tokenId (set_tokenId s1 to tokenId) [TokenMinted to tokenId]
    end.

(** [transferNFT(to, tokenId)] called by [sender]. *)
Definition transferNFT (sender to tokenId : Z) (s : Storage) : Outcome bool :=
  if to =? 0 then
    Revert InvalidRecipient
      [TokenTransferFailed sender to tokenId "Invalid recipient: zero address"]
  else if negb (tokenOf s sender =? tokenId) then
    Revert TokenNotOwned
      [TokenTransferFailed sender to tokenId "Token not owned by sender"]
  else if tokenId =? 999 then
    Success false s
      [TokenTransferFailed sender to tokenId "Token transfer blocked: special token"]
  else
    let s1 := set_tokenId s sender 0 in
    Success true (set_tokenId s1 to tokenId) [Transfer sender to tokenId].

(** The views. *)
Definition balanceOf (account : Z) (s : Storage) : Z := balance s account.

(** The loop of [ownerOf], from [i] on; [None] when the gas runs out. *)
Fixpoint ownerOf_loop (gas : nat) (i tokenId : Z) (s : Storage) : option Z :=
  match gas with
  | O => None
  | S gas' =>
      if i <? nextTokenId s then
        if i =? tokenId then Some 0
        else ownerOf_loop gas' (i + 1) tokenId s
      else Some 0
  end.

Definition ownerOf (gas : nat) (tokenId : Z) (s : Storage) : option Z :=
  ownerOf_loop gas 1 tokenId s.

Definition getTotalSupply (s : Storage) : Z := totalSupply s.

Definition getNextTokenId (s : Storage) : Z := nextTokenId s.

(** An external call that changes the storage, with its sender. *)
Inductive Call :=
| CallSendTokens (sender to amount : Z)
| CallPartialTransfer (sender to amount : Z)
| CallMintTokens (sender to amount : Z)
| CallMintNFT (sender to : Z)
| CallTransferNFT (sender to tokenId : Z).

(** The storage and the logs a transaction with that call leaves. *)
Definition transact (s : Storage) (c : Call) : Storage * list Event :=
  match c with
  | CallSendTokens sender to amount =>
      let o := sendTokens sender to amount s in (storage_after s o, receipt_logs o)
  | CallPartialTransfer sender to amount =>
      let o := partialTransfer sender to amount s in (storage_after s o, receipt_logs o)
  | CallMintTokens _ to amount =>
      let o := mintTokens to amount s in (storage_after s o, receipt_logs o)
  | CallMintNFT _ to =>
      let o := mintNFT to s in (storage_after s o, receipt_logs o)
  | CallTransferNFT sender to tokenId =>
      let o := transferNFT sender to tokenId s in (storage_after s o, receipt_logs o)
  end.

(** The arguments of a call are addresses and [uint256] values. *)
Definition well_formed (c : Call) : Prop :=
  match c with
  | CallSendTokens _ _ amount
  | CallPartialTransfer _ _ amount
  | CallMintTokens _ _ amount => 0 <= amount <= MAX_UINT256
  | CallMintNFT _ _ => True
  | CallTransferNFT _ _ tokenId => 0 <= tokenId <= MAX_UINT256
  end.

End DummyDisputeContract.
(** ** Notions used to state the properties *)

Import Ethers BlockchainService DisputeController.
Local Open Scope list_scope.

(** A digit or a letter from [a] to [f]. *)
Definition lower_hex_digit (c : ascii) : bool :=
  Hex.is_digit c && negb (is_upper_hex c).

(** The high-order twelve bytes of a 32-byte hex word are zero. *)
Definition high_bytes_zero (topic : string) : bool :=
  String.eqb (JS.slice 2 26 topic) "000000000000000000000000".

(** A 32-byte topic word in lower case: [0x] and sixty-four digits. *)
Definition lower_word (topic : string) : bool :=
  (String.length topic =? 66)%nat && JS.startsWith "0x" topic
  && JS.all_chars lower_hex_digit (JS.slice_from 2 topic).

Definition count_attempts (events : list InitEvent) : nat :=
  length (List.filter (fun e => match e with Attempt => true | Sleep _ => false end) events).

(** *** Sample inputs *)

Module Sample.

Definition selector_Transfer : string :=
  "0xddf252ad1be2c89b69c2b068fc378daa952ba7f163c4a11628f55a4df523b3ef".

Definition selector_TransferFailed : string :=
  "0x84591632da3297cac8d3bfdd6ff974faf08443fe6e72f89ed83076fe8aaa2592".

(** An event selector no ABI of the service knows:
    [Approval(address,address,uint256)]. *)
Definition selector_Approval : string :=
  "0x8c5be1e5ebec7d5bd14f71427d1e84f3dd0314c0f7b2291e5b200ac8c7c3b925".

Definition alice_word : string :=
  "0x0000000000000000000000001111111111111111111111111111111111111111".

Definition bob_word : string :=
  "0x0000000000000000000000002222222222222222222222222222222222222222".

Definition alice : string := "0x1111111111111111111111111111111111111111".
Definition bob : string := "0x2222222222222222222222222222222222222222".

Definition five_word : string :=
  "0x0000000000000000000000000000000000000000000000000000000000000005".

Definition ones_word : string :=
  "0xffffffffffffffffffffffffffffffffffffffffffffffffffffffffffffffff".

Definition contract : string := "0x760afe86e5de5fa0ee542fc7b7b713e1c5425701".

(** [abi.encode(1500, "Amount too high: exceeds 1000")]. *)
Definition data_amount_reason : string :=
  "0x00000000000000000000000000000000000000000000000000000000000005dc0000000000000000000000000000000000000000000000000000000000000040000000000000000000000000000000000000000000000000000000000000001d416d6f756e7420746f6f20686967683a20657863656564732031303030000000".

(** Scenario A: a [TransferFailed] log of the dispute contract. *)
Definition log_TransferFailed : RawLog :=
  {| address := contract;
     topics := [selector_TransferFailed; alice_word; bob_word];
     data := data_amount_reason;
     logIndex := 0 |}.

(** An ERC-20 transfer of 5 units from alice to bob. *)
Definition log_erc20 : RawLog :=
  {| address := contract;
     topics := [selector_Transfer; alice_word; bob_word];
     data := five_word;
     logIndex := 1 |}.

(** An ERC-721 transfer of token 5 from alice to bob. *)
Definition log_erc721 : RawLog :=
  {| address := contract;
     topics := [selector_Transfer; alice_word; bob_word; five_word];
     data := "0x";
     logIndex := 2 |}.

(** A log without any topic. *)
Definition log_no_topics : RawLog :=
  {| address := contract; topics := []; data := five_word; logIndex := 3 |}.

(** An unknown event with one address-like topic. *)
Definition log_one_address : RawLog :=
  {| address := contract;
     topics := [selector_Approval; alice_word];
     data := five_word;
     logIndex := 4 |}.

(** An unknown event with an address-like topic, a topic that is not a
    32-byte word, and a payload of three chunks: a number, sixty-four
    characters that are no number, and a trailing chunk of four digits. *)
Definition log_mixed_payload : RawLog :=
  {| address := contract;
     topics := [selector_Approval; alice_word; "0x1234"];
     data := "0x00000000000000000000000000000000000000000000000000000000000005dczz00000000000000000000000000000000000000000000000000000000000000abcd";
     logIndex := 5 |}.

End Sample.

(** The contract types of the logs a schema classifies, in batch order. *)
Definition schema_types (logs : list RawLog) : list string :=
  flat_map (fun log => match classify log with
                       | Some (t, _) => [t]
                       | None => []
                       end) logs.

(** The log is handed to the heuristic decoder. *)
Definition heuristic (log : RawLog) : bool :=
  match classify log, topics log with
  | None, _ :: _ => true
  | _, _ => false
  end.

(** The selector is the topic hash of an event of the interface. *)
Definition known_selector (iface : Interface) (selector : string) : bool :=
  existsb (fun f => String.eqb (JS.toLowerCase selector) (topicHash f)) iface.

(** The heuristic decoder reads the topic as an address. *)
Definition decodes_as_address (topic : string) : bool :=
  String.eqb (pm_type (indexedParam topic)) "address".

(** The first topic after the selector is read as an address. *)
Definition first_is_address (rest : list string) : bool :=
  match rest with
  | t1 :: _ => decodes_as_address t1
  | [] => false
  end.

(** The first two topics after the selector are read as addresses. *)
Definition first_two_are_addresses (rest : list string) : bool :=
  match rest with
  | t1 :: t2 :: _ => decodes_as_address t1 && decodes_as_address t2
  | _ => false
  end.

(** The field of a topic after the selector: the address its last forty
    digits decode to when the topic has the length of a 32-byte word, the
    topic itself as an opaque [bytes32] value otherwise. *)
Definition topic_field (topic : string) : Param :=
  match getAddress ("0x" ++ JS.slice_from 26 topic)%string with
  | Some a =>
      if (String.length topic =? 66)%nat
      then {| pm_type := "address"; pm_value := a |}
      else {| pm_type := "bytes32"; pm_value := topic |}
  | None => {| pm_type := "bytes32"; pm_value := topic |}
  end.

(** The full 32-byte chunks of a payload (its sixty-four character
    pieces, in order); a shorter piece at the end is not among them. *)
Definition full_chunks (dataBytes : string) : list string :=
  map (fun j => JS.slice (64 * j) (64 * j + 64) dataBytes)
      (seq 0 (String.length dataBytes / 64)).

(** The field of a full chunk: the number it denotes, in decimal, when
    [BigInt] accepts it, the chunk itself as an opaque [bytes] value
    otherwise. *)
Definition chunk_field (chunk : string) : Param :=
  match BigInt_hex chunk with
  | Some value => {| pm_type := "uint256"; pm_value := toString value |}
  | None => {| pm_type := "bytes"; pm_value := ("0x" ++ chunk)%string |}
  end.

(** The amount of a transfer-shaped unknown event: the first data field
    when it is a number. *)
Definition first_amount (fields : list Param) : option string :=
  match fields with
  | n :: _ => if String.eqb (pm_type n) "uint256" then Some (pm_value n) else None
  | [] => None
  end.

(** The events of the three ABIs, in the order the classifier tries them. *)
Definition registry : Interface :=
  ERC20_ABI ++ ERC721_ABI ++ DUMMY_DISPUTE_CONTRACT_ABI.

(** The calls that query the block height or a range of logs. *)
Definition is_log_query (c : RpcCall) : bool :=
  match c with
  | GetBlockNumber | GetLogs _ _ _ => true
  | ContractCall _ _ _ => false
  end.

Definition log_queries (calls : list RpcCall) : list RpcCall :=
  List.filter is_log_query calls.

(** What the backfill asks a provider: the block height, then the logs of
    the contract over the last thousand blocks. *)
Definition backfill_queries (this : Service) (contractAddress : string) : list RpcCall :=
  match provider this with
  | None => []
  | Some p =>
      GetBlockNumber ::
      match getBlockNumber p with
      | Some currentBlock =>
          [GetLogs contractAddress (Z.max 0 (currentBlock - 1000)) currentBlock]
      | None => []
      end
  end.

(** The logs the backfill obtains; none when a query fails. *)
Definition backfill_logs (this : Service) (contractAddress : string) : list RawLog :=
  match provider this with
  | None => []
  | Some p =>
      match getBlockNumber p with
      | Some currentBlock =>
          default [] (getLogs p contractAddress (Z.max 0 (currentBlock - 1000)) currentBlock)
      | None => []
      end
  end.

(** *** The pattern analyzer as the specification words it *)

(** "Contract interaction observed (call data present and non-empty)". *)
Definition spec_contractInteraction (transaction : Transaction) : bool :=
  truthy (tx_data transaction) && negb (bool_decide (tx_data transaction = Some "0x")).

(** The quantity a schema transfer moves: [amount], or [value] for an
    ERC-20 transfer. *)
Definition transfer_amount (t : Transfer) : option string :=
  match tr_amount t with
  | Some a => Some a
  | None => tr_value t
  end.

(** A heuristic event of the shape of a transfer with an amount. *)
Definition heuristic_transfer (e : UnknownEvent) : bool :=
  String.eqb (ue_type e) "Transfer" && truthy (ue_amount e).

(** "Token-transfer pattern observed (any heuristic or schema transfer
    with a non-null amount)". *)
Definition spec_tokenTransfer (parsedLogs : ParsedLogs) : bool :=
  existsb heuristic_transfer (unknownEvents parsedLogs)
  || existsb (fun t => bool_decide (is_Some (transfer_amount t))) (transfers parsedLogs).

(** The fixed priority of the labels. *)
Definition decision_table (value interaction token : bool) : string :=
  if value && interaction then "contract_eth_transfer"
  else if token then "token_transfer"
  else if interaction then "contract_call"
  else if value then "eth_transfer"
  else "unknown".

Definition spec_transactionType (transaction : Transaction) (parsedLogs : ParsedLogs)
  : string :=
  decision_table (hasValue transaction) (spec_contractInteraction transaction)
    (spec_tokenTransfer parsedLogs).

(** The token-transfer signal the code computes: unknown events only. *)
Definition code_tokenTransfer (parsedLogs : ParsedLogs) : bool :=
  existsb heuristic_transfer (unknownEvents parsedLogs).

Module SampleTx.

Definition receipt_ok : Receipt :=
  {| rc_status := Some 1; rc_gasUsed := Some 21000; rc_logs := [] |}.

(** A contract deployment that carries value: no destination address. *)
Definition deployment : Transaction :=
  {| tx_to := None; tx_data := Some "0x6080604052"; tx_value := Some 5 |}.

(** A call of a token contract that carries no value. *)
Definition token_call : Transaction :=
  {| tx_to := Some Sample.contract;
     tx_data := Some "0xa9059cbb";
     tx_value := Some 0 |}.

(** A plain transaction: no value, no call data. *)
Definition idle : Transaction :=
  {| tx_to := Some Sample.bob; tx_data := Some "0x"; tx_value := Some 0 |}.

(** A provider at block 500 whose [symbol] read fails and whose other
    reads answer. *)
Definition provider_no_symbol : Provider :=
  {| getBlockNumber := Some 500;
     getLogs := fun _ _ _ => Some [Sample.log_erc721];
     call := fun _ method _ =>
               if String.eqb method "symbol" then None
               else if String.eqb method "balanceOf" then Some (VUint 7)
               else Some (VString "Token") |}.

Definition service : Service := {| provider := Some provider_no_symbol |}.

End SampleTx.

(** The transfer asks for the owner of [tokenId]: it has the given type,
    goes to the target address and carries that token id. *)
Definition wanted (type : string) (toAddress : option string) (tokenId : string)
    (t : Transfer) : bool :=
  String.eqb (tr_type t) type && is_toAddress (tr_to t) toAddress
  && bool_decide (tr_tokenId t = Some tokenId).

(** The number of events of a bundle, all sequences together. *)
Definition event_count (parsedLogs : ParsedLogs) : nat :=
  (length (transfers parsedLogs) + length (failures parsedLogs)
   + length (partialTransfers parsedLogs) + length (unknownEvents parsedLogs))%nat.


Import Validation.

(** *** Notions for the properties of whole batches *)

(** The log has a selector. *)
Definition has_topic (log : RawLog) : bool :=
  match topics log with
  | [] => false
  | _ :: _ => true
  end.

(** Two logs that differ at most in the address of their emitter. *)
Definition same_event (log1 log2 : RawLog) : Prop :=
  topics log1 = topics log2 /\ data log1 = data log2 /\ logIndex log1 = logIndex log2.

(** The contract types a bundle of [parseLogs] can have. *)
Definition parsed_types : list (option string) :=
  [None; Some "ERC20"; Some "ERC721"; Some "Unknown"].

(** The method a call reads; the queries of blocks and logs have none. *)
Definition method_of (c : RpcCall) : option string :=
  match c with
  | ContractCall _ method _ => Some method
  | GetBlockNumber | GetLogs _ _ _ => None
  end.

(** The reads of the token standards. *)
Definition token_methods : list string :=
  ["symbol"; "name"; "decimals"; "balanceOf"; "ownerOf"].

(** What every bundle built by the loop satisfies: nothing but transfers
    of the two token standards and unknown events. *)
Definition schema_free (parsedLogs : ParsedLogs) : Prop :=
  failures parsedLogs = []
  /\ partialTransfers parsedLogs = []
  /\ contractInfo parsedLogs = ∅
  /\ Forall (fun t => tr_type t = "ERC20" \/ tr_type t = "ERC721") (transfers parsedLogs)
  /\ In (contractType parsedLogs) parsed_types.

(** The transfer a log gives, if a schema classifies it. *)
Definition transfers_of (log : RawLog) : list Transfer :=
  match classify log with
  | Some (_, ToTransfers t) => [t]
  | _ => []
  end.

(** The unknown event a log gives, if no schema classifies it. *)
Definition unknownEvents_of (log : RawLog) : list UnknownEvent :=
  match classify log, topics log with
  | None, eventSignature :: rest => [unknownEvent log eventSignature rest]
  | _, _ => []
  end.

(** Two logs of different emitters that carry the same event. *)
Definition log_erc20_elsewhere : RawLog :=
  {| address := Sample.alice;
     topics := topics Sample.log_erc20;
     data := data Sample.log_erc20;
     logIndex := logIndex Sample.log_erc20 |}.

(** *** Notions for the retry loop of the receipt *)

(** The trace of [d] failed attempts, each followed by its pause. *)
Fixpoint failed_rounds (d : nat) : list InitEvent :=
  match d with
  | O => []
  | S d' => Attempt :: Sleep 1000 :: failed_rounds d'
  end.

(** The attempts from [first] up to [first + d], the last excluded, all
    fail. *)
Definition all_fail {R E : Type} (answers : nat -> E + R) (first d : nat) : Prop :=
  forall j, (first <= j < first + d)%nat -> exists error, answers j = inl error.

Definition is_attempt (e : InitEvent) : bool :=
  match e with
  | Attempt => true
  | Sleep _ => false
  end.

(** *** Notions for the pattern analyzer *)

(** The amounts of the unknown events of the shape of a transfer, in
    order. *)
Definition transfer_amounts (events : list UnknownEvent) : list string :=
  flat_map (fun e => if heuristic_transfer e then [default "" (ue_amount e)] else [])
           events.

(** The tag an unknown event adds to the patterns, if any. *)
Definition event_tags (e : UnknownEvent) : list string :=
  if heuristic_transfer e then ["TOKEN_TRANSFER"]
  else if String.eqb (ue_type e) "SingleAddress" then ["SINGLE_ADDRESS_EVENT"]
  else [].

(** The value a transaction carries, as the analyzer prints it. *)
Definition carried_value (transaction : Transaction) : string :=
  if hasValue transaction then toString (default 0 (tx_value transaction)) else "0".

(** A transaction of 7 units of the native currency to a contract, whose
    receipt holds an unknown event of the shape of a transfer of 1500. *)
Definition paid_call : Transaction :=
  {| tx_to := Some Sample.contract; tx_data := Some "0xa9059cbb"; tx_value := Some 7 |}.

(** Every call reads one of the given methods. *)
Definition reads_only (methods : list string) (calls : list RpcCall) : Prop :=
  Forall (fun c => match method_of c with
                   | Some method => existsb (String.eqb method) methods = true
                   | None => False
                   end) calls.

(** *** Notions for the validation of addresses *)

(** The address with its [0x], added when it is missing. *)
Definition with_prefix (address : string) : string :=
  if JS.startsWith "0x" address then address else ("0x" ++ address)%string.

(** *** Notions for the dispute contract *)

Section ContractNotions.

Import DummyDisputeContract.

(** The tokens held by all accounts together. *)
Definition sum_balances (s : Storage) : Z :=
  map_fold (fun _ v acc => v + acc) 0 (balances s).

(** The storage after a sequence of transactions. *)
Definition run (calls : list Call) (s : Storage) : Storage :=
  fold_left (fun s c => fst (transact s c)) calls s.

(** An event that reports a failure. *)
Definition is_failure_event (e : Event) : bool :=
  match e with
  | TransferFailed _ _ _ _ | TokenTransferFailed _ _ _ _ => true
  | Transfer _ _ _ | PartialTransfer _ _ _ _ | TokenMinted _ _ => false
  end.

(** What holds of the storage after any sequence of transactions. *)
Definition supply_accounted (s : Storage) : Prop :=
  totalSupply s = 10000 + sum_balances s
  /\ map_Forall (fun _ v => 0 <= v) (balances s)
  /\ totalSupply s <= MAX_UINT256.

(** The call ends in an arithmetic panic. *)
Definition panics {A} (o : Outcome A) : bool :=
  match o with
  | Revert Panic _ => true
  | _ => false
  end.

(** [sendTokens] passes its four checks. *)
Definition sendTokens_allowed (s : Storage) (sender to amount : Z) : bool :=
  negb (to =? 0) && negb (amount =? 0) && (amount <=? 1000)
  && (amount <=? balance s sender).

(** [partialTransfer] passes its three checks. *)
Definition partialTransfer_allowed (s : Storage) (sender to amount : Z) : bool :=
  negb (to =? 0) && negb (amount =? 0) && (amount <=? balance s sender).

(** The storage [s'] is [s] with [amount] moved from one account to the
    other, and nothing else changed. *)
Definition moved (s s' : Storage) (from to amount : Z) : Prop :=
  (forall account,
      balance s' account
      = balance s account - (if decide (account = from) then amount else 0)
        + (if decide (account = to) then amount else 0))
  /\ tokenIds s' = tokenIds s
  /\ totalSupply s' = totalSupply s
  /\ nextTokenId s' = nextTokenId s.

(** The call reverts with one of the errors of the contract, and the
    only event it had emitted is a [TransferFailed] of the call. *)
Definition refused (o : Outcome bool) (sender to amount : Z) : Prop :=
  exists error reason,
    o = Revert error [TransferFailed sender to amount reason] /\ error <> Panic.

(** Token ids are below the next id, and a token other than zero has at
    most one holder. *)
Definition tokens_distinct (s : Storage) : Prop :=
  1 <= nextTokenId s
  /\ (forall account, 0 <= tokenOf s account < nextTokenId s)
  /\ (forall a b, tokenOf s a = tokenOf s b -> tokenOf s a <> 0 -> a = b).

(** The mints of the tokens 1 to 999, all to account 7, which is left
    with the last of them. *)
Definition mints_up_to_999 : list Call := repeat (CallMintNFT 1 7) 999.

(** Three transactions: a mint of 500 to account 7, a transfer of 200
    from 7 to 8, and a transfer of 2000, which is refused. *)
Definition sample_calls : list Call :=
  [CallMintTokens 1 7 500; CallSendTokens 7 8 200; CallSendTokens 7 8 2000].

End ContractNotions.

(** *** Notions for the log route *)


(** A provider whose reads of an ERC-20 token all answer. *)
Definition provider_erc20 : Provider :=
  {| getBlockNumber := Some 500;
     getLogs := fun _ _ _ => Some [];
     call := fun _ method _ =>
               if String.eqb method "decimals" then Some (VUint 18)
               else Some (VString "Token") |}.

Definition sample_hash : string :=
  "0x84591632da3297cac8d3bfdd6ff974faf08443fe6e72f89ed83076fe8aaa2592".

(** A receipt with the ERC-721 transfer of the samples and a log without
    topics. *)
Definition receipt_erc721 : Receipt :=
  {| rc_status := Some 1; rc_gasUsed := Some 21000;
     rc_logs := [Sample.log_erc721; Sample.log_no_topics] |}.
(** * Properties *)

(** ** Test vectors of the library model *)

Example keccak_empty :
  Keccak.id "" = "0xc5d2460186f7233c927e7db2dcc703c0e500b653ca82273b7bfad8045d85a470".
Proof. vm_compute. reflexivity. Qed.

Example keccak_transfer :
  Keccak.id "Transfer(address,address,uint256)"
  = "0xddf252ad1be2c89b69c2b068fc378daa952ba7f163c4a11628f55a4df523b3ef".
Proof. vm_compute. reflexivity. Qed.

Example checksum_eip55 :
  Ethers.getAddress "0x5aaeb6053f3e94c9b9a09f33669435e7ef1beaed"
  = Some "0x5aAeb6053F3E94C9b9A09f33669435E7Ef1BeAed".
Proof. vm_compute. reflexivity. Qed.

Example checksum_bad :
  Ethers.getAddress "0x5aaeb6053f3e94c9b9a09f33669435e7ef1beaeD" = None.
Proof. vm_compute. reflexivity. Qed.

Example bigint_1500 :
  option_map Ethers.toString (Ethers.BigInt_hex "00000000000000000000000000000000000000000000000000000000000005dc")
  = Some "1500".
Proof. vm_compute. reflexivity. Qed.


(** ** Strings *)

Lemma length_slice_from (n : nat) (s : string) :
  String.length (JS.slice_from n s) = (String.length s - n)%nat.
Proof.
  revert s. induction n as [|n IH]; intros s.
  - simpl. lia.
  - destruct s as [|c s]; simpl; [reflexivity | apply IH].
Qed.

Lemma no_upper_hex (s : string) :
  JS.all_chars lower_hex_digit s = true -> JS.any_char is_upper_hex s = false.
Proof.
  induction s as [|c s IH]; simpl; intros H; [reflexivity|].
  apply andb_true_iff in H as [Hc Hs].
  apply andb_true_iff in Hc as [_ Hc].
  apply negb_true_iff in Hc. rewrite Hc. simpl. auto.
Qed.

Lemma all_digits_of_lower (s : string) :
  JS.all_chars lower_hex_digit s = true -> JS.all_chars Hex.is_digit s = true.
Proof.
  induction s as [|c s IH]; simpl; intros H; [reflexivity|].
  apply andb_true_iff in H as [Hc Hs].
  apply andb_true_iff in Hc as [Hc _].
  rewrite Hc. simpl. auto.
Qed.

(** Forty lower-case digits are an address, whatever they are. *)
Lemma getAddress_lower (body : string) :
  String.length body = 40%nat ->
  JS.all_chars lower_hex_digit body = true ->
  getAddress ("0x" ++ body)%string = Some (getChecksumAddress ("0x" ++ body)%string).
Proof.
  intros Hlen Hlow. unfold getAddress.
  change (JS.startsWith "0x" ("0x" ++ body)%string) with true. cbv iota.
  change (JS.slice_from 2 ("0x" ++ body)%string) with body.
  rewrite Hlen, (all_digits_of_lower _ Hlow). simpl andb. cbv iota.
  unfold mixed_case.
  change (JS.any_char is_upper_hex ("0x" ++ body)%string)
    with (JS.any_char is_upper_hex body).
  rewrite (no_upper_hex _ Hlow). reflexivity.
Qed.

(** ** The heuristic decoding of a topic *)

Lemma indexedParam_cases (topic : string) :
  (pm_type (indexedParam topic) = "address"
   /\ (String.length topic = 66)%nat
   /\ getAddress ("0x" ++ JS.slice_from 26 topic)%string = Some (pm_value (indexedParam topic)))
  \/ (pm_type (indexedParam topic) = "bytes32"
      /\ pm_value (indexedParam topic) = topic
      /\ ((String.length topic <> 66)%nat
          \/ getAddress ("0x" ++ JS.slice_from 26 topic)%string = None)).
Proof.
  unfold indexedParam.
  destruct (String.length topic =? 66)%nat eqn:Hlen.
  - apply Nat.eqb_eq in Hlen.
    destruct (getAddress ("0x" ++ JS.slice_from 26 topic)%string) as [a|] eqn:Ha.
    + left. simpl. auto.
    + right. simpl. auto.
  - apply Nat.eqb_neq in Hlen. right. simpl. auto.
Qed.

Lemma all_chars_slice_from (p : ascii -> bool) (n : nat) (s : string) :
  JS.all_chars p s = true -> JS.all_chars p (JS.slice_from n s) = true.
Proof.
  revert s. induction n as [|n IH]; intros s H; [exact H|].
  destruct s as [|c s]; [reflexivity|].
  simpl in *. apply andb_true_iff in H as [_ H]. auto.
Qed.

Lemma lower_word_tail (topic : string) :
  lower_word topic = true ->
  (String.length topic = 66)%nat
  /\ (String.length (JS.slice_from 26 topic) = 40)%nat
  /\ JS.all_chars lower_hex_digit (JS.slice_from 26 topic) = true.
Proof.
  unfold lower_word. intros H.
  apply andb_true_iff in H as [H Hlow].
  apply andb_true_iff in H as [Hlen _].
  apply Nat.eqb_eq in Hlen.
  split; [exact Hlen|]. split.
  - rewrite length_slice_from, Hlen. reflexivity.
  - destruct topic as [|c0 [|c1 rest]]; try discriminate.
    change (JS.slice_from 26 (String c0 (String c1 rest))) with (JS.slice_from 24 rest).
    apply all_chars_slice_from. exact Hlow.
Qed.

(** C5 (as the code has it): a topic after the selector is decoded as an
    address exactly when it has 66 characters and its last forty
    characters pass the address validation of ethers; the twenty-four
    characters before them (the high-order twelve bytes) are dropped
    without being inspected, so every lower-case 32-byte word is decoded
    as an address.  Any other topic is kept unchanged as [bytes32]. *)
Theorem indexedParam_address_rule (topic : string) :
  (pm_type (indexedParam topic) = "address"
   <-> (String.length topic = 66)%nat
       /\ getAddress ("0x" ++ JS.slice_from 26 topic)%string <> None)
  /\ (pm_type (indexedParam topic) <> "address"
      -> indexedParam topic = {| pm_type := "bytes32"; pm_value := topic |})
  /\ (lower_word topic = true
      -> indexedParam topic
         = {| pm_type := "address";
              pm_value := getChecksumAddress ("0x" ++ JS.slice_from 26 topic)%string |}).
Proof.
  split; [|split].
  - destruct (indexedParam_cases topic) as [(Ht & Hl & Ha) | (Ht & _ & Hn)].
    + split; [intros _|intros _; exact Ht].
      split; [exact Hl|]. rewrite Ha. discriminate.
    + split.
      * rewrite Ht. discriminate.
      * intros [Hl Ha]. destruct Hn as [Hn|Hn]; [contradiction|].
        rewrite Hn in Ha. contradiction.
  - intros Hna. destruct (indexedParam_cases topic) as [(Ht & _) | (Ht & Hv & _)].
    + contradiction.
    + destruct (indexedParam topic) as [t v]. simpl in *. subst. reflexivity.
  - intros Hw. apply lower_word_tail in Hw as (Hlen & Htl & Hlow).
    unfold indexedParam. apply Nat.eqb_eq in Hlen. rewrite Hlen.
    rewrite (getAddress_lower _ Htl Hlow). reflexivity.
Qed.

Lemma indexedParam_address_rule_witness :
  indexedParam Sample.bob_word
  = {| pm_type := "address";
       pm_value := getChecksumAddress ("0x" ++ JS.slice_from 26 Sample.bob_word)%string |}.
Proof.
  apply (proj2 (proj2 (indexedParam_address_rule Sample.bob_word))).
  vm_compute. reflexivity.
Defined.

(** The claim of C5 fails on a word whose high-order bytes are not zero:
    it is decoded as an address all the same. *)
Lemma indexedParam_ignores_high_bytes :
  high_bytes_zero Sample.ones_word = false
  /\ indexedParam Sample.ones_word
     = {| pm_type := "address";
          pm_value := "0xFFfFfFffFFfffFFfFFfFFFFFffFFFffffFfFFFfF" |}.
Proof. split; vm_compute; reflexivity. Qed.

(** ** initProvider *)

(** C9: initProvider tries the connection up to three times, pauses one
    second after the first failure and two after the second, stops at the
    first attempt that succeeds, and raises its error only when the third
    attempt has failed too. *)
Theorem initProvider_retry_policy (connects : nat -> bool) :
  initProvider connects =
    (if connects 0%nat then ([Attempt], Initialized)
     else if connects 1%nat then ([Attempt; Sleep 1000; Attempt], Initialized)
     else if connects 2%nat then
       ([Attempt; Sleep 1000; Attempt; Sleep 2000; Attempt], Initialized)
     else ([Attempt; Sleep 1000; Attempt; Sleep 2000; Attempt],
           InitError "Failed to initialize provider after 3 attempts"))
  /\ (count_attempts (fst (initProvider connects)) <= 3)%nat
  /\ (snd (initProvider connects) = Initialized
      <-> connects 0%nat = true \/ connects 1%nat = true \/ connects 2%nat = true)
  /\ (snd (initProvider connects) = InitError "Failed to initialize provider after 3 attempts"
      <-> connects 0%nat = false /\ connects 1%nat = false /\ connects 2%nat = false).
Proof.
  unfold initProvider, maxRetries. cbn -[Z.mul Z.of_nat].
  destruct (connects 0%nat), (connects 1%nat), (connects 2%nat);
    cbn; repeat split; intros; try tauto; try lia; try discriminate;
    try (intuition discriminate).
Qed.

(** ** Logs without topics *)

Lemma classify_no_topics (log : RawLog) :
  topics log = [] -> classify log = None.
Proof.
  intros H. unfold classify, tryERC20, tryERC721, tryDummy, parseLog.
  rewrite H. reflexivity.
Qed.

Lemma parseLogs_app (hp : bool) (l1 l2 : list RawLog) (contractAddress : string) :
  Contract_constructs hp contractAddress = true ->
  parseLogs hp (l1 ++ l2) contractAddress
  = fold_left parseLog_step l2 (parseLogs hp l1 contractAddress).
Proof.
  intros H. unfold parseLogs. rewrite H. apply fold_left_app.
Qed.

(** C10: a raw log whose sequence of topics is empty adds nothing to the
    bundle: no transfer, failure, partial transfer or unknown event, and
    the contract type stays as it was; the batch is parsed as if the log
    were not in it. *)
Theorem no_topics_no_event (log : RawLog) (H : topics log = []) :
  (forall parsedLogs, parseLog_step parsedLogs log = parsedLogs)
  /\ (forall hp before after contractAddress,
        parseLogs hp (before ++ log :: after) contractAddress
        = parseLogs hp (before ++ after) contractAddress).
Proof.
  assert (Hstep : forall parsedLogs, parseLog_step parsedLogs log = parsedLogs).
  { intros parsedLogs. unfold parseLog_step.
    rewrite (classify_no_topics log H), H. reflexivity. }
  split; [exact Hstep|].
  intros hp before after contractAddress. unfold parseLogs.
  destruct (Contract_constructs hp contractAddress); [|reflexivity].
  rewrite !fold_left_app. simpl. rewrite Hstep. reflexivity.
Qed.

Lemma no_topics_no_event_witness :
  (forall parsedLogs, parseLog_step parsedLogs Sample.log_no_topics = parsedLogs)
  /\ (forall hp before after contractAddress,
        parseLogs hp (before ++ Sample.log_no_topics :: after) contractAddress
        = parseLogs hp (before ++ after) contractAddress).
Proof. apply (no_topics_no_event Sample.log_no_topics). reflexivity. Defined.

(** ** Event selectors *)

Lemma topicHash_ERC20_Transfer : topicHash ERC20_Transfer = Sample.selector_Transfer.
Proof. vm_compute. reflexivity. Qed.

Lemma topicHash_ERC721_Transfer : topicHash ERC721_Transfer = Sample.selector_Transfer.
Proof. vm_compute. reflexivity. Qed.

Lemma topicHash_Dummy_Transfer : topicHash Dummy_Transfer = Sample.selector_Transfer.
Proof. vm_compute. reflexivity. Qed.

Lemma topicHash_Dummy_TransferFailed :
  topicHash Dummy_TransferFailed = Sample.selector_TransferFailed.
Proof. vm_compute. reflexivity. Qed.

Lemma getEvent_ERC20 (key : string) :
  getEvent ERC20_ABI key
  = if Hex.isHexString key && String.eqb (JS.toLowerCase key) Sample.selector_Transfer
    then Some ERC20_Transfer else None.
Proof.
  unfold getEvent, ERC20_ABI. destruct (Hex.isHexString key); [|reflexivity].
  cbn [find andb]. rewrite topicHash_ERC20_Transfer.
  destruct (String.eqb _ _); reflexivity.
Qed.

Lemma getEvent_ERC721 (key : string) :
  getEvent ERC721_ABI key
  = if Hex.isHexString key && String.eqb (JS.toLowerCase key) Sample.selector_Transfer
    then Some ERC721_Transfer else None.
Proof.
  unfold getEvent, ERC721_ABI. destruct (Hex.isHexString key); [|reflexivity].
  cbn [find andb]. rewrite topicHash_ERC721_Transfer.
  destruct (String.eqb _ _); reflexivity.
Qed.

(** A selector the ERC-20 interface knows is resolved by the dispute
    contract interface to its own [Transfer] event. *)
Lemma getEvent_Dummy_Transfer (key : string) :
  getEvent ERC20_ABI key = Some ERC20_Transfer ->
  getEvent DUMMY_DISPUTE_CONTRACT_ABI key = Some Dummy_Transfer.
Proof.
  rewrite getEvent_ERC20. unfold getEvent, DUMMY_DISPUTE_CONTRACT_ABI.
  destruct (Hex.isHexString key); [|discriminate].
  cbn [find andb]. rewrite topicHash_Dummy_Transfer.
  destruct (String.eqb _ _); [reflexivity|discriminate].
Qed.

Lemma getEvent_ERC20_cases (key : string) :
  getEvent ERC20_ABI key = Some ERC20_Transfer \/ getEvent ERC20_ABI key = None.
Proof. rewrite getEvent_ERC20. destruct (_ && _); auto. Qed.

Lemma getEvent_ERC721_cases (key : string) :
  getEvent ERC721_ABI key = Some ERC721_Transfer \/ getEvent ERC721_ABI key = None.
Proof. rewrite getEvent_ERC721. destruct (_ && _); auto. Qed.

(** The two [Transfer] events with a non-indexed amount have the same
    layout: they decode every log alike. *)
Lemma decodeEventLog_Dummy_Transfer (data : string) (topics : list string) :
  decodeEventLog Dummy_Transfer data topics = decodeEventLog ERC20_Transfer data topics.
Proof. reflexivity. Qed.

(** ** The attempts of the classifier *)

Lemma tryERC20_cases (log : RawLog) :
  tryERC20 log = Raised
  \/ tryERC20 log = Completed None
  \/ exists t, tryERC20 log = Completed (Some ("ERC20", ToTransfers t))
               /\ tr_type t = "ERC20" /\ tr_logIndex t = logIndex log.
Proof.
  unfold tryERC20, parseLog.
  destruct (topics log) as [|t0 rest]; [auto|].
  destruct (getEvent_ERC20_cases t0) as [-> | ->]; [|auto].
  destruct (decodeEventLog _ _ _) as [args|]; [|auto].
  change (String.eqb (ev_name ERC20_Transfer) "Transfer") with true. cbv iota.
  destruct (arg args 0) as [a0|]; [|auto].
  destruct (arg args 1) as [a1|]; [|auto].
  destruct (arg args 2) as [a2|]; [|auto].
  right. right. eexists. split; [reflexivity|]. split; reflexivity.
Qed.

Lemma tryERC721_cases (log : RawLog) :
  tryERC721 log = Raised
  \/ tryERC721 log = Completed None
  \/ exists t, tryERC721 log = Completed (Some ("ERC721", ToTransfers t))
               /\ tr_type t = "ERC721" /\ tr_logIndex t = logIndex log.
Proof.
  unfold tryERC721, parseLog.
  destruct (topics log) as [|t0 rest]; [auto|].
  destruct (getEvent_ERC721_cases t0) as [-> | ->]; [|auto].
  destruct (decodeEventLog _ _ _) as [args|]; [|auto].
  change (String.eqb (ev_name ERC721_Transfer) "Transfer") with true. cbv iota.
  destruct (arg args 0) as [a0|]; [|auto].
  destruct (arg args 1) as [a1|]; [|auto].
  destruct (arg args 2) as [a2|]; [|auto].
  right. right. eexists. split; [reflexivity|]. split; reflexivity.
Qed.

(** When the ERC-20 attempt raises, the dispute-contract attempt raises
    too: it finds its own [Transfer] event, of the same layout, and fails
    on the same argument. *)
Lemma tryDummy_after_ERC20 (log : RawLog) :
  tryERC20 log = Raised -> tryDummy log = Raised.
Proof.
  unfold tryERC20, tryDummy, parseLog.
  destruct (topics log) as [|t0 rest] eqn:Htopics; [reflexivity|].
  destruct (getEvent_ERC20_cases t0) as [H20 | H20]; rewrite H20.
  - rewrite (getEvent_Dummy_Transfer t0 H20), decodeEventLog_Dummy_Transfer.
    destruct (decodeEventLog _ _ _) as [args|]; [|reflexivity].
    change (String.eqb (ev_name ERC20_Transfer) "Transfer") with true.
    change (String.eqb (ev_name Dummy_Transfer) "Transfer") with true.
    cbv iota.
    destruct (arg args 0) as [a0|]; [|reflexivity].
    destruct (arg args 1) as [a1|]; [|reflexivity].
    destruct (arg args 2) as [a2|]; [discriminate|reflexivity].
  - discriminate.
Qed.

(** A log is classified by the ERC-20 schema, by the ERC-721 schema, or
    by none. *)
Lemma classify_cases (log : RawLog) :
  classify log = None
  \/ (exists t, classify log = Some ("ERC20", ToTransfers t)
                /\ tr_type t = "ERC20" /\ tr_logIndex t = logIndex log)
  \/ (exists t, classify log = Some ("ERC721", ToTransfers t)
                /\ tr_type t = "ERC721" /\ tr_logIndex t = logIndex log).
Proof.
  unfold classify.
  destruct (tryERC20_cases log) as [H20 | [H20 | [t [H20 Ht]]]]; rewrite H20; eauto.
  destruct (tryERC721_cases log) as [H721 | [H721 | [t [H721 Ht]]]]; rewrite H721; eauto.
  rewrite (tryDummy_after_ERC20 log H20). auto.
Qed.

(** A selector that is not the ERC-20 one ends the classification at the
    first attempt. *)
Lemma classify_unknown_selector (log : RawLog) (selector : string) (rest : list string) :
  topics log = selector :: rest ->
  known_selector ERC20_ABI selector = false ->
  classify log = None.
Proof.
  intros Htopics Hsel. unfold classify, tryERC20, parseLog. rewrite Htopics.
  rewrite getEvent_ERC20.
  unfold known_selector, ERC20_ABI in Hsel. cbn [existsb orb] in Hsel.
  rewrite topicHash_ERC20_Transfer, orb_false_r in Hsel.
  rewrite Hsel, andb_false_r. reflexivity.
Qed.

(** A log adds at most one event to the bundle, all sequences together. *)
Lemma parseLog_step_at_most_one (parsedLogs : ParsedLogs) (log : RawLog) :
  (event_count parsedLogs <= event_count (parseLog_step parsedLogs log)
   <= S (event_count parsedLogs))%nat.
Proof.
  unfold parseLog_step, event_count.
  destruct (classify log) as [[t c]|].
  - destruct c; cbn [push_classified transfers failures partialTransfers unknownEvents];
      rewrite length_app; cbn [length]; lia.
  - destruct (topics log) as [|selector rest]; [lia|].
    cbn [push_unknown transfers failures partialTransfers unknownEvents].
    rewrite length_app. cbn [length]. lia.
Qed.

Lemma prefix_slice (n : nat) (s : string) :
  String.append (JS.prefix_n n s) (JS.slice_from n s) = s.
Proof.
  revert s. induction n as [|n IH]; intros [|a s]; try reflexivity.
  change (String a (String.append (JS.prefix_n n s) (JS.slice_from n s)) = String a s).
  f_equal. apply IH.
Qed.

(** The loop over the chunks of the payload is not cut short: the chunks
    put together are the payload. *)
Lemma chunks_complete (fuel : nat) (dataBytes : string) :
  (String.length dataBytes <= fuel)%nat ->
  fold_right String.append EmptyString (chunks fuel dataBytes) = dataBytes.
Proof.
  revert dataBytes. induction fuel as [|fuel IH]; intros dataBytes Hlen.
  - destruct dataBytes; [reflexivity | cbn in Hlen; lia].
  - destruct dataBytes as [|c rest]; [reflexivity|].
    cbn [chunks fold_right]. rewrite IH.
    + apply prefix_slice.
    + rewrite length_slice_from. cbn [String.length] in *. lia.
Qed.

(** ** The contract type of a bundle *)

Lemma contractType_fold (logs : list RawLog) (parsedLogs : ParsedLogs) :
  contractType (fold_left parseLog_step logs parsedLogs)
  = match last (schema_types logs) with
    | Some t => Some t
    | None =>
        match contractType parsedLogs with
        | Some t => Some t
        | None => if existsb heuristic logs then Some "Unknown" else None
        end
    end.
Proof.
  revert parsedLogs. induction logs as [|log logs IH]; intros parsedLogs.
  - simpl. destruct (contractType parsedLogs); reflexivity.
  - cbn [fold_left]. rewrite IH. clear IH.
    unfold schema_types. cbn [flat_map existsb]. fold (schema_types logs).
    unfold parseLog_step, heuristic.
    destruct (classify log) as [[t c]|].
    + cbn [app]. rewrite last_cons.
      destruct (last (schema_types logs)); [reflexivity|].
      destruct c; reflexivity.
    + cbn [app]. destruct (last (schema_types logs)); [reflexivity|].
      destruct (topics log) as [|selector rest].
      * cbn [orb]. reflexivity.
      * cbn [orb push_unknown contractType].
        destruct (contractType parsedLogs); reflexivity.
Qed.

(** C1 (as the code has it): every log a schema classifies sets the
    contract type, so the bundle ends with the type of the last such log
    of the batch; only the heuristic decoder respects a type that is
    already set, writing [Unknown] when there is none. *)
Theorem contractType_last_schema (hp : bool) (logs : list RawLog) (contractAddress : string)
    (H : Contract_constructs hp contractAddress = true) :
  contractType (parseLogs hp logs contractAddress)
  = match last (schema_types logs) with
    | Some t => Some t
    | None => if existsb heuristic logs then Some "Unknown" else None
    end.
Proof.
  unfold parseLogs. rewrite H. rewrite contractType_fold. reflexivity.
Qed.

Lemma contractType_last_schema_witness :
  contractType (parseLogs true [Sample.log_one_address; Sample.log_erc721; Sample.log_erc20;
                                Sample.log_TransferFailed] Sample.contract)
  = match last (schema_types [Sample.log_one_address; Sample.log_erc721; Sample.log_erc20;
                              Sample.log_TransferFailed]) with
    | Some t => Some t
    | None => if existsb heuristic [Sample.log_one_address; Sample.log_erc721;
                                    Sample.log_erc20; Sample.log_TransferFailed]
              then Some "Unknown" else None
    end.
Proof. apply (contractType_last_schema true _ Sample.contract). reflexivity. Defined.

(** The claim of C1 fails on an ERC-20 transfer followed by an ERC-721
    transfer: the first sets the contract type, the second replaces it. *)
Lemma contractType_overwritten :
  contractType (parseLogs true [Sample.log_erc20] Sample.contract) = Some "ERC20"
  /\ contractType (parseLogs true [Sample.log_erc20; Sample.log_erc721] Sample.contract)
     = Some "ERC721".
Proof. split; vm_compute; reflexivity. Qed.

(** ** Events of the dispute contract *)

(** C2 (the code at the failing input): whatever the log, the classifier
    tags it ERC20 or ERC721 or hands it on as unclassified; the dispute
    contract schema never classifies.  The [TransferFailed] log of the
    dispute contract decodes without error against that schema, and is
    left unclassified by the classifier. *)
Theorem dispute_schema_never_classifies :
  (forall log,
     classify log = None
     \/ (exists t, classify log = Some ("ERC20", ToTransfers t)
                   /\ tr_type t = "ERC20" /\ tr_logIndex t = logIndex log)
     \/ (exists t, classify log = Some ("ERC721", ToTransfers t)
                   /\ tr_type t = "ERC721" /\ tr_logIndex t = logIndex log))
  /\ tryDummy Sample.log_TransferFailed
     = Completed (Some ("MonadDummyContract", ToFailures
         {| fl_type := "TransferFailed";
            fl_from := VAddress Sample.alice;
            fl_to := VAddress Sample.bob;
            fl_amount := Some "1500";
            fl_tokenId := None;
            fl_reason := VString "Amount too high: exceeds 1000";
            fl_logIndex := 0 |}))
  /\ classify Sample.log_TransferFailed = None.
Proof.
  split; [exact classify_cases|].
  split; vm_compute; reflexivity.
Qed.

(** C3 (the code at the failing input): the [TransferFailed] log of
    scenario A leaves [failures] empty; it is reported as an unknown event
    of the shape of a transfer, and the contract type becomes [Unknown]. *)
Theorem scenario_A_is_an_unknown_event :
  parseLogs true [Sample.log_TransferFailed] Sample.contract
  = {| transfers := [];
       failures := [];
       partialTransfers := [];
       contractType := Some "Unknown";
       contractInfo := ∅;
       unknownEvents :=
         [ {| ue_type := "Transfer";
              ue_eventSignature := Sample.selector_TransferFailed;
              ue_from := Some Sample.alice;
              ue_to := Some Sample.bob;
              ue_amount := Some "1500";
              ue_indexedParams :=
                [ {| pm_type := "address"; pm_value := Sample.alice |};
                  {| pm_type := "address"; pm_value := Sample.bob |} ];
              ue_nonIndexedParams :=
                [ {| pm_type := "uint256"; pm_value := "1500" |};
                  {| pm_type := "uint256"; pm_value := "64" |};
                  {| pm_type := "uint256"; pm_value := "29" |};
                  {| pm_type := "uint256";
                     pm_value := "29593690747763536813993090072033792352672000325236362517026611412886060269568" |} ];
              ue_logIndex := 0;
              ue_rawData := Sample.data_amount_reason |} ] |}.
Proof. vm_compute. reflexivity. Qed.

(** ** Unknown events *)

Lemma known_selector_app (i1 i2 : Interface) (selector : string) :
  known_selector (i1 ++ i2) selector = known_selector i1 selector || known_selector i2 selector.
Proof. unfold known_selector. apply existsb_app. Qed.

Lemma is_address_first (rest : list string) :
  is_address (nth_error (map indexedParam rest) 0) = first_is_address rest.
Proof. destruct rest; reflexivity. Qed.

Lemma is_address_first_two (rest : list string) :
  is_address (nth_error (map indexedParam rest) 0)
  && is_address (nth_error (map indexedParam rest) 1)
  = first_two_are_addresses rest.
Proof.
  destruct rest as [|t1 [|t2 rest]]; cbn [map nth_error is_address]; try reflexivity.
  apply andb_false_r.
Qed.

Lemma first_two_first (rest : list string) :
  first_two_are_addresses rest = true -> first_is_address rest = true.
Proof.
  destruct rest as [|t1 [|t2 rest]]; cbn; try discriminate.
  intros H. apply andb_true_iff in H. tauto.
Qed.

Lemma unknownEvent_pattern (log : RawLog) (selector : string) (rest : list string) :
  let e := unknownEvent log selector rest in
  ue_type e = (if first_two_are_addresses rest then "Transfer"
               else if first_is_address rest then "SingleAddress" else "Unknown")
  /\ (is_Some (ue_to e) <-> first_two_are_addresses rest = true)
  /\ (is_Some (ue_from e) <-> first_is_address rest = true)
  /\ (is_Some (ue_amount e) -> first_two_are_addresses rest = true).
Proof.
  cbv zeta. unfold unknownEvent.
  rewrite is_address_first_two, is_address_first.
  destruct (first_two_are_addresses rest) eqn:H2.
  - apply first_two_first in H2 as H1.
    destruct rest as [|t1 [|t2 rest]]; try discriminate.
    cbn. repeat split; intros; eauto.
  - destruct (first_is_address rest) eqn:H1.
    + destruct rest as [|t1 rest]; try discriminate.
      cbn. repeat split; intros; eauto; try discriminate;
        match goal with H : is_Some None |- _ => destruct H; discriminate end.
    + cbn. repeat split; intros; try discriminate;
        match goal with H : is_Some None |- _ => destruct H; discriminate end.
Qed.

Lemma unknownEvent_indexedParams (log : RawLog) (selector : string) (rest : list string) :
  ue_indexedParams (unknownEvent log selector rest) = map indexedParam rest.
Proof.
  unfold unknownEvent.
  destruct (is_address _ && is_address _); [|destruct (is_address _)]; reflexivity.
Qed.

Lemma unknownEvent_nonIndexedParams (log : RawLog) (selector : string) (rest : list string) :
  ue_nonIndexedParams (unknownEvent log selector rest) = decodeData (data log).
Proof.
  unfold unknownEvent.
  destruct (is_address _ && is_address _); [|destruct (is_address _)]; reflexivity.
Qed.

Lemma indexedParams_opaque (rest : list string) :
  Forall (fun p => pm_type p = "address" \/ pm_type p = "bytes32") (map indexedParam rest).
Proof.
  induction rest as [|t rest IH]; cbn [map]; constructor; [|exact IH].
  destruct (indexedParam_cases t) as [(H & _) | (H & _)]; auto.
Qed.

Lemma nonIndexedParam_opaque (chunk : string) :
  Forall (fun p => pm_type p = "uint256" \/ pm_type p = "bytes") (nonIndexedParam chunk).
Proof.
  unfold nonIndexedParam.
  destruct (String.length chunk =? 64)%nat; [|constructor].
  destruct (BigInt_hex chunk); (constructor; [cbn; auto | constructor]).
Qed.

Lemma decodeData_opaque (data : string) :
  Forall (fun p => pm_type p = "uint256" \/ pm_type p = "bytes") (decodeData data).
Proof.
  unfold decodeData. destruct (_ && _); [|constructor].
  induction (chunks _ _) as [|chunk l IH]; cbn [flat_map]; [constructor|].
  apply Forall_app. split; [apply nonIndexedParam_opaque | exact IH].
Qed.

(** *** The fields of the payload *)

Lemma length_prefix_n (n : nat) (s : string) :
  String.length (JS.prefix_n n s) = Nat.min n (String.length s).
Proof.
  revert s. induction n as [|n IH]; intros [|c s]; cbn; try reflexivity.
  f_equal. apply IH.
Qed.

Lemma slice_from_empty (n : nat) : JS.slice_from n EmptyString = EmptyString.
Proof. destruct n; reflexivity. Qed.

Lemma slice_from_add (a b : nat) (s : string) :
  JS.slice_from (a + b) s = JS.slice_from b (JS.slice_from a s).
Proof.
  revert s. induction a as [|a IH]; intros s; [reflexivity|].
  destruct s as [|c s]; cbn [Nat.add JS.slice_from].
  - symmetry. apply slice_from_empty.
  - apply IH.
Qed.

Lemma nonIndexedParam_full (chunk : string) :
  String.length chunk = 64%nat -> nonIndexedParam chunk = [chunk_field chunk].
Proof.
  intros H. unfold nonIndexedParam, chunk_field. rewrite H.
  destruct (BigInt_hex chunk); reflexivity.
Qed.

Lemma nonIndexedParam_short (chunk : string) :
  String.length chunk <> 64%nat -> nonIndexedParam chunk = [].
Proof.
  intros H. unfold nonIndexedParam.
  apply Nat.eqb_neq in H. rewrite H. reflexivity.
Qed.

Lemma full_chunks_short (s : string) :
  (String.length s < 64)%nat -> full_chunks s = [].
Proof.
  intros H. unfold full_chunks. rewrite Nat.div_small by exact H. reflexivity.
Qed.

Lemma full_chunks_step (s : string) :
  (64 <= String.length s)%nat ->
  full_chunks s = JS.prefix_n 64 s :: full_chunks (JS.slice_from 64 s).
Proof.
  intros H. unfold full_chunks.
  rewrite length_slice_from.
  replace (String.length s) with (1 * 64 + (String.length s - 64))%nat at 1 by lia.
  rewrite Nat.div_add_l by discriminate.
  cbn [Nat.add seq map]. f_equal.
  rewrite <- seq_shift, map_map.
  apply map_ext. intros k. unfold JS.slice.
  replace (64 * S k)%nat with (64 + 64 * k)%nat by lia.
  rewrite slice_from_add. f_equal; lia.
Qed.

(** The loop over the payload yields one field for each full chunk, in
    order, and nothing for a shorter piece at the end. *)
Lemma chunks_full (fuel : nat) (s : string) :
  (String.length s <= fuel)%nat ->
  flat_map nonIndexedParam (chunks fuel s) = map chunk_field (full_chunks s).
Proof.
  revert s. induction fuel as [|fuel IH]; intros s Hlen.
  - destruct s; [reflexivity | cbn in Hlen; lia].
  - destruct s as [|c rest]; [reflexivity|].
    set (s := String c rest) in *.
    change (chunks (S fuel) s) with (JS.prefix_n 64 s :: chunks fuel (JS.slice_from 64 s)).
    cbn [flat_map]. rewrite IH.
    2:{ rewrite length_slice_from. subst s. cbn [String.length] in *. lia. }
    destruct (le_lt_dec 64 (String.length s)) as [Hfull|Hshort].
    + rewrite nonIndexedParam_full.
      2:{ rewrite length_prefix_n. lia. }
      rewrite (full_chunks_step s Hfull). reflexivity.
    + rewrite nonIndexedParam_short.
      2:{ rewrite length_prefix_n. lia. }
      rewrite (full_chunks_short s Hshort).
      rewrite full_chunks_short; [reflexivity|].
      rewrite length_slice_from. lia.
Qed.

Lemma decodeData_full_chunks (data : string) :
  decodeData data = map chunk_field (full_chunks (JS.slice_from 2 data)).
Proof.
  unfold decodeData.
  destruct (String.eqb data "") eqn:He.
  - apply String.eqb_eq in He. subst data. reflexivity.
  - destruct (String.eqb data "0x") eqn:Hx.
    + apply String.eqb_eq in Hx. subst data. reflexivity.
    + cbn [negb andb]. apply chunks_full. lia.
Qed.

Lemma indexedParam_topic_field (topic : string) :
  indexedParam topic = topic_field topic.
Proof.
  unfold indexedParam, topic_field.
  destruct (String.length topic =? 66)%nat; destruct (getAddress _); reflexivity.
Qed.

(** The addresses and the amount an unknown event reports are those of
    its first fields. *)
Lemma unknownEvent_values (log : RawLog) (selector : string) (rest : list string) :
  let e := unknownEvent log selector rest in
  ue_from e = (if first_is_address rest
               then option_map pm_value (nth_error (map indexedParam rest) 0) else None)
  /\ ue_to e = (if first_two_are_addresses rest
                then option_map pm_value (nth_error (map indexedParam rest) 1) else None)
  /\ ue_amount e = (if first_two_are_addresses rest
                    then first_amount (decodeData (data log)) else None).
Proof.
  cbv zeta. unfold unknownEvent.
  rewrite is_address_first_two, is_address_first.
  destruct (first_two_are_addresses rest) eqn:H2.
  - rewrite (first_two_first rest H2). cbn.
    repeat split. destruct (decodeData (data log)); reflexivity.
  - destruct (first_is_address rest); cbn; repeat split.
Qed.

(** C4 (as the code has it): a log whose selector no ABI knows is never
    classified by a schema; the heuristic decoder, which has no failing
    path, adds exactly one event to [unknownEvents] and nothing to the
    other sequences.  The event has one field for each topic after the
    selector, in order: the decoded address, or the topic itself as an
    opaque [bytes32] value when it does not decode.  It has one field for
    each full 32-byte chunk of the payload, in order: the number in
    decimal, or the chunk itself as an opaque [bytes] value when [BigInt]
    rejects it; a shorter piece at the end of the payload gives no field.
    [to] is populated exactly when the first two topics after the selector
    are read as addresses, and is then the second address; [from] is
    populated as soon as the first of them is, which includes the
    single-address pattern, and is the first address; the amount is the
    first data field of a transfer-shaped event when that field is a
    number. *)
Theorem unknown_selector_heuristic (log : RawLog) (selector : string) (rest : list string)
    (parsedLogs : ParsedLogs)
    (Htopics : topics log = selector :: rest)
    (Hunknown : known_selector registry selector = false) :
  let e := unknownEvent log selector rest in
  let parsedLogs' := parseLog_step parsedLogs log in
  transfers parsedLogs' = transfers parsedLogs
  /\ failures parsedLogs' = failures parsedLogs
  /\ partialTransfers parsedLogs' = partialTransfers parsedLogs
  /\ unknownEvents parsedLogs' = unknownEvents parsedLogs ++ [e]
  /\ (is_Some (ue_to e) <-> first_two_are_addresses rest = true)
  /\ (is_Some (ue_from e) <-> first_is_address rest = true)
  /\ ue_type e = (if first_two_are_addresses rest then "Transfer"
                  else if first_is_address rest then "SingleAddress" else "Unknown")
  /\ length (ue_indexedParams e) = length rest
  /\ Forall (fun p => pm_type p = "address" \/ pm_type p = "bytes32") (ue_indexedParams e)
  /\ Forall (fun p => pm_type p = "uint256" \/ pm_type p = "bytes") (ue_nonIndexedParams e)
  /\ ue_indexedParams e = map topic_field rest
  /\ ue_nonIndexedParams e
     = map chunk_field (full_chunks (JS.slice_from 2 (data log)))
  /\ ue_from e = (if first_is_address rest
                  then option_map pm_value (nth_error (ue_indexedParams e) 0) else None)
  /\ ue_to e = (if first_two_are_addresses rest
                then option_map pm_value (nth_error (ue_indexedParams e) 1) else None)
  /\ ue_amount e = (if first_two_are_addresses rest
                    then first_amount (ue_nonIndexedParams e) else None)
  /\ ue_eventSignature e = selector
  /\ ue_logIndex e = logIndex log
  /\ ue_rawData e = data log.
Proof.
  cbv zeta.
  unfold registry in Hunknown. rewrite known_selector_app in Hunknown.
  apply orb_false_iff in Hunknown as [H20 _].
  unfold parseLog_step.
  rewrite (classify_unknown_selector log selector rest Htopics H20), Htopics.
  destruct (unknownEvent_pattern log selector rest) as (Htype & Hto & Hfrom & _).
  destruct (unknownEvent_values log selector rest) as (Vfrom & Vto & Vamount).
  cbn [push_unknown transfers failures partialTransfers unknownEvents].
  rewrite unknownEvent_indexedParams, unknownEvent_nonIndexedParams.
  do 4 (split; [reflexivity|]).
  split; [exact Hto|]. split; [exact Hfrom|]. split; [exact Htype|].
  split; [apply length_map|].
  split; [apply indexedParams_opaque|].
  split; [apply decodeData_opaque|].
  split; [apply map_ext; exact indexedParam_topic_field|].
  split; [apply decodeData_full_chunks|].
  split; [exact Vfrom|]. split; [exact Vto|]. split; [exact Vamount|].
  unfold unknownEvent.
  destruct (is_address _ && is_address _); [|destruct (is_address _)];
    repeat split.
Qed.

Lemma unknown_selector_heuristic_witness :
  let log := Sample.log_mixed_payload in
  let rest := [Sample.alice_word; "0x1234"] in
  let e := unknownEvent log Sample.selector_Approval rest in
  let parsedLogs' := parseLog_step emptyParsedLogs log in
  transfers parsedLogs' = []
  /\ failures parsedLogs' = []
  /\ partialTransfers parsedLogs' = []
  /\ unknownEvents parsedLogs' = [] ++ [e]
  /\ (is_Some (ue_to e) <-> first_two_are_addresses rest = true)
  /\ (is_Some (ue_from e) <-> first_is_address rest = true)
  /\ ue_type e = (if first_two_are_addresses rest then "Transfer"
                  else if first_is_address rest then "SingleAddress" else "Unknown")
  /\ length (ue_indexedParams e) = length rest
  /\ Forall (fun p => pm_type p = "address" \/ pm_type p = "bytes32") (ue_indexedParams e)
  /\ Forall (fun p => pm_type p = "uint256" \/ pm_type p = "bytes") (ue_nonIndexedParams e)
  /\ ue_indexedParams e = map topic_field rest
  /\ ue_nonIndexedParams e
     = map chunk_field (full_chunks (JS.slice_from 2 (data log)))
  /\ ue_from e = (if first_is_address rest
                  then option_map pm_value (nth_error (ue_indexedParams e) 0) else None)
  /\ ue_to e = (if first_two_are_addresses rest
                then option_map pm_value (nth_error (ue_indexedParams e) 1) else None)
  /\ ue_amount e = (if first_two_are_addresses rest
                    then first_amount (ue_nonIndexedParams e) else None)
  /\ ue_eventSignature e = Sample.selector_Approval
  /\ ue_logIndex e = logIndex log
  /\ ue_rawData e = data log.
Proof.
  apply (unknown_selector_heuristic Sample.log_mixed_payload Sample.selector_Approval
           [Sample.alice_word; "0x1234"] emptyParsedLogs).
  - reflexivity.
  - vm_compute. reflexivity.
Defined.

(** The event of the log above: the second topic is kept as it is, the
    first chunk of the payload is the number 1500, the second chunk is
    kept as it is, and the four digits at the end are left out. *)
Lemma mixed_payload_event :
  unknownEvents (parseLogs true [Sample.log_mixed_payload] Sample.contract)
  = [ {| ue_type := "SingleAddress";
         ue_eventSignature := Sample.selector_Approval;
         ue_from := Some Sample.alice;
         ue_to := None;
         ue_amount := None;
         ue_indexedParams :=
           [ {| pm_type := "address"; pm_value := Sample.alice |};
             {| pm_type := "bytes32"; pm_value := "0x1234" |} ];
         ue_nonIndexedParams :=
           [ {| pm_type := "uint256"; pm_value := "1500" |};
             {| pm_type := "bytes";
                pm_value := "0xzz00000000000000000000000000000000000000000000000000000000000000" |} ];
         ue_logIndex := 5;
         ue_rawData := data Sample.log_mixed_payload |} ].
Proof. vm_compute. reflexivity. Qed.

(** The claim of C4 fails on an unknown event with a single address-like
    topic: [from] is populated although there are not two such topics. *)
Lemma from_populated_with_one_address :
  known_selector registry Sample.selector_Approval = false
  /\ first_two_are_addresses (tl (topics Sample.log_one_address)) = false
  /\ map (fun e => (ue_type e, ue_from e, ue_to e))
         (unknownEvents (parseLogs true [Sample.log_one_address] Sample.contract))
     = [("SingleAddress", Some Sample.alice, None)].
Proof. repeat split; vm_compute; reflexivity. Qed.

(** ** Historical backfill *)

Lemma log_queries_app (c1 c2 : list RpcCall) :
  log_queries (c1 ++ c2) = log_queries c1 ++ log_queries c2.
Proof. apply List.filter_app. Qed.

Lemma read_no_log_query (this : Service) (contractAddress method : string)
    (args : list string) :
  log_queries (fst (read this contractAddress method args)) = [].
Proof. unfold read. destruct (provider this); reflexivity. Qed.

Lemma fetchInfo_no_log_query (this : Service) (contractAddress : string)
    (fields : list (string * string)) (state : ContractState) :
  log_queries (fst (fetchInfo this contractAddress fields state)) = [].
Proof.
  revert state. induction fields as [|[key method] fields IH]; intros state; [reflexivity|].
  cbn [fetchInfo].
  pose proof (read_no_log_query this contractAddress method []) as Hr.
  destruct (read this contractAddress method []) as [calls [v|]]; cbn [fst] in Hr.
  - specialize (IH (set_contractInfo key v state)).
    destruct (fetchInfo this contractAddress fields _) as [calls' state'].
    cbn [fst] in *. rewrite log_queries_app, Hr, IH. reflexivity.
  - exact Hr.
Qed.

Lemma fetchBalance_no_log_query (this : Service) (contractAddress : string)
    (toAddress : option string) (state : ContractState) :
  log_queries (fst (fetchBalance this contractAddress toAddress state)) = [].
Proof.
  unfold fetchBalance. destruct toAddress as [to|]; [|reflexivity].
  destruct (String.eqb to ""); [reflexivity|].
  pose proof (read_no_log_query this contractAddress "balanceOf" [to]) as Hr.
  destruct (read this contractAddress "balanceOf" [to]) as [calls [v|]]; exact Hr.
Qed.

Lemma fetchOwnership_no_log_query (this : Service) (contractAddress type : string)
    (toAddress : option string) (transfers : list Transfer) (state : ContractState) :
  log_queries (fst (fetchOwnership this contractAddress type toAddress transfers state)) = [].
Proof.
  revert state. induction transfers as [|transfer transfers IH]; intros state; [reflexivity|].
  cbn [fetchOwnership].
  destruct (String.eqb (tr_type transfer) type && is_toAddress (tr_to transfer) toAddress).
  - destruct (tr_tokenId transfer) as [tokenId|].
    + pose proof (read_no_log_query this contractAddress "ownerOf" [tokenId]) as Hr.
      destruct (read this contractAddress "ownerOf" [tokenId]) as [calls [v|]];
        cbn [fst] in Hr.
      * specialize (IH (set_ownership tokenId v state)).
        destruct (fetchOwnership _ _ _ _ _ _) as [calls' state'].
        cbn [fst] in *. rewrite log_queries_app, Hr, IH. reflexivity.
      * specialize (IH state).
        destruct (fetchOwnership _ _ _ _ _ _) as [calls' state'].
        cbn [fst] in *. rewrite log_queries_app, Hr, IH. reflexivity.
    + specialize (IH state).
      destruct (fetchOwnership _ _ _ _ _ _) as [calls' state'].
      cbn [fst] in *. exact IH.
  - specialize (IH state).
    destruct (fetchOwnership _ _ _ _ _ _) as [calls' state'].
    cbn [fst] in *. exact IH.
Qed.

(** Reading the contract state never queries logs or the block height. *)
Lemma getContractState_no_log_query (this : Service) (contractAddress : string)
    (toAddress : option string) (parsedLogs : ParsedLogs) :
  log_queries (fst (getContractState this contractAddress toAddress parsedLogs)) = [].
Proof.
  unfold getContractState.
  destruct (negb _); [reflexivity|].
  destruct (contractType parsedLogs) as [t|]; [|reflexivity].
  destruct (String.eqb t "ERC20").
  { pose proof (fetchInfo_no_log_query this contractAddress
      [("symbol", "symbol"); ("name", "name"); ("decimals", "decimals")] emptyState) as H1.
    destruct (fetchInfo _ _ _ _) as [c1 s1].
    pose proof (fetchBalance_no_log_query this contractAddress toAddress s1) as H2.
    destruct (fetchBalance _ _ _ _) as [c2 s2].
    cbn [fst] in *. rewrite log_queries_app, H1, H2. reflexivity. }
  destruct (String.eqb t "ERC721").
  { pose proof (fetchInfo_no_log_query this contractAddress
      [("symbol", "symbol"); ("name", "name")] emptyState) as H1.
    destruct (fetchInfo _ _ _ _) as [c1 s1].
    pose proof (fetchOwnership_no_log_query this contractAddress "ERC721" toAddress
      (transfers parsedLogs) s1) as H2.
    destruct (fetchOwnership _ _ _ _ _ _) as [c2 s2].
    pose proof (fetchBalance_no_log_query this contractAddress toAddress s2) as H3.
    destruct (fetchBalance _ _ _ _) as [c3 s3].
    cbn [fst] in *. rewrite !log_queries_app, H1, H2, H3. reflexivity. }
  destruct (String.eqb t "MonadDummyContract"); [|reflexivity].
  pose proof (fetchInfo_no_log_query this contractAddress
    [("totalSupply", "getTotalSupply"); ("nextTokenId", "getNextTokenId")] emptyState) as H1.
  destruct (fetchInfo _ _ _ _) as [c1 s1].
  pose proof (fetchBalance_no_log_query this contractAddress toAddress s1) as H2.
  destruct (fetchBalance _ _ _ _) as [c2 s2].
  pose proof (fetchOwnership_no_log_query this contractAddress "TokenMinted" toAddress
    (transfers parsedLogs) s2) as H3.
  destruct (fetchOwnership _ _ _ _ _ _) as [c3 s3].
  cbn [fst] in *. rewrite !log_queries_app, H1, H2, H3. reflexivity.
Qed.

Lemma getHistoricalLogs_default (this : Service) (contractAddress : string) :
  getHistoricalLogs this contractAddress None
  = (backfill_queries this contractAddress, backfill_logs this contractAddress).
Proof.
  unfold getHistoricalLogs, backfill_queries, backfill_logs,
    await_getBlockNumber, await_getLogs, bind.
  destruct (provider this) as [p|]; [|reflexivity].
  destruct (getBlockNumber p) as [currentBlock|]; [|reflexivity].
  destruct (getLogs p contractAddress _ currentBlock); reflexivity.
Qed.

Lemma log_queries_backfill (this : Service) (contractAddress : string) :
  log_queries (backfill_queries this contractAddress) = backfill_queries this contractAddress.
Proof.
  unfold backfill_queries. destruct (provider this) as [p|]; [|reflexivity].
  destruct (getBlockNumber p); reflexivity.
Qed.

Lemma parseLogs_nil (hp : bool) (contractAddress : string) :
  parseLogs hp [] contractAddress = emptyParsedLogs.
Proof. unfold parseLogs. destruct (Contract_constructs _ _); reflexivity. Qed.

(** C6: the backfill runs exactly when the logs of the transaction gave
    no transfer.  It then asks for the block height once and for the logs
    of the same contract from [max 0 (height - 1000)] to the height once,
    parses what it gets and appends the transfers found to the bundle;
    failures, partial transfers, unknown events and the contract type of
    the bundle stay those of the transaction.  Otherwise no log is queried
    and the bundle is left as parsed. *)
Theorem backfill_policy (this : Service) (receiptLogs : list RawLog)
    (contractAddress : string) (toAddress : option string) :
  let txLogs := parseLogs (hasProvider this) receiptLogs contractAddress in
  let result := assembleEvidence this receiptLogs contractAddress toAddress in
  let bundle := parsedLogs (snd result) in
  let found := parseLogs (hasProvider this) (historicalLogs (snd result)) contractAddress in
  (transfers txLogs = [] ->
     log_queries (fst result) = backfill_queries this contractAddress
     /\ historicalLogs (snd result) = backfill_logs this contractAddress
     /\ transfers bundle = transfers found)
  /\ (transfers txLogs <> [] ->
      log_queries (fst result) = [] /\ historicalLogs (snd result) = [] /\ bundle = txLogs)
  /\ (length (log_queries (fst result)) <= 2)%nat
  /\ transfers bundle = transfers txLogs ++ transfers found
  /\ failures bundle = failures txLogs
  /\ partialTransfers bundle = partialTransfers txLogs
  /\ unknownEvents bundle = unknownEvents txLogs
  /\ contractType bundle = contractType txLogs.
Proof.
  cbv zeta. unfold assembleEvidence.
  set (txLogs := parseLogs (hasProvider this) receiptLogs contractAddress).
  pose proof (getContractState_no_log_query this contractAddress
    (if truthy toAddress then toAddress else None) txLogs) as Hstate.
  destruct (getContractState _ _ _ _) as [calls1 state]. cbn [fst] in Hstate.
  rewrite getHistoricalLogs_default.
  destruct (transfers txLogs) as [|t ts] eqn:Htr.
  - cbn [length Nat.eqb fst snd parsedLogs historicalLogs push_transfers
         transfers failures partialTransfers unknownEvents contractType].
    rewrite log_queries_app, Hstate, log_queries_backfill, Htr. cbn [app].
    repeat split; try reflexivity; try congruence.
    unfold backfill_queries. destruct (provider this) as [p|]; [|cbn; lia].
    destruct (getBlockNumber p); cbn; lia.
  - cbn [length Nat.eqb fst snd parsedLogs historicalLogs].
    rewrite Hstate, parseLogs_nil, Htr. cbn [transfers emptyParsedLogs length].
    rewrite app_nil_r.
    repeat split; try reflexivity; try congruence; try lia.
Qed.

Lemma backfill_policy_witness :
  log_queries (fst (assembleEvidence SampleTx.service [Sample.log_TransferFailed]
                      Sample.contract None))
  = [GetBlockNumber; GetLogs Sample.contract 0 500]
  /\ historicalLogs (snd (assembleEvidence SampleTx.service [Sample.log_TransferFailed]
                            Sample.contract None))
     = [Sample.log_erc721]
  /\ transfers (parsedLogs (snd (assembleEvidence SampleTx.service
                                   [Sample.log_TransferFailed] Sample.contract None)))
     = transfers (parseLogs true [Sample.log_erc721] Sample.contract).
Proof.
  apply (proj1 (backfill_policy SampleTx.service [Sample.log_TransferFailed]
                  Sample.contract None)).
  vm_compute. reflexivity.
Defined.

(** ** The pattern analyzer *)

Lemma includes_app (patterns : list string) (tag tag' : string) :
  includes (patterns ++ [tag']) tag = includes patterns tag || String.eqb tag tag'.
Proof. unfold includes. rewrite existsb_app. cbn. rewrite orb_false_r. reflexivity. Qed.

Lemma analyzeEvent_fold (events : list UnknownEvent) (patterns : list string)
    (valueTransferred : string) :
  let result := fold_left analyzeEvent events (patterns, valueTransferred) in
  includes (fst result) "ETH_TRANSFER" = includes patterns "ETH_TRANSFER"
  /\ includes (fst result) "TOKEN_TRANSFER"
     = includes patterns "TOKEN_TRANSFER" || existsb heuristic_transfer events.
Proof.
  cbv zeta. revert patterns valueTransferred.
  induction events as [|e events IH]; intros patterns valueTransferred.
  - cbn. rewrite orb_false_r. auto.
  - cbn [fold_left existsb]. unfold analyzeEvent at 2 4. unfold heuristic_transfer at 1.
    destruct (String.eqb (ue_type e) "Transfer" && truthy (ue_amount e)).
    + destruct (IH (patterns ++ ["TOKEN_TRANSFER"]) (default "" (ue_amount e))) as [H1 H2].
      rewrite H1, H2, !includes_app. cbn.
      rewrite orb_false_r, !orb_true_r. auto.
    + destruct (String.eqb (ue_type e) "SingleAddress").
      * destruct (IH (patterns ++ ["SINGLE_ADDRESS_EVENT"]) valueTransferred) as [H1 H2].
        rewrite H1, H2, !includes_app. cbn. rewrite !orb_false_r. auto.
      * destruct (IH patterns valueTransferred) as [H1 H2].
        rewrite H1, H2. auto.
Qed.

(** C7 (as the code has it): the label follows the fixed priority
    contract interaction with value, token transfer, contract interaction
    only, value transfer only, unknown, over three signals: a value above
    zero; a destination address together with non-empty call data; an
    unknown event of the shape of a transfer with an amount.  Transfers
    classified by a schema do not count.  Without unknown events, value
    and contract interaction the label is [unknown] and no pattern tag is
    recorded. *)
Theorem transactionType_decision_table (transaction : Transaction) (receipt : Receipt)
    (parsedLogs : ParsedLogs) :
  let analysis := analyzeTransactionPattern transaction receipt parsedLogs in
  transactionType analysis
  = decision_table (hasValue transaction) (isContractInteraction transaction)
      (code_tokenTransfer parsedLogs)
  /\ contractInteraction analysis = isContractInteraction transaction
  /\ includes (patterns analysis) "ETH_TRANSFER" = hasValue transaction
  /\ includes (patterns analysis) "TOKEN_TRANSFER" = code_tokenTransfer parsedLogs
  /\ (unknownEvents parsedLogs = [] -> hasValue transaction = false ->
      isContractInteraction transaction = false ->
      transactionType analysis = "unknown" /\ patterns analysis = []).
Proof.
  cbv zeta. unfold analyzeTransactionPattern, decision_table, code_tokenTransfer.
  destruct (hasValue transaction) eqn:Hv.
  - pose proof (analyzeEvent_fold (unknownEvents parsedLogs) ["ETH_TRANSFER"]
      (toString (default 0 (tx_value transaction)))) as [H1 H2].
    destruct (fold_left analyzeEvent _ _) as [pats val].
    cbn [fst] in H1, H2. cbn [transactionType contractInteraction patterns].
    rewrite H1, H2. cbn.
    do 4 (split; [reflexivity|]). intros _ Hf. discriminate.
  - pose proof (analyzeEvent_fold (unknownEvents parsedLogs) [] "0") as [H1 H2].
    destruct (fold_left analyzeEvent _ _) as [pats val] eqn:Hfold.
    cbn [fst] in H1, H2. cbn [transactionType contractInteraction patterns].
    rewrite H1, H2. cbn.
    do 4 (split; [reflexivity|]). intros He _ Hi. split.
    + rewrite He, Hi. reflexivity.
    + rewrite He in Hfold. cbn in Hfold. congruence.
Qed.

Lemma transactionType_decision_table_witness :
  transactionType (analyzeTransactionPattern SampleTx.idle SampleTx.receipt_ok
                     (parseLogs true [] Sample.contract)) = "unknown"
  /\ patterns (analyzeTransactionPattern SampleTx.idle SampleTx.receipt_ok
                 (parseLogs true [] Sample.contract)) = [].
Proof.
  apply (proj2 (proj2 (proj2 (proj2
    (transactionType_decision_table SampleTx.idle SampleTx.receipt_ok
       (parseLogs true [] Sample.contract)))))); reflexivity.
Defined.

(** The claim of C7 fails twice.  A deployment that carries value has
    call data and is labelled [eth_transfer], since it has no destination
    address; a call whose receipt holds an ERC-20 transfer of 5 units is
    labelled [contract_call], since a transfer classified by a schema is
    not looked at. *)
Lemma transactionType_differs_from_spec :
  (spec_transactionType SampleTx.deployment emptyParsedLogs = "contract_eth_transfer"
   /\ transactionType (analyzeTransactionPattern SampleTx.deployment SampleTx.receipt_ok
                         emptyParsedLogs) = "eth_transfer")
  /\ (map transfer_amount (transfers (parseLogs true [Sample.log_erc20] Sample.contract))
      = [Some "5"]
      /\ spec_transactionType SampleTx.token_call
           (parseLogs true [Sample.log_erc20] Sample.contract) = "token_transfer"
      /\ transactionType (analyzeTransactionPattern SampleTx.token_call SampleTx.receipt_ok
                            (parseLogs true [Sample.log_erc20] Sample.contract))
         = "contract_call").
Proof. repeat split; vm_compute; reflexivity. Qed.

(** ** The contract-state reader *)

Lemma fetchInfo_frame (this : Service) (contractAddress : string)
    (fields : list (string * string)) (state : ContractState) :
  balances (snd (fetchInfo this contractAddress fields state)) = balances state
  /\ ownership (snd (fetchInfo this contractAddress fields state)) = ownership state.
Proof.
  revert state. induction fields as [|[key method] fields IH]; intros state; [auto|].
  cbn [fetchInfo].
  destruct (read this contractAddress method []) as [calls [v|]]; [|auto].
  specialize (IH (set_contractInfo key v state)).
  destruct (fetchInfo this contractAddress fields _) as [calls' state'].
  exact IH.
Qed.

Lemma fetchBalance_frame (this : Service) (contractAddress : string)
    (toAddress : option string) (state : ContractState) :
  ownership (snd (fetchBalance this contractAddress toAddress state)) = ownership state
  /\ cs_contractInfo (snd (fetchBalance this contractAddress toAddress state))
     = cs_contractInfo state.
Proof.
  unfold fetchBalance. destruct toAddress as [to|]; [|auto].
  destruct (String.eqb to ""); [auto|].
  destruct (read this contractAddress "balanceOf" [to]) as [calls [v|]]; auto.
Qed.

Lemma fetchOwnership_frame (this : Service) (contractAddress type : string)
    (toAddress : option string) (transfers : list Transfer) (state : ContractState) :
  balances (snd (fetchOwnership this contractAddress type toAddress transfers state))
  = balances state
  /\ cs_contractInfo (snd (fetchOwnership this contractAddress type toAddress transfers state))
     = cs_contractInfo state.
Proof.
  revert state. induction transfers as [|transfer transfers IH]; intros state; [auto|].
  cbn [fetchOwnership].
  destruct (String.eqb (tr_type transfer) type && is_toAddress (tr_to transfer) toAddress).
  - destruct (tr_tokenId transfer) as [tokenId|].
    + destruct (read this contractAddress "ownerOf" [tokenId]) as [calls [v|]].
      * specialize (IH (set_ownership tokenId v state)).
        destruct (fetchOwnership _ _ _ _ _ _) as [calls' state']. exact IH.
      * specialize (IH state).
        destruct (fetchOwnership _ _ _ _ _ _) as [calls' state']. exact IH.
    + specialize (IH state).
      destruct (fetchOwnership _ _ _ _ _ _) as [calls' state']. exact IH.
  - specialize (IH state).
    destruct (fetchOwnership _ _ _ _ _ _) as [calls' state']. exact IH.
Qed.

(** The balance read has a [try] of its own: its answer is recorded
    whatever happened to the reads before it. *)
Lemma fetchBalance_lookup (p : Provider) (contractAddress to : string)
    (state : ContractState) :
  to <> "" ->
  balances (snd (fetchBalance {| provider := Some p |} contractAddress (Some to) state)) !! to
  = match call p contractAddress "balanceOf" [to] with
    | Some balance => Some (value_toString balance)
    | None => balances state !! to
    end.
Proof.
  intros Hto. unfold fetchBalance, read. cbn [provider].
  apply String.eqb_neq in Hto. rewrite Hto.
  destruct (call p contractAddress "balanceOf" [to]) as [balance|]; cbn; [|reflexivity].
  apply lookup_insert_eq.
Qed.

(** Every owner lookup has a [try] of its own: the owner of a wanted
    token is recorded when its lookup answers. *)
Lemma fetchOwnership_lookup (p : Provider) (contractAddress type : string)
    (toAddress : option string) (transfers : list Transfer) (state : ContractState)
    (tokenId : string) :
  ownership (snd (fetchOwnership {| provider := Some p |} contractAddress type toAddress
                    transfers state)) !! tokenId
  = if existsb (wanted type toAddress tokenId) transfers
    then match call p contractAddress "ownerOf" [tokenId] with
         | Some owner => Some owner
         | None => ownership state !! tokenId
         end
    else ownership state !! tokenId.
Proof.
  revert state. induction transfers as [|transfer transfers IH]; intros state; [reflexivity|].
  cbn [fetchOwnership existsb]. unfold wanted at 1.
  destruct (String.eqb (tr_type transfer) type && is_toAddress (tr_to transfer) toAddress).
  - destruct (tr_tokenId transfer) as [tid|].
    + unfold read. cbn [provider].
      destruct (call p contractAddress "ownerOf" [tid]) as [owner|] eqn:Hcall.
      * specialize (IH (set_ownership tid owner state)).
        destruct (fetchOwnership _ _ _ _ _ _) as [calls' state'].
        cbn [snd] in *. rewrite IH. cbn [set_ownership ownership andb].
        destruct (decide (tid = tokenId)) as [->|Hne].
        -- rewrite bool_decide_eq_true_2 by reflexivity. cbn [orb].
           rewrite Hcall, lookup_insert_eq.
           destruct (existsb _ _); reflexivity.
        -- rewrite bool_decide_eq_false_2 by congruence. cbn [orb].
           rewrite lookup_insert_ne by exact Hne. reflexivity.
      * specialize (IH state).
        destruct (fetchOwnership _ _ _ _ _ _) as [calls' state'].
        cbn [snd] in *. rewrite IH. cbn [andb].
        destruct (decide (tid = tokenId)) as [->|Hne].
        -- rewrite bool_decide_eq_true_2 by reflexivity. cbn [orb].
           rewrite Hcall. destruct (existsb _ _); reflexivity.
        -- rewrite bool_decide_eq_false_2 by congruence. reflexivity.
    + specialize (IH state).
      destruct (fetchOwnership _ _ _ _ _ _) as [calls' state'].
      cbn [snd] in *. rewrite IH.
      rewrite bool_decide_eq_false_2 by discriminate. reflexivity.
  - specialize (IH state).
    destruct (fetchOwnership _ _ _ _ _ _) as [calls' state'].
    cbn [snd] in *. rewrite IH. reflexivity.
Qed.

(** The reads of one [try] block: a key is present when its read and the
    reads before it in the block answered. *)
Lemma fetchInfo_three (p : Provider) (contractAddress k1 m1 k2 m2 k3 m3 : string) :
  k1 <> k2 -> k1 <> k3 -> k2 <> k3 ->
  let info := cs_contractInfo (snd (fetchInfo {| provider := Some p |} contractAddress
                                      [(k1, m1); (k2, m2); (k3, m3)] emptyState)) in
  let answer method := call p contractAddress method [] in
  info !! k1 = answer m1
  /\ info !! k2 = match answer m1 with Some _ => answer m2 | None => None end
  /\ info !! k3 = match answer m1, answer m2 with
                  | Some _, Some _ => answer m3
                  | _, _ => None
                  end.
Proof.
  intros H12 H13 H23. cbv zeta. unfold fetchInfo, read. cbn [provider].
  destruct (call p contractAddress m1 []) as [v1|]; [|cbn; auto].
  destruct (call p contractAddress m2 []) as [v2|];
    [destruct (call p contractAddress m3 []) as [v3|]|];
    cbn; repeat split; simplify_map_eq; reflexivity.
Qed.

Lemma fetchInfo_two (p : Provider) (contractAddress k1 m1 k2 m2 : string) :
  k1 <> k2 ->
  let info := cs_contractInfo (snd (fetchInfo {| provider := Some p |} contractAddress
                                      [(k1, m1); (k2, m2)] emptyState)) in
  let answer method := call p contractAddress method [] in
  info !! k1 = answer m1
  /\ info !! k2 = match answer m1 with Some _ => answer m2 | None => None end.
Proof.
  intros H12. cbv zeta. unfold fetchInfo, read. cbn [provider].
  destruct (call p contractAddress m1 []) as [v1|]; [|cbn; auto].
  destruct (call p contractAddress m2 []) as [v2|];
    cbn; repeat split; simplify_map_eq; reflexivity.
Qed.

Lemma option_fallback_empty (A : Type) (o : option A) (tokenId : string) :
  match o with Some x => Some x | None => (∅ : gmap string A) !! tokenId end = o.
Proof. destruct o; [reflexivity | apply lookup_empty]. Qed.

(** C8 (as the code has it): with a contract type that is unset or not
    one of the three known ones the reader returns empty mappings and
    makes no call.  Otherwise the metadata reads share one [try] block, in
    which a read that fails ends the block: a key is present exactly when
    its read and the reads before it in the block answered, so a failing
    [symbol] read leaves [symbol] absent and also [name] and [decimals].
    No failure reaches the other blocks: the balance of the target
    address and the owner of every wanted token are recorded whenever
    their own read answers. *)
Theorem contract_state_reads (p : Provider) (contractAddress : string)
    (toAddress : option string) (parsedLogs : ParsedLogs) :
  let this := {| provider := Some p |} in
  let result := getContractState this contractAddress toAddress parsedLogs in
  let state := snd result in
  let info := cs_contractInfo state in
  let answer method := call p contractAddress method [] in
  let owner type tokenId :=
    if existsb (wanted type toAddress tokenId) (transfers parsedLogs)
    then call p contractAddress "ownerOf" [tokenId] else None in
  let balance_read :=
    forall to, toAddress = Some to -> to <> "" ->
      balances state !! to
      = option_map value_toString (call p contractAddress "balanceOf" [to]) in
  (contractType parsedLogs = None -> result = ([], emptyState))
  /\ (forall t, contractType parsedLogs = Some t ->
        t <> "ERC20" -> t <> "ERC721" -> t <> "MonadDummyContract" ->
        result = ([], emptyState))
  /\ (contractType parsedLogs = Some "ERC20" ->
        info !! "symbol" = answer "symbol"
        /\ info !! "name" = match answer "symbol" with Some _ => answer "name" | None => None end
        /\ info !! "decimals" = match answer "symbol", answer "name" with
                                | Some _, Some _ => answer "decimals"
                                | _, _ => None
                                end
        /\ balance_read
        /\ ownership state = ∅)
  /\ (contractType parsedLogs = Some "ERC721" ->
        info !! "symbol" = answer "symbol"
        /\ info !! "name" = match answer "symbol" with Some _ => answer "name" | None => None end
        /\ balance_read
        /\ forall tokenId, ownership state !! tokenId = owner "ERC721" tokenId)
  /\ (contractType parsedLogs = Some "MonadDummyContract" ->
        info !! "totalSupply" = answer "getTotalSupply"
        /\ info !! "nextTokenId" = match answer "getTotalSupply" with
                                   | Some _ => answer "getNextTokenId"
                                   | None => None
                                   end
        /\ balance_read
        /\ forall tokenId, ownership state !! tokenId = owner "TokenMinted" tokenId).
Proof.
  cbv zeta. unfold getContractState, hasProvider, Contract_constructs. cbn [provider].
  rewrite orb_true_r. cbn [negb].
  split; [intros ->; reflexivity|].
  split.
  { intros t -> H20 H721 HM.
    apply String.eqb_neq in H20, H721, HM. rewrite H20, H721, HM. reflexivity. }
  split; [|split].
  - intros ->. cbn [String.eqb Ascii.eqb Bool.eqb].
    pose proof (fetchInfo_three p contractAddress "symbol" "symbol" "name" "name"
      "decimals" "decimals" ltac:(discriminate) ltac:(discriminate) ltac:(discriminate))
      as Hinfo.
    pose proof (fetchInfo_frame {| provider := Some p |} contractAddress
      [("symbol", "symbol"); ("name", "name"); ("decimals", "decimals")] emptyState)
      as [Hb1 Ho1].
    cbv zeta in Hinfo.
    destruct (fetchInfo _ _ _ _) as [c1 s1]. cbn [snd] in *.
    pose proof (fetchBalance_frame {| provider := Some p |} contractAddress toAddress s1)
      as [Ho2 Hi2].
    pose proof (fun to => fetchBalance_lookup p contractAddress to s1) as Hbal.
    destruct (fetchBalance _ _ toAddress s1) as [c2 s2] eqn:Hfb. cbn [snd] in *.
    rewrite Hi2. destruct Hinfo as (H1 & H2 & H3).
    repeat (split; [assumption|]). split.
    + intros to -> Hto. specialize (Hbal to Hto). rewrite Hfb in Hbal. cbn [snd] in Hbal.
      rewrite Hbal, Hb1. cbn [emptyState balances].
      destruct (call p contractAddress "balanceOf" [to]); [reflexivity|apply lookup_empty].
    + rewrite Ho2, Ho1. reflexivity.
  - intros ->. cbn [String.eqb Ascii.eqb Bool.eqb].
    pose proof (fetchInfo_two p contractAddress "symbol" "symbol" "name" "name"
      ltac:(discriminate)) as Hinfo.
    pose proof (fetchInfo_frame {| provider := Some p |} contractAddress
      [("symbol", "symbol"); ("name", "name")] emptyState) as [Hb1 Ho1].
    cbv zeta in Hinfo.
    destruct (fetchInfo _ _ _ _) as [c1 s1]. cbn [snd] in *.
    pose proof (fetchOwnership_frame {| provider := Some p |} contractAddress "ERC721"
      toAddress (transfers parsedLogs) s1) as [Hb2 Hi2].
    pose proof (fun tokenId => fetchOwnership_lookup p contractAddress "ERC721" toAddress
      (transfers parsedLogs) s1 tokenId) as Hown.
    destruct (fetchOwnership _ _ _ _ _ s1) as [c2 s2]. cbn [snd] in *.
    pose proof (fetchBalance_frame {| provider := Some p |} contractAddress toAddress s2)
      as [Ho3 Hi3].
    pose proof (fun to => fetchBalance_lookup p contractAddress to s2) as Hbal.
    destruct (fetchBalance _ _ toAddress s2) as [c3 s3] eqn:Hfb. cbn [snd] in *.
    rewrite Hi3, Hi2. destruct Hinfo as (H1 & H2).
    repeat (split; [assumption|]). split.
    + intros to -> Hto. specialize (Hbal to Hto). rewrite Hfb in Hbal. cbn [snd] in Hbal.
      rewrite Hbal, Hb2, Hb1. cbn [emptyState balances].
      destruct (call p contractAddress "balanceOf" [to]); [reflexivity|apply lookup_empty].
    + intros tokenId. rewrite Ho3, Hown, Ho1. cbn [emptyState ownership].
      rewrite option_fallback_empty.
      destruct (existsb _ _); [reflexivity|apply lookup_empty].
  - intros ->. cbn [String.eqb Ascii.eqb Bool.eqb].
    pose proof (fetchInfo_two p contractAddress "totalSupply" "getTotalSupply"
      "nextTokenId" "getNextTokenId" ltac:(discriminate)) as Hinfo.
    pose proof (fetchInfo_frame {| provider := Some p |} contractAddress
      [("totalSupply", "getTotalSupply"); ("nextTokenId", "getNextTokenId")] emptyState)
      as [Hb1 Ho1].
    cbv zeta in Hinfo.
    destruct (fetchInfo _ _ _ _) as [c1 s1]. cbn [snd] in *.
    pose proof (fetchBalance_frame {| provider := Some p |} contractAddress toAddress s1)
      as [Ho2 Hi2].
    pose proof (fun to => fetchBalance_lookup p contractAddress to s1) as Hbal.
    destruct (fetchBalance _ _ toAddress s1) as [c2 s2] eqn:Hfb. cbn [snd] in *.
    pose proof (fetchOwnership_frame {| provider := Some p |} contractAddress "TokenMinted"
      toAddress (transfers parsedLogs) s2) as [Hb3 Hi3].
    pose proof (fun tokenId => fetchOwnership_lookup p contractAddress "TokenMinted"
      toAddress (transfers parsedLogs) s2 tokenId) as Hown.
    destruct (fetchOwnership _ _ _ _ _ s2) as [c3 s3]. cbn [snd] in *.
    rewrite Hi3, Hi2. destruct Hinfo as (H1 & H2).
    repeat (split; [assumption|]). split.
    + intros to -> Hto. specialize (Hbal to Hto). rewrite Hfb in Hbal. cbn [snd] in Hbal.
      rewrite Hb3, Hbal, Hb1. cbn [emptyState balances].
      destruct (call p contractAddress "balanceOf" [to]); [reflexivity|apply lookup_empty].
    + intros tokenId. rewrite Hown, Ho2, Ho1. cbn [emptyState ownership].
      rewrite option_fallback_empty.
      destruct (existsb _ _); [reflexivity|apply lookup_empty].
Qed.

Lemma contract_state_reads_witness :
  let p := SampleTx.provider_no_symbol in
  let parsedLogs := parseLogs true [Sample.log_erc20] Sample.contract in
  let state := snd (getContractState {| provider := Some p |} Sample.contract
                      (Some Sample.bob) parsedLogs) in
  let info := cs_contractInfo state in
  let answer method := call p Sample.contract method [] in
  info !! "symbol" = answer "symbol"
  /\ info !! "name" = match answer "symbol" with Some _ => answer "name" | None => None end
  /\ info !! "decimals" = match answer "symbol", answer "name" with
                          | Some _, Some _ => answer "decimals"
                          | _, _ => None
                          end
  /\ (forall to, Some Sample.bob = Some to -> to <> "" ->
        balances state !! to
        = option_map value_toString (call p Sample.contract "balanceOf" [to]))
  /\ ownership state = ∅.
Proof.
  apply (proj1 (proj2 (proj2
    (contract_state_reads SampleTx.provider_no_symbol Sample.contract (Some Sample.bob)
       (parseLogs true [Sample.log_erc20] Sample.contract))))).
  vm_compute. reflexivity.
Defined.

(** The claim of C8 fails when the [symbol] read fails: the [name] read,
    which would answer, is not attempted and [name] is absent from the
    result.  The balance read is made and recorded. *)
Lemma failing_symbol_skips_name :
  let result := getContractState SampleTx.service Sample.contract (Some Sample.bob)
                  (parseLogs true [Sample.log_erc20] Sample.contract) in
  call SampleTx.provider_no_symbol Sample.contract "name" [] = Some (VString "Token")
  /\ cs_contractInfo (snd result) !! "name" = None
  /\ cs_contractInfo (snd result) !! "symbol" = None
  /\ balances (snd result) !! Sample.bob = Some "7"
  /\ fst result = [ ContractCall Sample.contract "symbol" [];
                    ContractCall Sample.contract "balanceOf" [Sample.bob] ].
Proof. cbv zeta. repeat split; vm_compute; reflexivity. Qed.

(** * Further properties of the service *)

(** ** Whole batches of logs *)

Lemma schema_free_step (parsedLogs : ParsedLogs) (log : RawLog) :
  schema_free parsedLogs -> schema_free (parseLog_step parsedLogs log).
Proof.
  intros (Hf & Hp & Hi & Ht & Hc). unfold parseLog_step, schema_free.
  destruct (classify_cases log) as [H | [(t & H & Htype & _) | (t & H & Htype & _)]];
    rewrite H.
  - destruct (topics log) as [|selector rest]; [repeat split; assumption|].
    cbn [push_unknown failures partialTransfers contractInfo transfers contractType].
    repeat split; try assumption.
    unfold parsed_types in *. cbn [In] in *.
    destruct Hc as [<- | [<- | [<- | [<- | []]]]]; auto.
  - cbn [push_classified failures partialTransfers contractInfo transfers contractType].
    repeat split; try assumption.
    + apply Forall_app. split; [assumption|]. constructor; [auto | constructor].
    + unfold parsed_types. cbn [In]. auto.
  - cbn [push_classified failures partialTransfers contractInfo transfers contractType].
    repeat split; try assumption.
    + apply Forall_app. split; [assumption|]. constructor; [auto | constructor].
    + unfold parsed_types. cbn [In]. auto.
Qed.

Lemma schema_free_fold (logs : list RawLog) (parsedLogs : ParsedLogs) :
  schema_free parsedLogs -> schema_free (fold_left parseLog_step logs parsedLogs).
Proof.
  revert parsedLogs. induction logs as [|log logs IH]; intros parsedLogs H; [exact H|].
  cbn [fold_left]. apply IH, schema_free_step, H.
Qed.

Lemma schema_free_empty : schema_free emptyParsedLogs.
Proof.
  unfold schema_free, emptyParsedLogs, parsed_types. cbn.
  repeat split; auto.
Qed.

Lemma parseLogs_is_schema_free (hp : bool) (logs : list RawLog) (contractAddress : string) :
  schema_free (parseLogs hp logs contractAddress).
Proof.
  unfold parseLogs. destruct (Contract_constructs hp contractAddress).
  - apply schema_free_fold, schema_free_empty.
  - apply schema_free_empty.
Qed.

(** X1: whatever the batch, the bundle of [parseLogs] holds no failure
    and no partial transfer; its transfers are ERC-20 or ERC-721
    transfers, and its contract type is unset, [ERC20], [ERC721] or
    [Unknown], never that of the dispute contract. *)
Theorem parseLogs_schema_free (hp : bool) (logs : list RawLog) (contractAddress : string) :
  let parsedLogs := parseLogs hp logs contractAddress in
  failures parsedLogs = []
  /\ partialTransfers parsedLogs = []
  /\ contractInfo parsedLogs = ∅
  /\ Forall (fun t => tr_type t = "ERC20" \/ tr_type t = "ERC721") (transfers parsedLogs)
  /\ In (contractType parsedLogs) parsed_types
  /\ contractType parsedLogs <> Some "MonadDummyContract".
Proof.
  cbv zeta.
  destruct (parseLogs_is_schema_free hp logs contractAddress) as (Hf & Hp & Hi & Ht & Hc).
  do 5 (split; [assumption|]).
  unfold parsed_types in Hc. cbn [In] in Hc.
  destruct Hc as [<- | [<- | [<- | [<- | []]]]]; discriminate.
Qed.

(** *** One event for each log that has a selector *)

Lemma classify_has_topic (log : RawLog) (c : string * Classified) :
  classify log = Some c -> has_topic log = true.
Proof.
  intros H. unfold has_topic. destruct (topics log) eqn:Ht; [|reflexivity].
  rewrite (classify_no_topics log Ht) in H. discriminate.
Qed.

Lemma event_count_step (parsedLogs : ParsedLogs) (log : RawLog) :
  event_count (parseLog_step parsedLogs log)
  = (event_count parsedLogs + (if has_topic log then 1 else 0))%nat.
Proof.
  unfold parseLog_step, event_count.
  destruct (classify log) as [[t c]|] eqn:Hc.
  - rewrite (classify_has_topic log _ Hc).
    destruct c; cbn [push_classified transfers failures partialTransfers unknownEvents];
      rewrite length_app; cbn [length]; lia.
  - unfold has_topic. destruct (topics log) as [|selector rest]; [lia|].
    cbn [push_unknown transfers failures partialTransfers unknownEvents].
    rewrite length_app. cbn [length]. lia.
Qed.

Lemma event_count_fold (logs : list RawLog) (parsedLogs : ParsedLogs) :
  event_count (fold_left parseLog_step logs parsedLogs)
  = (event_count parsedLogs + length (List.filter has_topic logs))%nat.
Proof.
  revert parsedLogs. induction logs as [|log logs IH]; intros parsedLogs.
  - cbn. lia.
  - cbn [fold_left List.filter]. rewrite IH, event_count_step.
    destruct (has_topic log); cbn [length]; lia.
Qed.

Lemma typed_iff_counted_step (parsedLogs : ParsedLogs) (log : RawLog) :
  (contractType parsedLogs = None <-> event_count parsedLogs = 0%nat) ->
  (contractType (parseLog_step parsedLogs log) = None
   <-> event_count (parseLog_step parsedLogs log) = 0%nat).
Proof.
  intros IH. rewrite event_count_step. unfold parseLog_step.
  destruct (classify log) as [[t c]|] eqn:Hc.
  - rewrite (classify_has_topic log _ Hc).
    destruct c; cbn [push_classified contractType]; split; intros; try discriminate; lia.
  - unfold has_topic. destruct (topics log) as [|selector rest].
    + rewrite Nat.add_0_r. exact IH.
    + cbn [push_unknown contractType].
      destruct (contractType parsedLogs); split; intros; try discriminate; lia.
Qed.

Lemma typed_iff_counted_fold (logs : list RawLog) (parsedLogs : ParsedLogs) :
  (contractType parsedLogs = None <-> event_count parsedLogs = 0%nat) ->
  (contractType (fold_left parseLog_step logs parsedLogs) = None
   <-> event_count (fold_left parseLog_step logs parsedLogs) = 0%nat).
Proof.
  revert parsedLogs. induction logs as [|log logs IH]; intros parsedLogs H; [exact H|].
  cbn [fold_left]. apply IH, typed_iff_counted_step, H.
Qed.

(** X2: when the contract objects can be built, every log that has a
    selector gives exactly one event, a transfer or an unknown event,
    and a log without topics gives none: the events of the bundle are as
    many as the logs with a selector, and the contract type is set
    exactly when there is an event. *)
Theorem parseLogs_one_event_per_log (hp : bool) (logs : list RawLog)
    (contractAddress : string)
    (H : Contract_constructs hp contractAddress = true) :
  let parsedLogs := parseLogs hp logs contractAddress in
  (length (transfers parsedLogs) + length (unknownEvents parsedLogs))%nat
  = length (List.filter has_topic logs)
  /\ event_count parsedLogs = length (List.filter has_topic logs)
  /\ (event_count parsedLogs <= length logs)%nat
  /\ (contractType parsedLogs = None <-> event_count parsedLogs = 0%nat).
Proof.
  cbv zeta.
  destruct (parseLogs_is_schema_free hp logs contractAddress) as (Hf & Hp & _).
  assert (Hcount : event_count (parseLogs hp logs contractAddress)
                   = length (List.filter has_topic logs)).
  { unfold parseLogs. rewrite H, event_count_fold. reflexivity. }
  split; [|split; [exact Hcount|split]].
  - rewrite <- Hcount. unfold event_count. rewrite Hf, Hp. cbn [length]. lia.
  - rewrite Hcount. apply filter_length_le.
  - unfold parseLogs. rewrite H. apply typed_iff_counted_fold.
    cbn. split; reflexivity.
Qed.

Lemma parseLogs_one_event_per_log_witness :
  let logs := [Sample.log_erc20; Sample.log_no_topics; Sample.log_TransferFailed;
               Sample.log_erc721; Sample.log_mixed_payload] in
  let parsedLogs := parseLogs true logs Sample.contract in
  (length (transfers parsedLogs) + length (unknownEvents parsedLogs))%nat
  = length (List.filter has_topic logs)
  /\ event_count parsedLogs = length (List.filter has_topic logs)
  /\ (event_count parsedLogs <= length logs)%nat
  /\ (contractType parsedLogs = None <-> event_count parsedLogs = 0%nat).
Proof.
  apply (parseLogs_one_event_per_log true _ Sample.contract). reflexivity.
Defined.

(** *** Batches in pieces *)

Lemma transfers_step (parsedLogs : ParsedLogs) (log : RawLog) :
  transfers (parseLog_step parsedLogs log) = transfers parsedLogs ++ transfers_of log.
Proof.
  unfold parseLog_step, transfers_of.
  destruct (classify_cases log) as [H | [(t & H & _) | (t & H & _)]]; rewrite H.
  - rewrite app_nil_r. destruct (topics log); reflexivity.
  - reflexivity.
  - reflexivity.
Qed.

Lemma unknownEvents_step (parsedLogs : ParsedLogs) (log : RawLog) :
  unknownEvents (parseLog_step parsedLogs log)
  = unknownEvents parsedLogs ++ unknownEvents_of log.
Proof.
  unfold parseLog_step, unknownEvents_of.
  destruct (classify_cases log) as [H | [(t & H & _) | (t & H & _)]]; rewrite H.
  - destruct (topics log); [rewrite app_nil_r|]; reflexivity.
  - rewrite app_nil_r. reflexivity.
  - rewrite app_nil_r. reflexivity.
Qed.

Lemma events_fold (logs : list RawLog) (parsedLogs : ParsedLogs) :
  transfers (fold_left parseLog_step logs parsedLogs)
  = transfers parsedLogs ++ flat_map transfers_of logs
  /\ unknownEvents (fold_left parseLog_step logs parsedLogs)
     = unknownEvents parsedLogs ++ flat_map unknownEvents_of logs.
Proof.
  revert parsedLogs. induction logs as [|log logs IH]; intros parsedLogs.
  - cbn. rewrite !app_nil_r. auto.
  - cbn [fold_left flat_map]. destruct (IH (parseLog_step parsedLogs log)) as [Ht Hu].
    rewrite Ht, Hu, transfers_step, unknownEvents_step, <- !app_assoc. auto.
Qed.

Lemma parseLogs_events (hp : bool) (logs : list RawLog) (contractAddress : string) :
  transfers (parseLogs hp logs contractAddress)
  = (if Contract_constructs hp contractAddress then flat_map transfers_of logs else [])
  /\ unknownEvents (parseLogs hp logs contractAddress)
     = (if Contract_constructs hp contractAddress
        then flat_map unknownEvents_of logs else []).
Proof.
  unfold parseLogs. destruct (Contract_constructs hp contractAddress).
  - destruct (events_fold logs emptyParsedLogs) as [Ht Hu]. rewrite Ht, Hu. auto.
  - auto.
Qed.

Lemma transfers_of_logIndex (logs : list RawLog) :
  sublist (map tr_logIndex (flat_map transfers_of logs)) (map logIndex logs).
Proof.
  induction logs as [|log logs IH]; [constructor|].
  cbn [flat_map map]. unfold transfers_of at 1.
  destruct (classify_cases log) as [H | [(t & H & _ & Hi) | (t & H & _ & Hi)]]; rewrite H.
  - apply sublist_cons, IH.
  - cbn [app map]. rewrite Hi. apply sublist_skip, IH.
  - cbn [app map]. rewrite Hi. apply sublist_skip, IH.
Qed.

Lemma unknownEvent_logIndex (log : RawLog) (selector : string) (rest : list string) :
  ue_logIndex (unknownEvent log selector rest) = logIndex log.
Proof.
  unfold unknownEvent.
  destruct (is_address _ && is_address _); [|destruct (is_address _)]; reflexivity.
Qed.

Lemma unknownEvents_of_logIndex (logs : list RawLog) :
  sublist (map ue_logIndex (flat_map unknownEvents_of logs)) (map logIndex logs).
Proof.
  induction logs as [|log logs IH]; [constructor|].
  cbn [flat_map map]. unfold unknownEvents_of at 1.
  destruct (classify log) as [c|]; [apply sublist_cons, IH|].
  destruct (topics log) as [|selector rest]; [apply sublist_cons, IH|].
  cbn [app map]. rewrite unknownEvent_logIndex. apply sublist_skip, IH.
Qed.

(** X3: the events of a batch are those of its pieces, one after the
    other: what a log gives does not depend on the logs before it.  The
    transfers and the unknown events keep the order of the batch: their
    log indices are a subsequence of those of the logs. *)
Theorem parseLogs_batches (hp : bool) (logs1 logs2 : list RawLog) (contractAddress : string) :
  transfers (parseLogs hp (logs1 ++ logs2) contractAddress)
  = transfers (parseLogs hp logs1 contractAddress)
    ++ transfers (parseLogs hp logs2 contractAddress)
  /\ unknownEvents (parseLogs hp (logs1 ++ logs2) contractAddress)
     = unknownEvents (parseLogs hp logs1 contractAddress)
       ++ unknownEvents (parseLogs hp logs2 contractAddress)
  /\ sublist (map tr_logIndex (transfers (parseLogs hp logs1 contractAddress)))
             (map logIndex logs1)
  /\ sublist (map ue_logIndex (unknownEvents (parseLogs hp logs1 contractAddress)))
             (map logIndex logs1).
Proof.
  destruct (parseLogs_events hp (logs1 ++ logs2) contractAddress) as [Ht Hu].
  destruct (parseLogs_events hp logs1 contractAddress) as [Ht1 Hu1].
  destruct (parseLogs_events hp logs2 contractAddress) as [Ht2 Hu2].
  rewrite Ht, Hu, Ht1, Hu1, Ht2, Hu2.
  destruct (Contract_constructs hp contractAddress).
  - rewrite !flat_map_app.
    repeat split; auto using transfers_of_logIndex, unknownEvents_of_logIndex.
  - repeat split; auto; apply sublist_nil_l.
Qed.

(** *** The emitter of a log *)

Lemma parseLog_step_same_event (parsedLogs : ParsedLogs) (log1 log2 : RawLog) :
  same_event log1 log2 -> parseLog_step parsedLogs log1 = parseLog_step parsedLogs log2.
Proof.
  intros (Ht & Hd & Hi).
  destruct log1 as [a1 t1 d1 i1], log2 as [a2 t2 d2 i2]. cbn in Ht, Hd, Hi. subst.
  reflexivity.
Qed.

Lemma fold_same_event (logs1 logs2 : list RawLog) (parsedLogs : ParsedLogs) :
  Forall2 same_event logs1 logs2 ->
  fold_left parseLog_step logs1 parsedLogs = fold_left parseLog_step logs2 parsedLogs.
Proof.
  intros H. revert parsedLogs.
  induction H as [|log1 log2 logs1 logs2 Hs _ IH]; intros parsedLogs; [reflexivity|].
  cbn [fold_left]. rewrite (parseLog_step_same_event _ _ _ Hs). apply IH.
Qed.

(** X4: the bundle does not depend on who emitted a log, nor on the
    contract address the logs are parsed for, as long as the contract
    objects can be built for it: the logs of every contract of the
    receipt are reported alike. *)
Theorem parseLogs_ignores_emitter (hp : bool) (logs1 logs2 : list RawLog)
    (contractAddress1 contractAddress2 : string)
    (Hlogs : Forall2 same_event logs1 logs2)
    (H1 : Contract_constructs hp contractAddress1 = true)
    (H2 : Contract_constructs hp contractAddress2 = true) :
  parseLogs hp logs1 contractAddress1 = parseLogs hp logs2 contractAddress2.
Proof.
  unfold parseLogs. rewrite H1, H2. apply fold_same_event, Hlogs.
Qed.

Lemma parseLogs_ignores_emitter_witness :
  parseLogs false [Sample.log_erc20] Sample.contract
  = parseLogs false [log_erc20_elsewhere] Sample.bob.
Proof.
  apply parseLogs_ignores_emitter.
  - constructor; [|constructor]. repeat split.
  - reflexivity.
  - reflexivity.
Defined.

(** ** The retry loop of the receipt *)

Lemma receipt_loop_success {R E : Type} (answers : nat -> E + R) (maxRetries d : nat) :
  forall fuel retries receipt,
    (retries + d < maxRetries)%nat ->
    (d < fuel)%nat ->
    all_fail answers retries d ->
    answers (retries + d)%nat = inr receipt ->
    getTransactionReceipt_loop answers maxRetries fuel retries
    = (failed_rounds d ++ [Attempt], Returned receipt).
Proof.
  induction d as [|d IH]; intros fuel retries receipt Hlt Hfuel Hfail Hans.
  - destruct fuel as [|fuel]; [lia|]. cbn [getTransactionReceipt_loop].
    rewrite Nat.add_0_r in Hans.
    destruct (Nat.ltb_spec retries maxRetries); [|lia].
    rewrite Hans. reflexivity.
  - destruct fuel as [|fuel]; [lia|]. cbn [getTransactionReceipt_loop].
    destruct (Nat.ltb_spec retries maxRetries); [|lia].
    destruct (Hfail retries) as [error Herr]; [lia|]. rewrite Herr.
    destruct (Nat.leb_spec maxRetries (S retries)); [lia|].
    rewrite (IH fuel (S retries) receipt); [reflexivity | lia | lia | |].
    + intros j Hj. apply Hfail. lia.
    + rewrite <- Hans. f_equal. lia.
Qed.

Lemma receipt_loop_failure {R E : Type} (answers : nat -> E + R) (maxRetries d : nat) :
  forall fuel retries error,
    (retries + d + 1 = maxRetries)%nat ->
    (d < fuel)%nat ->
    all_fail answers retries d ->
    answers (retries + d)%nat = inl error ->
    getTransactionReceipt_loop answers maxRetries fuel retries
    = (failed_rounds d ++ [Attempt], Rethrown error).
Proof.
  induction d as [|d IH]; intros fuel retries error Hlt Hfuel Hfail Hans.
  - destruct fuel as [|fuel]; [lia|]. cbn [getTransactionReceipt_loop].
    rewrite Nat.add_0_r in Hans.
    destruct (Nat.ltb_spec retries maxRetries); [|lia].
    rewrite Hans.
    destruct (Nat.leb_spec maxRetries (S retries)); [reflexivity | lia].
  - destruct fuel as [|fuel]; [lia|]. cbn [getTransactionReceipt_loop].
    destruct (Nat.ltb_spec retries maxRetries); [|lia].
    destruct (Hfail retries) as [error' Herr]; [lia|]. rewrite Herr.
    destruct (Nat.leb_spec maxRetries (S retries)); [lia|].
    rewrite (IH fuel (S retries) error); [reflexivity | lia | lia | |].
    + intros j Hj. apply Hfail. lia.
    + rewrite <- Hans. f_equal. lia.
Qed.

Lemma receipt_loop_bounded {R E : Type} (answers : nat -> E + R) (maxRetries : nat) :
  forall fuel retries,
    (maxRetries - retries < fuel)%nat ->
    let result := getTransactionReceipt_loop answers maxRetries fuel retries in
    snd result <> FetchOutOfFuel
    /\ (length (List.filter is_attempt (fst result)) <= maxRetries - retries)%nat
    /\ Forall (fun e => e = Attempt \/ e = Sleep 1000) (fst result).
Proof.
  induction fuel as [|fuel IH]; intros retries Hfuel; [lia|].
  cbn [getTransactionReceipt_loop].
  destruct (Nat.ltb_spec retries maxRetries) as [Hlt|Hge].
  - destruct (answers retries) as [error|receipt].
    + destruct (Nat.leb_spec maxRetries (S retries)).
      * cbn. repeat split; [discriminate | lia | auto].
      * destruct (IH (S retries)) as (Hr & Hn & Hall); [lia|].
        destruct (getTransactionReceipt_loop answers maxRetries fuel (S retries))
          as [events result].
        cbn [fst snd] in *. cbn [List.filter is_attempt length].
        repeat split; [exact Hr | lia | auto].
    + cbn. repeat split; [discriminate | lia | auto].
  - cbn. repeat split; [discriminate | lia | constructor].
Qed.

(** X5: [getTransactionReceipt] asks the provider until an attempt
    answers, at most [maxRetries] times, with a pause of one second after
    each failed attempt but the last.  It returns the first answer it
    gets, the [null] of a transaction that is not mined included; when all
    [maxRetries] attempts fail it raises the exception of the last one;
    with no attempt allowed it returns [undefined] without asking.  The
    loop always ends. *)
Theorem getTransactionReceipt_retry_policy {R E : Type} (answers : nat -> E + R)
    (maxRetries : nat) :
  (forall k receipt,
      (k < maxRetries)%nat -> all_fail answers 0 k -> answers k = inr receipt ->
      getTransactionReceipt answers maxRetries
      = (failed_rounds k ++ [Attempt], Returned receipt))
  /\ (forall k error,
        maxRetries = S k -> all_fail answers 0 k -> answers k = inl error ->
        getTransactionReceipt answers maxRetries
        = (failed_rounds k ++ [Attempt], Rethrown error))
  /\ (maxRetries = 0%nat ->
      getTransactionReceipt answers maxRetries = ([], ReturnedUndefined))
  /\ snd (getTransactionReceipt answers maxRetries) <> FetchOutOfFuel
  /\ (length (List.filter is_attempt (fst (getTransactionReceipt answers maxRetries)))
      <= maxRetries)%nat
  /\ Forall (fun e => e = Attempt \/ e = Sleep 1000)
            (fst (getTransactionReceipt answers maxRetries)).
Proof.
  unfold getTransactionReceipt. split; [|split; [|split]].
  - intros k receipt Hk Hfail Hans.
    apply receipt_loop_success; [lia | lia | exact Hfail | exact Hans].
  - intros k error Hk Hfail Hans.
    apply receipt_loop_failure; [lia | lia | exact Hfail | exact Hans].
  - intros ->. reflexivity.
  - destruct (receipt_loop_bounded answers maxRetries (S maxRetries) 0) as (Hr & Hn & Hall);
      [lia|].
    rewrite Nat.sub_0_r in Hn. auto.
Qed.

Lemma getTransactionReceipt_retry_policy_witness :
  getTransactionReceipt
    (fun k => if (k <? 2)%nat then inl "timeout" else inr (Some SampleTx.receipt_ok)) 3
  = ([Attempt; Sleep 1000; Attempt; Sleep 1000; Attempt], Returned (Some SampleTx.receipt_ok)).
Proof.
  apply (proj1 (getTransactionReceipt_retry_policy
                  (fun k => if (k <? 2)%nat then inl "timeout"
                            else inr (Some SampleTx.receipt_ok)) 3) 2%nat).
  - lia.
  - intros j Hj. exists "timeout". destruct j as [|[|j]]; [reflexivity | reflexivity | lia].
  - reflexivity.
Defined.

(** ** The value and the patterns of the analysis *)

Lemma analyzeEvent_tags (patterns : list string) (valueTransferred : string)
    (e : UnknownEvent) :
  analyzeEvent (patterns, valueTransferred) e
  = (patterns ++ event_tags e,
     if heuristic_transfer e then default "" (ue_amount e) else valueTransferred).
Proof.
  unfold analyzeEvent, event_tags, heuristic_transfer.
  destruct (String.eqb (ue_type e) "Transfer" && truthy (ue_amount e)); [reflexivity|].
  destruct (String.eqb (ue_type e) "SingleAddress"); [reflexivity|].
  rewrite app_nil_r. reflexivity.
Qed.

Lemma analyzeEvent_fold_value (events : list UnknownEvent) (patterns : list string)
    (valueTransferred : string) :
  fold_left analyzeEvent events (patterns, valueTransferred)
  = (patterns ++ flat_map event_tags events,
     default valueTransferred (last (transfer_amounts events))).
Proof.
  revert patterns valueTransferred.
  induction events as [|e events IH]; intros patterns valueTransferred.
  - cbn. rewrite app_nil_r. reflexivity.
  - cbn [fold_left flat_map]. rewrite analyzeEvent_tags, IH, <- app_assoc. f_equal.
    unfold transfer_amounts. cbn [flat_map]. fold (transfer_amounts events).
    destruct (heuristic_transfer e); [|reflexivity].
    cbn [app]. rewrite last_cons.
    destruct (last (transfer_amounts events)); reflexivity.
Qed.

(** X6: the value the analysis reports is the amount of the last unknown
    event of the shape of a transfer, whatever the transaction itself
    carries; only without such an event is it the value of the
    transaction, or zero.  The patterns are the tag of the carried value
    followed by one tag for each unknown event that has one, in order, and
    [eventsEmitted] counts the unknown events only. *)
Theorem analysis_value_and_patterns (transaction : Transaction) (receipt : Receipt)
    (parsedLogs : ParsedLogs) :
  let analysis := analyzeTransactionPattern transaction receipt parsedLogs in
  valueTransferred analysis
  = default (carried_value transaction)
            (last (transfer_amounts (unknownEvents parsedLogs)))
  /\ patterns analysis
     = (if hasValue transaction then ["ETH_TRANSFER"] else [])
       ++ flat_map event_tags (unknownEvents parsedLogs)
  /\ eventsEmitted analysis = length (unknownEvents parsedLogs).
Proof.
  cbv zeta. unfold analyzeTransactionPattern, carried_value.
  destruct (hasValue transaction); rewrite analyzeEvent_fold_value;
    cbn [valueTransferred patterns eventsEmitted]; repeat split.
Qed.

(** A call that pays 7 units and whose receipt holds the failure event
    of scenario A is reported with the amount of that event. *)
Lemma paid_call_reports_event_amount :
  let analysis :=
    analyzeTransactionPattern paid_call SampleTx.receipt_ok
      (parseLogs true [Sample.log_TransferFailed] Sample.contract) in
  carried_value paid_call = "7"
  /\ valueTransferred analysis = "1500"
  /\ transactionType analysis = "contract_eth_transfer".
Proof. cbv zeta. repeat split; vm_compute; reflexivity. Qed.

(** ** The contract state of a parsed batch *)

Lemma reads_only_app (methods : list string) (c1 c2 : list RpcCall) :
  reads_only methods c1 -> reads_only methods c2 -> reads_only methods (c1 ++ c2).
Proof. intros H1 H2. apply Forall_app. auto. Qed.

Lemma read_reads_only (this : Service) (contractAddress method : string)
    (args : list string) (methods : list string) :
  existsb (String.eqb method) methods = true ->
  reads_only methods (fst (read this contractAddress method args)).
Proof.
  intros H. unfold read. destruct (provider this); cbn [fst]; [|constructor].
  constructor; [exact H | constructor].
Qed.

Lemma fetchInfo_reads_only (this : Service) (contractAddress : string)
    (fields : list (string * string)) (state : ContractState) (methods : list string) :
  forallb (fun f => existsb (String.eqb (snd f)) methods) fields = true ->
  reads_only methods (fst (fetchInfo this contractAddress fields state)).
Proof.
  revert state. induction fields as [|[key method] fields IH]; intros state H;
    [constructor|].
  cbn [forallb snd] in H. apply andb_true_iff in H as [Hm Hrest].
  cbn [fetchInfo].
  pose proof (read_reads_only this contractAddress method [] methods Hm) as Hr.
  destruct (read this contractAddress method []) as [calls [v|]]; cbn [fst] in Hr.
  - specialize (IH (set_contractInfo key v state) Hrest).
    destruct (fetchInfo this contractAddress fields _) as [calls' state'].
    cbn [fst] in *. apply reads_only_app; assumption.
  - exact Hr.
Qed.

Lemma fetchInfo_other_key (this : Service) (contractAddress : string)
    (fields : list (string * string)) (state : ContractState) (key : string) :
  forallb (fun f => negb (String.eqb (fst f) key)) fields = true ->
  cs_contractInfo (snd (fetchInfo this contractAddress fields state)) !! key
  = cs_contractInfo state !! key.
Proof.
  revert state. induction fields as [|[k method] fields IH]; intros state H; [reflexivity|].
  cbn [forallb fst] in H. apply andb_true_iff in H as [Hk Hrest].
  apply negb_true_iff, String.eqb_neq in Hk.
  cbn [fetchInfo].
  destruct (read this contractAddress method []) as [calls [v|]]; [|reflexivity].
  specialize (IH (set_contractInfo k v state) Hrest).
  destruct (fetchInfo this contractAddress fields _) as [calls' state'].
  cbn [snd] in *. rewrite IH. cbn [set_contractInfo cs_contractInfo].
  apply lookup_insert_ne. exact Hk.
Qed.

Lemma fetchBalance_reads_only (this : Service) (contractAddress : string)
    (toAddress : option string) (state : ContractState) :
  reads_only ["balanceOf"] (fst (fetchBalance this contractAddress toAddress state)).
Proof.
  unfold fetchBalance. destruct toAddress as [to|]; [|constructor].
  destruct (String.eqb to ""); [constructor|].
  pose proof (read_reads_only this contractAddress "balanceOf" [to] ["balanceOf"] eq_refl)
    as Hr.
  destruct (read this contractAddress "balanceOf" [to]) as [calls [v|]]; exact Hr.
Qed.

Lemma fetchOwnership_reads_only (this : Service) (contractAddress type : string)
    (toAddress : option string) (transfers : list Transfer) (state : ContractState) :
  reads_only ["ownerOf"]
    (fst (fetchOwnership this contractAddress type toAddress transfers state)).
Proof.
  revert state. induction transfers as [|transfer transfers IH]; intros state;
    [constructor|].
  cbn [fetchOwnership].
  destruct (String.eqb (tr_type transfer) type && is_toAddress (tr_to transfer) toAddress).
  - destruct (tr_tokenId transfer) as [tokenId|].
    + pose proof (read_reads_only this contractAddress "ownerOf" [tokenId] ["ownerOf"]
                    eq_refl) as Hr.
      destruct (read this contractAddress "ownerOf" [tokenId]) as [calls [v|]];
        cbn [fst] in Hr.
      * specialize (IH (set_ownership tokenId v state)).
        destruct (fetchOwnership _ _ _ _ _ _) as [calls' state'].
        apply reads_only_app; assumption.
      * specialize (IH state).
        destruct (fetchOwnership _ _ _ _ _ _) as [calls' state'].
        apply reads_only_app; assumption.
    + specialize (IH state).
      destruct (fetchOwnership _ _ _ _ _ _) as [calls' state']. exact IH.
  - specialize (IH state).
    destruct (fetchOwnership _ _ _ _ _ _) as [calls' state']. exact IH.
Qed.

Lemma reads_only_weaken (methods methods' : list string) (calls : list RpcCall) :
  forallb (fun m => existsb (String.eqb m) methods') methods = true ->
  reads_only methods calls -> reads_only methods' calls.
Proof.
  intros Hsub H. unfold reads_only in *.
  eapply Forall_impl; [exact H|]. intros c Hc. cbv beta in *.
  destruct (method_of c) as [method|]; [|exact Hc].
  apply existsb_exists in Hc as (m & Hin & Hm). apply String.eqb_eq in Hm. subst m.
  rewrite forallb_forall in Hsub. apply Hsub, Hin.
Qed.

Lemma fetchOwnership_no_target (this : Service) (contractAddress type : string)
    (transfers : list Transfer) (state : ContractState) :
  fetchOwnership this contractAddress type None transfers state = ([], state).
Proof.
  induction transfers as [|transfer transfers IH]; [reflexivity|].
  cbn [fetchOwnership]. unfold is_toAddress at 1. rewrite andb_false_r, IH. reflexivity.
Qed.

Lemma typed_state (this : Service) (contractAddress : string)
    (toAddress : option string) (parsedLogs : ParsedLogs) :
  In (contractType parsedLogs) parsed_types ->
  let result := getContractState this contractAddress toAddress parsedLogs in
  reads_only token_methods (fst result)
  /\ cs_contractInfo (snd result) !! "totalSupply" = None
  /\ cs_contractInfo (snd result) !! "nextTokenId" = None
  /\ (toAddress = None ->
      reads_only ["symbol"; "name"; "decimals"] (fst result)
      /\ balances (snd result) = ∅ /\ ownership (snd result) = ∅).
Proof.
  intros Hc. cbv zeta. unfold getContractState.
  destruct (negb (Contract_constructs (hasProvider this) contractAddress)).
  { cbn. repeat split; constructor. }
  unfold parsed_types in Hc. cbn [In] in Hc.
  destruct Hc as [<- | [<- | [<- | [<- | []]]]].
  - cbn. repeat split; constructor.
  - simpl (String.eqb _ _). cbv iota.
    set (fields := [("symbol", "symbol"); ("name", "name"); ("decimals", "decimals")]).
    pose proof (fetchInfo_reads_only this contractAddress fields emptyState
                  ["symbol"; "name"; "decimals"] eq_refl) as Hr1.
    pose proof (fetchInfo_other_key this contractAddress fields emptyState "totalSupply"
                  eq_refl) as Ht.
    pose proof (fetchInfo_other_key this contractAddress fields emptyState "nextTokenId"
                  eq_refl) as Hn.
    destruct (fetchInfo_frame this contractAddress fields emptyState) as [Hb Ho].
    destruct (fetchInfo this contractAddress fields emptyState) as [c1 s1].
    cbn [fst snd] in *.
    pose proof (fetchBalance_reads_only this contractAddress toAddress s1) as Hr2.
    destruct (fetchBalance_frame this contractAddress toAddress s1) as [Ho2 Hi2].
    destruct (fetchBalance this contractAddress toAddress s1) as [c2 s2] eqn:Hfb.
    cbn [fst snd] in *.
    split; [|split; [|split]].
    + apply reads_only_app.
      * eapply reads_only_weaken; [|exact Hr1]. reflexivity.
      * eapply reads_only_weaken; [|exact Hr2]. reflexivity.
    + rewrite Hi2. exact Ht.
    + rewrite Hi2. exact Hn.
    + intros ->. cbn in Hfb. injection Hfb as <- <-.
      rewrite app_nil_r. auto.
  - simpl (String.eqb _ _). cbv iota.
    set (fields := [("symbol", "symbol"); ("name", "name")]).
    pose proof (fetchInfo_reads_only this contractAddress fields emptyState
                  ["symbol"; "name"; "decimals"] eq_refl) as Hr1.
    pose proof (fetchInfo_other_key this contractAddress fields emptyState "totalSupply"
                  eq_refl) as Ht.
    pose proof (fetchInfo_other_key this contractAddress fields emptyState "nextTokenId"
                  eq_refl) as Hn.
    destruct (fetchInfo_frame this contractAddress fields emptyState) as [Hb Ho].
    destruct (fetchInfo this contractAddress fields emptyState) as [c1 s1].
    cbn [fst snd] in *.
    pose proof (fetchOwnership_reads_only this contractAddress "ERC721" toAddress
                  (transfers parsedLogs) s1) as Hr2.
    destruct (fetchOwnership_frame this contractAddress "ERC721" toAddress
                (transfers parsedLogs) s1) as [Hb2 Hi2].
    destruct (fetchOwnership this contractAddress "ERC721" toAddress
                (transfers parsedLogs) s1) as [c2 s2] eqn:Hfo.
    cbn [fst snd] in *.
    pose proof (fetchBalance_reads_only this contractAddress toAddress s2) as Hr3.
    destruct (fetchBalance_frame this contractAddress toAddress s2) as [Ho3 Hi3].
    destruct (fetchBalance this contractAddress toAddress s2) as [c3 s3] eqn:Hfb.
    cbn [fst snd] in *.
    split; [|split; [|split]].
    + apply reads_only_app; [|apply reads_only_app].
      * eapply reads_only_weaken; [|exact Hr1]. reflexivity.
      * eapply reads_only_weaken; [|exact Hr2]. reflexivity.
      * eapply reads_only_weaken; [|exact Hr3]. reflexivity.
    + rewrite Hi3, Hi2. exact Ht.
    + rewrite Hi3, Hi2. exact Hn.
    + intros ->. rewrite fetchOwnership_no_target in Hfo. injection Hfo as <- <-.
      cbn in Hfb. injection Hfb as <- <-.
      rewrite !app_nil_r. auto.
  - cbn. repeat split; constructor.
Qed.

(** X7: the state read for a bundle of [parseLogs] never includes the
    supply or the next token id of the dispute contract, and every read
    is one of [symbol], [name], [decimals], [balanceOf] and [ownerOf].
    Without a target address only the description of the token is read:
    no balance and no owner is recorded. *)
Theorem parsed_batch_state (this : Service) (contractAddress : string)
    (toAddress : option string) (hp : bool) (logs : list RawLog) (parsedFor : string) :
  let result :=
    getContractState this contractAddress toAddress (parseLogs hp logs parsedFor) in
  reads_only token_methods (fst result)
  /\ cs_contractInfo (snd result) !! "totalSupply" = None
  /\ cs_contractInfo (snd result) !! "nextTokenId" = None
  /\ (toAddress = None ->
      reads_only ["symbol"; "name"; "decimals"] (fst result)
      /\ balances (snd result) = ∅ /\ ownership (snd result) = ∅).
Proof.
  apply typed_state.
  destruct (parseLogs_is_schema_free hp logs parsedFor) as (_ & _ & _ & _ & Hc).
  exact Hc.
Qed.

(** ** Normalised addresses *)

Lemma lower_of_digit (c : ascii) :
  Hex.is_digit c = true -> lower_hex_digit (JS.lower_char c) = true.
Proof.
  destruct c as [[] [] [] [] [] [] [] []]; vm_compute; intros H;
    first [reflexivity | discriminate H].
Qed.

Lemma lower_char_fixed (c : ascii) :
  lower_hex_digit c = true -> JS.lower_char c = c.
Proof.
  destruct c as [[] [] [] [] [] [] [] []]; vm_compute; intros H;
    first [reflexivity | discriminate H].
Qed.

Lemma lower_upper_char (c : ascii) :
  lower_hex_digit c = true ->
  JS.lower_char (JS.upper_char c) = c /\ Hex.is_digit (JS.upper_char c) = true.
Proof.
  destruct c as [[] [] [] [] [] [] [] []]; vm_compute; intros H;
    first [split; reflexivity | discriminate H].
Qed.

Lemma digit_of_lower (c : ascii) :
  lower_hex_digit c = true -> Hex.is_digit c = true.
Proof.
  unfold lower_hex_digit. intros H. apply andb_true_iff in H. tauto.
Qed.

Lemma toLowerCase_lower (s : string) :
  JS.all_chars Hex.is_digit s = true ->
  JS.all_chars lower_hex_digit (JS.toLowerCase s) = true.
Proof.
  induction s as [|c s IH]; cbn; intros H; [reflexivity|].
  apply andb_true_iff in H as [Hc Hs].
  rewrite (lower_of_digit c Hc). cbn. apply IH, Hs.
Qed.

Lemma toLowerCase_fixed (s : string) :
  JS.all_chars lower_hex_digit s = true -> JS.toLowerCase s = s.
Proof.
  induction s as [|c s IH]; cbn; intros H; [reflexivity|].
  apply andb_true_iff in H as [Hc Hs].
  rewrite (lower_char_fixed c Hc). f_equal. apply IH, Hs.
Qed.

Lemma length_toLowerCase (s : string) :
  String.length (JS.toLowerCase s) = String.length s.
Proof. induction s as [|c s IH]; cbn; [reflexivity | f_equal; exact IH]. Qed.

Lemma checksum_chars_facts (chars : string) (ns : list Z) :
  JS.all_chars lower_hex_digit chars = true ->
  String.length (checksum_chars chars ns) = String.length chars
  /\ JS.all_chars Hex.is_digit (checksum_chars chars ns) = true
  /\ JS.toLowerCase (checksum_chars chars ns) = chars.
Proof.
  revert ns. induction chars as [|c chars IH]; intros ns H.
  - destruct ns; cbn; auto.
  - cbn in H. apply andb_true_iff in H as [Hc Hs].
    destruct ns as [|n ns].
    + cbn [checksum_chars]. repeat split.
      * cbn. rewrite (digit_of_lower c Hc). cbn.
        apply all_digits_of_lower, Hs.
      * apply toLowerCase_fixed. cbn. rewrite Hc. exact Hs.
    + destruct (IH ns Hs) as (Hlen & Hdig & Hlow).
      destruct (lower_upper_char c Hc) as [Hlu Hdu].
      cbn [checksum_chars]. repeat split.
      * cbn. f_equal. exact Hlen.
      * cbn. rewrite Hdig, andb_true_r.
        destruct (8 <=? n); [exact Hdu | exact (digit_of_lower c Hc)].
      * change (String (JS.lower_char (if 8 <=? n then JS.upper_char c else c))
                       (JS.toLowerCase (checksum_chars chars ns)) = String c chars).
        rewrite Hlow. f_equal.
        destruct (8 <=? n); [exact Hlu | exact (lower_char_fixed c Hc)].
Qed.

Lemma getChecksumAddress_prefix (body : string) :
  getChecksumAddress ("0x" ++ body)%string
  = ("0x" ++ checksum_chars (JS.toLowerCase body)
               (nibbles (Keccak.digest (Keccak.bytes_of_string (JS.toLowerCase body)))))%string.
Proof. reflexivity. Qed.

(** What [getAddress] accepts, and what it then returns. *)
Lemma getAddress_accepts (address r : string) :
  getAddress address = Some r ->
  exists body,
    with_prefix address = ("0x" ++ body)%string
    /\ String.length body = 40%nat
    /\ JS.all_chars Hex.is_digit body = true
    /\ r = getChecksumAddress ("0x" ++ body)%string.
Proof.
  unfold getAddress, with_prefix. intros H.
  destruct (JS.startsWith "0x" address) eqn:Hp.
  - exists (JS.slice_from 2 address).
    assert (Haddr : address = ("0x" ++ JS.slice_from 2 address)%string).
    { unfold JS.startsWith in Hp. apply String.eqb_eq in Hp.
      destruct address as [|a [|b rest]]; cbn in Hp; try discriminate.
      injection Hp as -> ->. reflexivity. }
    destruct ((String.length (JS.slice_from 2 address) =? 40)%nat
              && JS.all_chars Hex.is_digit (JS.slice_from 2 address)) eqn:Hok;
      [|discriminate].
    apply andb_true_iff in Hok as [Hlen Hdig]. apply Nat.eqb_eq in Hlen.
    repeat split; [exact Haddr | exact Hlen | exact Hdig |].
    destruct (mixed_case _ && negb _); [discriminate|]. congruence.
  - exists address.
    destruct ((String.length address =? 40)%nat && JS.all_chars Hex.is_digit address)
      eqn:Hok; [|discriminate].
    apply andb_true_iff in Hok as [Hlen Hdig]. apply Nat.eqb_eq in Hlen.
    repeat split; [exact Hlen | exact Hdig |].
    destruct (mixed_case _ && negb _); [discriminate|]. congruence.
Qed.

Lemma getAddress_prefixed (body : string) :
  getAddress ("0x" ++ body)%string
  = if (String.length body =? 40)%nat && JS.all_chars Hex.is_digit body
    then if mixed_case ("0x" ++ body)%string
            && negb (String.eqb (getChecksumAddress ("0x" ++ body)%string)
                                ("0x" ++ body)%string)
         then None
         else Some (getChecksumAddress ("0x" ++ body)%string)
    else None.
Proof. reflexivity. Qed.

(** A checksummed address is accepted as it is. *)
Lemma getAddress_checksummed (body : string) :
  String.length body = 40%nat ->
  JS.all_chars Hex.is_digit body = true ->
  getAddress (getChecksumAddress ("0x" ++ body)%string)
  = Some (getChecksumAddress ("0x" ++ body)%string).
Proof.
  intros Hlen Hdig. rewrite getChecksumAddress_prefix.
  set (L := JS.toLowerCase body).
  set (ns := nibbles (Keccak.digest (Keccak.bytes_of_string L))).
  assert (HL : JS.all_chars lower_hex_digit L = true) by (apply toLowerCase_lower, Hdig).
  destruct (checksum_chars_facts L ns HL) as (Clen & Cdig & Clow).
  rewrite getAddress_prefixed, Clen. unfold L at 1.
  rewrite length_toLowerCase, Hlen, Cdig. cbn [Nat.eqb andb].
  rewrite getChecksumAddress_prefix, Clow. fold ns.
  rewrite String.eqb_refl. cbn [negb]. rewrite andb_false_r. reflexivity.
Qed.

(** The lower-case form of a checksummed address leads back to it. *)
Lemma getAddress_lowered (body : string) :
  String.length body = 40%nat ->
  JS.all_chars Hex.is_digit body = true ->
  getAddress (JS.toLowerCase (getChecksumAddress ("0x" ++ body)%string))
  = Some (getChecksumAddress ("0x" ++ body)%string)
  /\ JS.toLowerCase (getChecksumAddress ("0x" ++ body)%string)
     = JS.toLowerCase ("0x" ++ body)%string.
Proof.
  intros Hlen Hdig. rewrite getChecksumAddress_prefix.
  set (L := JS.toLowerCase body).
  set (ns := nibbles (Keccak.digest (Keccak.bytes_of_string L))).
  assert (HL : JS.all_chars lower_hex_digit L = true) by (apply toLowerCase_lower, Hdig).
  destruct (checksum_chars_facts L ns HL) as (Clen & Cdig & Clow).
  assert (Hlow : JS.toLowerCase ("0x" ++ checksum_chars L ns)%string = ("0x" ++ L)%string).
  { change (JS.toLowerCase ("0x" ++ checksum_chars L ns)%string)
      with ("0x" ++ JS.toLowerCase (checksum_chars L ns))%string.
    rewrite Clow. reflexivity. }
  rewrite Hlow. split; [|reflexivity].
  rewrite getAddress_lower; [|unfold L; rewrite length_toLowerCase; exact Hlen | exact HL].
  rewrite getChecksumAddress_prefix, (toLowerCase_fixed L HL). reflexivity.
Qed.

(** X8: an address that [normalizeAddress] returns is valid and already
    normal: normalising it again changes nothing.  It is [0x] followed by
    forty digits, differs from the given address (with its [0x] added when
    missing) in the case of letters only, and is also the normal form of
    its own lower-case spelling. *)
Theorem normalizeAddress_canonical (address r : string)
    (H : normalizeAddress address = Some r) :
  isValidAddress address = true
  /\ isValidAddress r = true
  /\ normalizeAddress r = Some r
  /\ normalizeAddress (JS.toLowerCase r) = Some r
  /\ JS.toLowerCase r = JS.toLowerCase (with_prefix address)
  /\ String.length r = 42%nat
  /\ JS.startsWith "0x" r = true
  /\ JS.all_chars Hex.is_digit (JS.slice_from 2 r) = true.
Proof.
  unfold normalizeAddress in H.
  destruct (isValidAddress address) eqn:Hv; [|discriminate]. cbn [negb] in H.
  destruct (getAddress_accepts address r H) as (body & Hpre & Hlen & Hdig & ->).
  pose proof (getAddress_checksummed body Hlen Hdig) as Hc.
  destruct (getAddress_lowered body Hlen Hdig) as [Hl Hlow].
  unfold normalizeAddress, isValidAddress. rewrite Hc, Hl. cbn [negb].
  do 4 (split; [reflexivity|]).
  split; [rewrite Hpre; exact Hlow|].
  rewrite getChecksumAddress_prefix.
  assert (HL : JS.all_chars lower_hex_digit (JS.toLowerCase body) = true)
    by (apply toLowerCase_lower, Hdig).
  destruct (checksum_chars_facts (JS.toLowerCase body)
              (nibbles (Keccak.digest (Keccak.bytes_of_string (JS.toLowerCase body)))) HL)
    as (Clen & Cdig & _).
  split; [|split; [reflexivity|exact Cdig]].
  change (S (S (String.length (checksum_chars (JS.toLowerCase body)
              (nibbles (Keccak.digest (Keccak.bytes_of_string (JS.toLowerCase body)))))))
          = 42%nat).
  rewrite Clen, length_toLowerCase, Hlen. reflexivity.
Qed.

Lemma normalizeAddress_canonical_witness :
  let r := "0x5aAeb6053F3E94C9b9A09f33669435E7Ef1BeAed" in
  isValidAddress "5AAEB6053F3E94C9B9A09F33669435E7EF1BEAED" = true
  /\ isValidAddress r = true
  /\ normalizeAddress r = Some r
  /\ normalizeAddress (JS.toLowerCase r) = Some r
  /\ JS.toLowerCase r = JS.toLowerCase (with_prefix "5AAEB6053F3E94C9B9A09F33669435E7EF1BEAED")
  /\ String.length r = 42%nat
  /\ JS.startsWith "0x" r = true
  /\ JS.all_chars Hex.is_digit (JS.slice_from 2 r) = true.
Proof.
  apply (normalizeAddress_canonical "5AAEB6053F3E94C9B9A09F33669435E7EF1BEAED").
  vm_compute. reflexivity.
Defined.

(** ** The dispute contract *)

Section Contract.

Import DummyDisputeContract.

Ltac branches :=
  repeat match goal with
         | |- context [if ?b then _ else _] => destruct b eqn:?
         | |- context [match ?o with Some _ => _ | None => _ end] => destruct o eqn:?
         end.

Lemma transact_logs (s : Storage) (c : Call) :
  (snd (transact s c) = [] /\ fst (transact s c) = s)
  \/ (exists e, snd (transact s c) = [e]
                /\ (is_failure_event e = true ->
                    exists sender to,
                      c = CallTransferNFT sender to 999
                      /\ tokenOf s sender = 999
                      /\ e = TokenTransferFailed sender to 999
                               "Token transfer blocked: special token"
                      /\ fst (transact s c) = s)).
Proof.
  destruct c as [sender to amount | sender to amount | sender to amount
                 | sender to | sender to tokenId];
    cbn [transact].
  - unfold sendTokens. branches; cbn; auto; right; eexists; split;
      [reflexivity | discriminate].
  - unfold partialTransfer. branches; cbn; auto; right; eexists; split;
      [reflexivity | discriminate].
  - unfold mintTokens. branches; cbn; auto; right; eexists; split;
      [reflexivity | discriminate].
  - unfold mintNFT. branches; cbn; auto; right; eexists; split;
      [reflexivity | discriminate].
  - unfold transferNFT.
    destruct (to =? 0); [cbn; auto|].
    destruct (tokenOf s sender =? tokenId) eqn:Hown; cbn [negb]; [|cbn; auto].
    apply Z.eqb_eq in Hown.
    destruct (tokenId =? 999) eqn:H999.
    + apply Z.eqb_eq in H999. rewrite H999 in *. cbn. right. eexists.
      split; [reflexivity|]. intros _. exists sender, to. auto.
    + cbn. right. eexists. split; [reflexivity | discriminate].
Qed.

(** X9: a failure event reaches the receipt of a transaction in one case
    only, the transfer of the blocked token 999 by its holder, which
    leaves the storage as it is.  Every other failure path reverts, so
    its [TransferFailed] or [TokenTransferFailed] event is discarded with
    the changes: [sendTokens], [partialTransfer] and the mints never log
    a failure.  A transaction logs at most one event, and one that logs
    none leaves the storage as it is. *)
Theorem only_blocked_token_failure_is_logged (s : Storage) (c : Call) :
  (length (snd (transact s c)) <= 1)%nat
  /\ (snd (transact s c) = [] -> fst (transact s c) = s)
  /\ (forall e, In e (snd (transact s c)) -> is_failure_event e = true ->
        exists sender to,
          c = CallTransferNFT sender to 999
          /\ tokenOf s sender = 999
          /\ e = TokenTransferFailed sender to 999 "Token transfer blocked: special token"
          /\ fst (transact s c) = s).
Proof.
  destruct (transact_logs s c) as [[Hl Hs] | (e & Hl & He)]; rewrite Hl.
  - repeat split; [cbn; lia | auto | intros e []].
  - repeat split; [cbn; lia | discriminate |].
    intros e' [<- | []]. exact He.
Qed.

(** *** The supply *)

Lemma sum_comm (j1 j2 : Z) (z1 z2 y : Z) : z1 + (z2 + y) = z2 + (z1 + y).
Proof. lia. Qed.

Lemma sum_insert (m : gmap Z Z) (k v : Z) :
  map_fold (fun _ v acc => v + acc) 0 (<[k := v]> m)
  = map_fold (fun _ v acc => v + acc) 0 m - default 0 (m !! k) + v.
Proof.
  destruct (m !! k) as [w|] eqn:Hk; cbn [default from_option id].
  - rewrite <- (insert_delete_eq m k v).
    rewrite map_fold_insert_L;
      [| intros; apply sum_comm; assumption | apply lookup_delete_eq].
    rewrite (map_fold_delete_L _ _ k w m);
      [| intros; apply sum_comm; assumption | exact Hk].
    lia.
  - rewrite map_fold_insert_L; [lia | intros; apply sum_comm; assumption | exact Hk].
Qed.

Lemma sum_nonneg (m : gmap Z Z) :
  map_Forall (fun _ v => 0 <= v) m -> 0 <= map_fold (fun _ v acc => v + acc) 0 m.
Proof.
  induction m as [|k v m Hk IH] using map_ind; intros H.
  - rewrite map_fold_empty. lia.
  - rewrite sum_insert, Hk. cbn [default from_option id].
    apply map_Forall_insert in H as [Hv Hm]; [|exact Hk].
    specialize (IH Hm). lia.
Qed.

Lemma sum_lookup_le (m : gmap Z Z) (k : Z) :
  map_Forall (fun _ v => 0 <= v) m ->
  0 <= default 0 (m !! k) <= map_fold (fun _ v acc => v + acc) 0 m.
Proof.
  intros H. destruct (m !! k) as [w|] eqn:Hk; cbn [default from_option id].
  - rewrite (map_fold_delete_L _ _ k w m);
      [| intros; apply sum_comm; assumption | exact Hk].
    pose proof (sum_nonneg (delete k m) (map_Forall_delete _ _ _ H)).
    specialize (H k w Hk). cbv beta in H. lia.
  - pose proof (sum_nonneg m H). lia.
Qed.

Lemma sum_set_balance (s : Storage) (account value : Z) :
  sum_balances (set_balance s account value)
  = sum_balances s - balance s account + value.
Proof. unfold sum_balances, set_balance, balance. cbn [balances]. apply sum_insert. Qed.

Lemma nonneg_set_balance (s : Storage) (account value : Z) :
  map_Forall (fun _ v => 0 <= v) (balances s) -> 0 <= value ->
  map_Forall (fun _ v => 0 <= v) (balances (set_balance s account value)).
Proof.
  intros H Hv. cbn [set_balance balances]. apply map_Forall_insert_2; assumption.
Qed.

Lemma balance_bounds (s : Storage) (account : Z) :
  supply_accounted s -> 0 <= balance s account <= totalSupply s - 10000.
Proof.
  intros (Ht & Hn & _). pose proof (sum_lookup_le (balances s) account Hn) as H.
  unfold balance, sum_balances in *. lia.
Qed.

(** Moving [amount] between two accounts keeps the sum. *)
Lemma move_accounted (s s' : Storage) (from to amount : Z) :
  supply_accounted s -> 0 <= amount ->
  move s from to amount = Some s' ->
  supply_accounted s' /\ sum_balances s' = sum_balances s.
Proof.
  intros (Ht & Hn & Hmax) Ha Hm. unfold move, checked_sub, checked_add in Hm.
  destruct (amount <=? balance s from) eqn:Hle; [|discriminate].
  apply Z.leb_le in Hle.
  set (s1 := set_balance s from (balance s from - amount)) in *.
  destruct (balance s1 to + amount <=? MAX_UINT256); [|discriminate].
  injection Hm as <-.
  assert (Hn1 : map_Forall (fun _ v => 0 <= v) (balances s1))
    by (apply nonneg_set_balance; [exact Hn | lia]).
  assert (Hsum1 : sum_balances s1 = sum_balances s - amount)
    by (unfold s1; rewrite sum_set_balance; lia).
  pose proof (sum_lookup_le (balances s1) to Hn1) as Hto. fold (balance s1 to) in Hto.
  assert (Hsum : sum_balances (set_balance s1 to (balance s1 to + amount))
                 = sum_balances s) by (rewrite sum_set_balance; lia).
  split; [|exact Hsum].
  split; [|split].
  - cbn [set_balance totalSupply]. rewrite Hsum. exact Ht.
  - apply nonneg_set_balance; [exact Hn1 | lia].
  - exact Hmax.
Qed.

(** In an accounted storage a covered move never panics. *)
Lemma move_succeeds (s : Storage) (from to amount : Z) :
  supply_accounted s -> 0 <= amount <= balance s from ->
  exists s', move s from to amount = Some s'.
Proof.
  intros (Ht & Hn & Hmax) [Ha Hle]. unfold move, checked_sub, checked_add.
  destruct (Z.leb_spec amount (balance s from)); [|lia].
  set (s1 := set_balance s from (balance s from - amount)).
  assert (Hn1 : map_Forall (fun _ v => 0 <= v) (balances s1))
    by (apply nonneg_set_balance; [exact Hn | lia]).
  assert (Hsum1 : sum_balances s1 = sum_balances s - amount)
    by (unfold s1; rewrite sum_set_balance; lia).
  pose proof (sum_lookup_le (balances s1) to Hn1) as Hto.
  fold (balance s1 to) in Hto. fold (sum_balances s1) in Hto.
  destruct (Z.leb_spec (balance s1 to + amount) MAX_UINT256); [eauto | lia].
Qed.

Lemma transact_accounted (s : Storage) (c : Call) :
  well_formed c -> supply_accounted s -> supply_accounted (fst (transact s c)).
Proof.
  intros Hwf Hs.
  destruct c as [sender to amount | sender to amount | sender to amount
                 | sender to | sender to tokenId];
    cbn [transact fst well_formed] in *.
  - unfold sendTokens.
    destruct (to =? 0); [exact Hs|]. destruct (amount =? 0); [exact Hs|].
    destruct (1000 <? amount); [exact Hs|].
    destruct (balance s sender <? amount); [exact Hs|].
    destruct (move s sender to amount) as [s'|] eqn:Hm; [|exact Hs].
    cbn [storage_after].
    apply (move_accounted s s' sender to amount); [exact Hs | lia | exact Hm].
  - unfold partialTransfer.
    destruct (to =? 0); [exact Hs|]. destruct (amount =? 0); [exact Hs|].
    destruct (balance s sender <? amount); [exact Hs|].
    destruct (move s sender to (amount / 2)) as [s'|] eqn:Hm; [|exact Hs].
    cbn [storage_after].
    apply (move_accounted s s' sender to (amount / 2)); [exact Hs | | exact Hm].
    apply Z.div_pos; lia.
  - unfold mintTokens, checked_add.
    destruct (to =? 0); [exact Hs|].
    destruct (balance s to + amount <=? MAX_UINT256); [|exact Hs].
    cbn [set_balance totalSupply].
    destruct (Z.leb_spec (totalSupply s + amount) MAX_UINT256); [|exact Hs].
    cbn [storage_after]. destruct Hs as (Ht & Hn & Hmax).
    pose proof (sum_lookup_le (balances s) to Hn) as Hto. fold (balance s to) in Hto.
    split; [|split].
    + cbn [set_totalSupply totalSupply].
      change (sum_balances _) with (sum_balances (set_balance s to (balance s to + amount))).
      rewrite sum_set_balance. lia.
    + cbn [set_totalSupply balances]. apply map_Forall_insert_2; [lia | exact Hn].
    + cbn [set_totalSupply totalSupply]. lia.
  - unfold mintNFT, checked_add.
    destruct (to =? 0); [exact Hs|].
    destruct (nextTokenId s + 1 <=? MAX_UINT256); exact Hs.
  - unfold transferNFT.
    destruct (to =? 0); [exact Hs|].
    destruct (negb (tokenOf s sender =? tokenId)); [exact Hs|].
    destruct (tokenId =? 999); exact Hs.
Qed.

Lemma constructor_accounted : supply_accounted constructor.
Proof.
  unfold supply_accounted, constructor, sum_balances. cbn [totalSupply balances].
  rewrite map_fold_empty. split; [reflexivity|]. split; [apply map_Forall_empty|].
  vm_compute. discriminate.
Qed.

Lemma run_accounted (calls : list Call) (s : Storage) :
  Forall well_formed calls -> supply_accounted s -> supply_accounted (run calls s).
Proof.
  intros Hwf. revert s. induction Hwf as [|c calls Hc _ IH]; intros s Hs; [exact Hs|].
  cbn [run fold_left]. apply IH, transact_accounted; assumption.
Qed.

(** X10: after any sequence of transactions on the deployed contract
    the total supply is the tokens held by all accounts together plus the
    initial 10000, which no account ever holds; every balance lies
    between zero and the minted amount, the supply stays a [uint256], and
    neither [sendTokens] nor [partialTransfer] can end in an arithmetic
    panic or change the sum of the balances or the supply. *)
Theorem supply_is_accounted (calls : list Call) (Hwf : Forall well_formed calls) :
  let s := run calls constructor in
  totalSupply s = 10000 + sum_balances s
  /\ (forall account, 0 <= balanceOf account s <= getTotalSupply s - 10000)
  /\ 10000 <= getTotalSupply s <= MAX_UINT256
  /\ (forall sender to amount, 0 <= amount ->
        panics (sendTokens sender to amount s) = false
        /\ panics (partialTransfer sender to amount s) = false
        /\ sum_balances (storage_after s (sendTokens sender to amount s)) = sum_balances s
        /\ sum_balances (storage_after s (partialTransfer sender to amount s))
           = sum_balances s).
Proof.
  cbv zeta. pose proof (run_accounted calls constructor Hwf constructor_accounted) as Hs.
  set (s := run calls constructor) in *.
  pose proof Hs as (Ht & Hn & Hmax).
  split; [exact Ht|]. split; [intros account; apply balance_bounds; exact Hs|].
  split.
  { unfold getTotalSupply. pose proof (sum_nonneg (balances s) Hn) as H0.
    fold (sum_balances s) in H0. lia. }
  intros sender to amount Ha.
  assert (Hsend : panics (sendTokens sender to amount s) = false
                  /\ sum_balances (storage_after s (sendTokens sender to amount s))
                     = sum_balances s).
  { unfold sendTokens.
    destruct (to =? 0); [auto|]. destruct (amount =? 0); [auto|].
    destruct (1000 <? amount); [auto|].
    destruct (Z.ltb_spec (balance s sender) amount); [auto|].
    destruct (move_succeeds s sender to amount Hs) as [s' Hm]; [lia|].
    rewrite Hm. cbn [panics storage_after].
    split; [reflexivity|]. eapply move_accounted; [exact Hs | exact Ha | exact Hm]. }
  assert (Hpart : panics (partialTransfer sender to amount s) = false
                  /\ sum_balances (storage_after s (partialTransfer sender to amount s))
                     = sum_balances s).
  { unfold partialTransfer.
    destruct (to =? 0); [auto|]. destruct (amount =? 0); [auto|].
    destruct (Z.ltb_spec (balance s sender) amount); [auto|].
    assert (Hhalf : 0 <= amount / 2 <= amount).
    { split; [apply Z.div_pos; lia | apply Z.div_le_upper_bound; lia]. }
    destruct (move_succeeds s sender to (amount / 2) Hs) as [s' Hm]; [lia|].
    rewrite Hm. cbn [panics storage_after].
    split; [reflexivity|].
    apply (move_accounted s s' sender to (amount / 2)); [exact Hs | lia | exact Hm]. }
  tauto.
Qed.

Lemma supply_is_accounted_witness :
  let s := run sample_calls constructor in
  totalSupply s = 10000 + sum_balances s
  /\ (forall account, 0 <= balanceOf account s <= getTotalSupply s - 10000)
  /\ 10000 <= getTotalSupply s <= MAX_UINT256
  /\ (forall sender to amount, 0 <= amount ->
        panics (sendTokens sender to amount s) = false
        /\ panics (partialTransfer sender to amount s) = false
        /\ sum_balances (storage_after s (sendTokens sender to amount s)) = sum_balances s
        /\ sum_balances (storage_after s (partialTransfer sender to amount s))
           = sum_balances s).
Proof.
  apply (supply_is_accounted sample_calls).
  repeat constructor; vm_compute; discriminate.
Defined.

(** The run of the sample: 500 minted, 200 of them moved, the third
    transaction refused. *)
Lemma sample_run :
  let s := run sample_calls constructor in
  balanceOf 7 s = 300 /\ balanceOf 8 s = 200 /\ getTotalSupply s = 10500
  /\ sum_balances s = 500.
Proof. cbv zeta. repeat split; vm_compute; reflexivity. Qed.

(** *** What a transfer moves *)

Lemma balance_set_balance (s : Storage) (account value other : Z) :
  balance (set_balance s account value) other
  = if decide (other = account) then value else balance s other.
Proof.
  unfold balance, set_balance. cbn [balances].
  destruct (decide (other = account)) as [->|Hne].
  - rewrite lookup_insert_eq. reflexivity.
  - rewrite lookup_insert_ne by congruence. reflexivity.
Qed.

Lemma move_moved (s s' : Storage) (from to amount : Z) :
  move s from to amount = Some s' -> moved s s' from to amount.
Proof.
  unfold move, checked_sub, checked_add. intros Hm.
  destruct (amount <=? balance s from); [|discriminate].
  destruct (_ <=? MAX_UINT256); [|discriminate].
  injection Hm as <-. unfold moved. split; [|auto].
  intros account. rewrite !balance_set_balance.
  repeat case_decide; subst; try congruence; lia.
Qed.

(** X11: on the deployed contract, after any sequence of transactions,
    [sendTokens] succeeds exactly when the recipient is not the zero
    address and the amount is above zero, at most 1000 and covered by the
    balance of the sender; it then moves exactly the amount, logs one
    [Transfer] and touches nothing else.  [partialTransfer] has no upper
    limit; it asks for the whole amount to be covered but moves half of
    it, rounded down.  Otherwise either call reverts with an error of the
    contract, and the [TransferFailed] event it emitted is discarded. *)
Theorem transfers_move_or_refuse (calls : list Call) (sender to amount : Z)
    (Hwf : Forall well_formed calls) (Hamount : 0 <= amount <= MAX_UINT256) :
  let s := run calls constructor in
  (if sendTokens_allowed s sender to amount
   then exists s', sendTokens sender to amount s
                   = Success true s' [Transfer sender to amount]
                   /\ moved s s' sender to amount
   else refused (sendTokens sender to amount s) sender to amount)
  /\ (if partialTransfer_allowed s sender to amount
      then exists s', partialTransfer sender to amount s
                      = Success true s' [PartialTransfer sender to amount (amount / 2)]
                      /\ moved s s' sender to (amount / 2)
      else refused (partialTransfer sender to amount s) sender to amount).
Proof.
  cbv zeta. pose proof (run_accounted calls constructor Hwf constructor_accounted) as Hs.
  set (s := run calls constructor) in *.
  unfold sendTokens_allowed, partialTransfer_allowed, sendTokens, partialTransfer, refused.
  destruct (to =? 0); cbn [negb andb].
  { split; eexists _, _; (split; [reflexivity | discriminate]). }
  destruct (amount =? 0); cbn [negb andb].
  { split; eexists _, _; (split; [reflexivity | discriminate]). }
  assert (Hhalf : 0 <= amount / 2 <= amount).
  { split; [apply Z.div_pos; lia | apply Z.div_le_upper_bound; lia]. }
  split.
  - destruct (Z.leb_spec amount 1000), (Z.ltb_spec 1000 amount); try lia; cbn [andb].
    + destruct (Z.leb_spec amount (balance s sender)), (Z.ltb_spec (balance s sender) amount);
        try lia.
      * destruct (move_succeeds s sender to amount Hs) as [s' Hm]; [lia|].
        rewrite Hm. exists s'. split; [reflexivity | apply move_moved, Hm].
      * eexists _, _. split; [reflexivity | discriminate].
    + eexists _, _. split; [reflexivity | discriminate].
  - destruct (Z.leb_spec amount (balance s sender)), (Z.ltb_spec (balance s sender) amount);
      try lia.
    + destruct (move_succeeds s sender to (amount / 2) Hs) as [s' Hm]; [lia|].
      rewrite Hm. exists s'. split; [reflexivity | apply move_moved, Hm].
    + eexists _, _. split; [reflexivity | discriminate].
Qed.

Lemma transfers_move_or_refuse_witness :
  let s := run sample_calls constructor in
  (if sendTokens_allowed s 7 8 100
   then exists s', sendTokens 7 8 100 s = Success true s' [Transfer 7 8 100]
                   /\ moved s s' 7 8 100
   else refused (sendTokens 7 8 100 s) 7 8 100)
  /\ (if partialTransfer_allowed s 7 8 100
      then exists s', partialTransfer 7 8 100 s
                      = Success true s' [PartialTransfer 7 8 100 (100 / 2)]
                      /\ moved s s' 7 8 (100 / 2)
      else refused (partialTransfer 7 8 100 s) 7 8 100).
Proof.
  apply (transfers_move_or_refuse sample_calls 7 8 100).
  - repeat constructor; vm_compute; discriminate.
  - split; vm_compute; discriminate.
Defined.

(** *** Tokens and their holders *)

Lemma tokenOf_set_tokenId (s : Storage) (account value other : Z) :
  tokenOf (set_tokenId s account value) other
  = if decide (other = account) then value else tokenOf s other.
Proof.
  unfold tokenOf, set_tokenId. cbn [tokenIds].
  destruct (decide (other = account)) as [->|Hne].
  - rewrite lookup_insert_eq. reflexivity.
  - rewrite lookup_insert_ne by congruence. reflexivity.
Qed.

Lemma move_tokens (s s' : Storage) (from to amount : Z) :
  move s from to amount = Some s' ->
  tokenIds s' = tokenIds s /\ nextTokenId s' = nextTokenId s.
Proof. intros H. apply move_moved in H as (_ & Ht & _ & Hn). auto. Qed.

(** What a transaction does to the tokens. *)
Lemma transact_tokens (s : Storage) (c : Call) :
  let s' := fst (transact s c) in
  (tokenIds s' = tokenIds s /\ nextTokenId s' = nextTokenId s)
  \/ (exists sender to,
        c = CallMintNFT sender to
        /\ nextTokenId s' = nextTokenId s + 1
        /\ forall account,
             tokenOf s' account
             = if decide (account = to) then nextTokenId s else tokenOf s account)
  \/ (exists sender to,
        c = CallTransferNFT sender to (tokenOf s sender)
        /\ tokenOf s sender <> 999
        /\ nextTokenId s' = nextTokenId s
        /\ forall account,
             tokenOf s' account
             = if decide (account = to) then tokenOf s sender
               else if decide (account = sender) then 0 else tokenOf s account).
Proof.
  cbv zeta.
  destruct c as [sender to amount | sender to amount | sender to amount
                 | sender to | sender to tokenId];
    cbn [transact fst].
  - left. unfold sendTokens. branches; cbn [storage_after]; auto.
    eapply move_tokens; eassumption.
  - left. unfold partialTransfer. branches; cbn [storage_after]; auto.
    eapply move_tokens; eassumption.
  - left. unfold mintTokens. branches; cbn [storage_after]; auto.
  - unfold mintNFT, checked_add. destruct (to =? 0); [left; auto|].
    destruct (nextTokenId s + 1 <=? MAX_UINT256); [|left; auto].
    right. left. exists sender, to. cbn [storage_after].
    split; [reflexivity|]. split; [reflexivity|].
    intros account. rewrite tokenOf_set_tokenId. reflexivity.
  - unfold transferNFT. destruct (to =? 0); [left; auto|].
    destruct (Z.eqb_spec (tokenOf s sender) tokenId) as [<-|]; cbn [negb]; [|left; auto].
    destruct (Z.eqb_spec (tokenOf s sender) 999); [left; auto|].
    right. right. exists sender, to. cbn [storage_after].
    split; [reflexivity|]. split; [assumption|]. split; [reflexivity|].
    intros account. rewrite !tokenOf_set_tokenId. reflexivity.
Qed.

Lemma tokenOf_ext (s s' : Storage) :
  tokenIds s' = tokenIds s -> forall account, tokenOf s' account = tokenOf s account.
Proof. intros H account. unfold tokenOf. rewrite H. reflexivity. Qed.

Lemma transact_distinct (s : Storage) (c : Call) :
  tokens_distinct s -> tokens_distinct (fst (transact s c)).
Proof.
  intros (Hnext & Hrange & Huniq).
  destruct (transact_tokens s c)
    as [[Ht Hn] | [(sender & to & _ & Hn & Htok) | (sender & to & _ & _ & Hn & Htok)]];
    unfold tokens_distinct; rewrite Hn.
  - pose proof (tokenOf_ext s _ Ht) as He.
    split; [exact Hnext|]. split.
    + intros account. rewrite He. apply Hrange.
    + intros a b. rewrite !He. apply Huniq.
  - split; [lia|]. split.
    + intros account. rewrite Htok. pose proof (Hrange account).
      case_decide; lia.
    + intros a b. rewrite !Htok. pose proof (Hrange a). pose proof (Hrange b).
      repeat case_decide; subst; try congruence; try lia. apply Huniq.
  - split; [exact Hnext|]. split.
    + intros account. rewrite Htok. pose proof (Hrange account). pose proof (Hrange sender).
      repeat case_decide; lia.
    + intros a b. rewrite !Htok.
      repeat case_decide; subst; try congruence; intros Heq Hne.
      * symmetry in Heq. apply Huniq in Heq; congruence.
      * apply Huniq in Heq; congruence.
      * apply Huniq; assumption.
Qed.

Lemma constructor_distinct : tokens_distinct constructor.
Proof.
  unfold tokens_distinct, constructor, tokenOf. cbn [nextTokenId tokenIds].
  split; [lia|]. split.
  - intros account. rewrite lookup_empty. cbn. lia.
  - intros a b _. rewrite lookup_empty. cbn. congruence.
Qed.

Lemma run_distinct (calls : list Call) (s : Storage) :
  tokens_distinct s -> tokens_distinct (run calls s).
Proof.
  revert s. induction calls as [|c calls IH]; intros s Hs; [exact Hs|].
  cbn [run fold_left]. apply IH, transact_distinct, Hs.
Qed.

Lemma ownerOf_loop_zero (gas : nat) (i tokenId : Z) (s : Storage) :
  (ownerOf_loop gas i tokenId s = None \/ ownerOf_loop gas i tokenId s = Some 0)
  /\ ((Z.to_nat (nextTokenId s - i) < gas)%nat -> ownerOf_loop gas i tokenId s = Some 0).
Proof.
  revert i. induction gas as [|gas IH]; intros i.
  - cbn. split; [auto | lia].
  - cbn [ownerOf_loop]. destruct (Z.ltb_spec i (nextTokenId s)); [|auto].
    destruct (i =? tokenId); [auto|].
    destruct (IH (i + 1)) as [H1 H2]. split; [exact H1|].
    intros Hgas. apply H2. lia.
Qed.

(** X12: after any sequence of transactions on the deployed contract
    the token ids in use are below the next id, and a token other than
    zero is held by at most one account.  [ownerOf] does not report that
    holder: whatever the token, it answers the zero address, or runs out
    of gas. *)
Theorem tokens_have_one_holder (calls : list Call) :
  let s := run calls constructor in
  1 <= getNextTokenId s
  /\ (forall account, 0 <= tokenOf s account < getNextTokenId s)
  /\ (forall a b, tokenOf s a = tokenOf s b -> tokenOf s a <> 0 -> a = b)
  /\ (forall gas tokenId,
        ownerOf gas tokenId s = None \/ ownerOf gas tokenId s = Some 0)
  /\ (forall gas tokenId,
        (Z.to_nat (getNextTokenId s) <= gas)%nat -> ownerOf gas tokenId s = Some 0).
Proof.
  cbv zeta. destruct (run_distinct calls constructor constructor_distinct)
    as (Hnext & Hrange & Huniq).
  unfold getNextTokenId, ownerOf.
  do 3 (split; [assumption|]). split.
  - intros gas tokenId. apply ownerOf_loop_zero.
  - intros gas tokenId Hgas. apply ownerOf_loop_zero. lia.
Qed.

Lemma blocked_step (s : Storage) (c : Call) (holder : Z) :
  tokens_distinct s /\ 999 < nextTokenId s
  /\ (forall account, tokenOf s account = 999 -> account = holder) ->
  let s' := fst (transact s c) in
  tokens_distinct s' /\ 999 < nextTokenId s'
  /\ (forall account, tokenOf s' account = 999 -> account = holder).
Proof.
  intros (Hd & Hnext & Hold). cbv zeta.
  split; [apply transact_distinct, Hd|].
  destruct (transact_tokens s c)
    as [[Ht Hn] | [(sender & to & _ & Hn & Htok) | (sender & to & _ & Hne & Hn & Htok)]];
    rewrite Hn.
  - split; [exact Hnext|]. intros account. rewrite (tokenOf_ext s _ Ht). apply Hold.
  - split; [lia|]. intros account. rewrite Htok. case_decide; [lia | apply Hold].
  - split; [exact Hnext|]. intros account. rewrite Htok.
    repeat case_decide; [congruence | discriminate | apply Hold].
Qed.

Lemma blocked_run (calls : list Call) (s : Storage) (holder : Z) :
  tokens_distinct s /\ 999 < nextTokenId s
  /\ (forall account, tokenOf s account = 999 -> account = holder) ->
  forall account, tokenOf (run calls s) account = 999 -> account = holder.
Proof.
  revert s. induction calls as [|c calls IH]; intros s H.
  - apply H.
  - cbn [run fold_left]. apply IH, blocked_step, H.
Qed.

(** X13: the blocked token 999 never changes hands: once an account
    holds it, no sequence of transactions makes another account hold it.
    Token zero, which stands for no token, can be sent by any account
    that holds none: the transaction succeeds, logs a [Transfer] and
    leaves the recipient without the token it held. *)
Theorem special_tokens (before calls : list Call) (holder account : Z)
    (Hheld : tokenOf (run before constructor) holder = 999)
    (Hlater : tokenOf (run calls (run before constructor)) account = 999) :
  account = holder
  /\ (forall s sender to,
        to <> 0 -> tokenOf s sender = 0 ->
        transferNFT sender to 0 s
        = Success true (set_tokenId (set_tokenId s sender 0) to 0) [Transfer sender to 0]
        /\ tokenOf (fst (transact s (CallTransferNFT sender to 0))) to = 0).
Proof.
  split.
  - pose proof (run_distinct before constructor constructor_distinct) as Hd.
    apply (blocked_run calls (run before constructor) holder); [|exact Hlater].
    split; [exact Hd|]. destruct Hd as (_ & Hrange & Huniq). split.
    + specialize (Hrange holder). lia.
    + intros a Ha. apply Huniq; [congruence | lia].
  - intros s sender to Hto Hnone.
    assert (Hcall : transferNFT sender to 0 s
                    = Success true (set_tokenId (set_tokenId s sender 0) to 0)
                        [Transfer sender to 0]).
    { unfold transferNFT. destruct (Z.eqb_spec to 0); [contradiction|].
      rewrite Hnone. reflexivity. }
    split; [exact Hcall|].
    cbn [transact fst]. rewrite Hcall. cbn [storage_after].
    rewrite tokenOf_set_tokenId. case_decide; [reflexivity | contradiction].
Qed.

Lemma special_tokens_witness :
  7 = 7
  /\ (forall s sender to,
        to <> 0 -> tokenOf s sender = 0 ->
        transferNFT sender to 0 s
        = Success true (set_tokenId (set_tokenId s sender 0) to 0) [Transfer sender to 0]
        /\ tokenOf (fst (transact s (CallTransferNFT sender to 0))) to = 0).
Proof.
  apply (special_tokens mints_up_to_999 [CallTransferNFT 7 8 999; CallTransferNFT 8 9 0] 7 7).
  - vm_compute. reflexivity.
  - vm_compute. reflexivity.
Defined.

End Contract.

(** ** The reply of the log route *)












(** Two valid requests to a provider that answers every read.  The
    receipt of an ERC-20 transfer is answered 500: the [decimals] of the
    token is a number.  The receipt of an ERC-721 transfer is answered
    with its one event out of two logs. *)
Lemma log_route_samples :
  let this := {| provider := Some provider_erc20 |} in
  let request receipt :=
    snd (getTransactionLogs this (Some sample_hash) (Some Sample.contract)
           (fun _ => inr (Some receipt)) (inr None)) in
  request {| rc_status := Some 1; rc_gasUsed := Some 21000; rc_logs := [Sample.log_erc20] |}
  = Status 500 "Failed to fetch transaction logs"
  /\ match request receipt_erc721 with
     | Json data =>
         ld_contractType data = "ERC721" /\ ld_contractLogs data = 1%nat
         /\ ld_totalLogs data = 2%nat /\ ld_transactionStatus data = "success"
     | Status _ _ => False
     end.
Proof. cbv zeta. split; vm_compute; auto. Qed.

(** ** The replies to an exception *)

Lemma includes_after_prefix (message : string) :
  message_includes "Transaction not found" (aiServiceError message)
  = message_includes "Transaction not found" message
  /\ message_includes "AI service failed" (aiServiceError message) = true.
Proof. split; reflexivity. Qed.

(** X15: a failure of the AI service is answered 503 with the text of
    the AI service, whatever went wrong, except when the message of the
    failure itself contains [Transaction not found], which the handler
    meets first and answers 404.  It is never answered 500, and never
    with the text of the blockchain service, even when its message names
    the provider. *)
Theorem ai_failure_reply (message : string) :
  errorReply (aiServiceError message)
  = (if message_includes "Transaction not found" message
     then (404, "Transaction not found")
     else (503, "AI service temporarily unavailable"))
  /\ fst (errorReply (aiServiceError message)) <> 500
  /\ snd (errorReply (aiServiceError message))
     <> "Blockchain service temporarily unavailable".
Proof.
  unfold errorReply. destruct (includes_after_prefix message) as [-> ->].
  destruct (message_includes "Transaction not found" message);
    repeat split; discriminate.
Qed.

(** ** The sanitizer of free text *)

Lemma removeAngles_sublist (text : string) :
  sublist (list_ascii_of_string (removeAngles text)) (list_ascii_of_string text).
Proof.
  induction text as [|c rest IH]; cbn [removeAngles list_ascii_of_string]; [constructor|].
  destruct (is_angle c); cbn [list_ascii_of_string].
  - apply sublist_cons, IH.
  - apply sublist_skip, IH.
Qed.

Lemma removeAngles_clean (text : string) :
  JS.any_char is_angle (removeAngles text) = false.
Proof.
  induction text as [|c rest IH]; [reflexivity|]. cbn [removeAngles].
  destruct (is_angle c) eqn:Hc; [exact IH|]. cbn [JS.any_char]. rewrite Hc. exact IH.
Qed.

Lemma removeProtocol_sublist (skip : nat) (text : string) :
  sublist (list_ascii_of_string (removeProtocol skip text)) (list_ascii_of_string text).
Proof.
  revert skip. induction text as [|c rest IH]; intros skip; [destruct skip; constructor|].
  cbn [removeProtocol]. destruct skip as [|skip'].
  - destruct (matches_ci "javascript:" (String c rest)); cbn [list_ascii_of_string].
    + apply sublist_cons, IH.
    + apply sublist_skip, IH.
  - cbn [list_ascii_of_string]. apply sublist_cons, IH.
Qed.

Lemma removeHandlers_sublist (skip : nat) (text : string) :
  sublist (list_ascii_of_string (removeHandlers skip text)) (list_ascii_of_string text).
Proof.
  revert skip. induction text as [|c rest IH]; intros skip; [destruct skip; constructor|].
  cbn [removeHandlers]. destruct skip as [|skip'].
  - destruct (handler_match (String c rest)); cbn [list_ascii_of_string].
    + apply sublist_cons, IH.
    + apply sublist_skip, IH.
  - cbn [list_ascii_of_string]. apply sublist_cons, IH.
Qed.

Lemma prefix_n_sublist (n : nat) (text : string) :
  sublist (list_ascii_of_string (JS.prefix_n n text)) (list_ascii_of_string text).
Proof.
  revert text. induction n as [|n IH]; intros [|c rest]; cbn; try constructor.
  - apply sublist_nil_l.
  - apply IH.
Qed.

Lemma any_char_existsb (p : ascii -> bool) (text : string) :
  JS.any_char p text = existsb p (list_ascii_of_string text).
Proof. induction text as [|c rest IH]; cbn; [reflexivity | rewrite IH; reflexivity]. Qed.

Lemma any_char_sublist (p : ascii -> bool) (text text' : string) :
  sublist (list_ascii_of_string text') (list_ascii_of_string text) ->
  JS.any_char p text = false -> JS.any_char p text' = false.
Proof.
  rewrite !any_char_existsb. intros Hsub Hnone.
  destruct (existsb p (list_ascii_of_string text')) eqn:He; [|reflexivity].
  apply existsb_exists in He as (c & Hin & Hc).
  assert (Hin' : In c (list_ascii_of_string text)).
  { apply list_elem_of_In. eapply elem_of_sublist; [|exact Hsub].
    apply list_elem_of_In. exact Hin. }
  assert (Ht : existsb p (list_ascii_of_string text) = true)
    by (apply existsb_exists; eauto).
  congruence.
Qed.

Lemma length_chars (text : string) :
  length (list_ascii_of_string text) = String.length text.
Proof. induction text as [|c rest IH]; cbn; [reflexivity | f_equal; exact IH]. Qed.

(** X16: the sanitized text holds neither [<] nor [>], has at most a
    thousand characters, and is what is left of the given text after
    characters have been deleted: nothing is added or reordered.  It can
    still begin with [javascript:]: the protocol is removed in one pass,
    and the pieces around a removed match may form it again. *)
Theorem sanitizeText_deletes (text : string) :
  JS.any_char is_angle (sanitizeText text) = false
  /\ (String.length (sanitizeText text) <= 1000)%nat
  /\ (String.length (sanitizeText text) <= String.length text)%nat
  /\ sublist (list_ascii_of_string (sanitizeText text)) (list_ascii_of_string text)
  /\ JS.startsWith "javascript:" (sanitizeText ("javajavascript:script:" ++ text)%string)
     = true.
Proof.
  unfold sanitizeText.
  set (t1 := removeAngles text).
  set (t2 := removeProtocol 0 t1).
  set (t3 := removeHandlers 0 t2).
  assert (H3 : sublist (list_ascii_of_string (JS.prefix_n 1000 t3)) (list_ascii_of_string t1)).
  { etransitivity; [apply prefix_n_sublist|].
    etransitivity; [apply removeHandlers_sublist|]. apply removeProtocol_sublist. }
  assert (H : sublist (list_ascii_of_string (JS.prefix_n 1000 t3))
                      (list_ascii_of_string text)).
  { etransitivity; [exact H3 | apply removeAngles_sublist]. }
  split; [apply (any_char_sublist _ t1 _ H3), removeAngles_clean|].
  split; [rewrite length_prefix_n; lia|].
  split; [apply sublist_length in H; rewrite !length_chars in H; exact H|].
  split; [exact H|].
  reflexivity.
Qed.

(** A tag with an event handler: the angles and the handler go, the rest
    stays. *)
Lemma sanitizeText_sample :
  sanitizeText "<b OnClick=x>hi</b> see JavaScript:run" = "b xhi/b see run".
Proof. vm_compute. reflexivity. Qed.
